(** * quant_dev: resource pool, task scheduler and limit order book

    A shallow embedding of three C++ components and the properties their
    specification states about them:

    - [Book]  : [order_book/order_book.cpp] with its header (class [OrderBook]);
    - [Sched] : the task scheduler header (class [TaskScheduler]);
    - [Pool]  : [resource_pool/resource_pool.h] (classes [ResourcePool], [RDeleter]).

    The definitions come first; the properties follow in [BookProps],
    [SchedProps] and [PoolProps].

    C++ [int] values are integers of [Z] whose arithmetic is checked against the
    32-bit range (signed overflow is undefined behaviour, not wrap-around);
    [double] values are the kernel's binary64 floats; [std::unordered_map] and
    [std::unordered_set] are [gmap] and [gset]; [std::vector] is a list indexed
    with a range check; a [std::list] iterator is the address of a list node in a
    store of live nodes, so that an iterator kept after its node was erased is
    visibly dangling. *)

From Stdlib Require Import ZArith Lia Floats.
From stdpp Require Import base option list gmap.

Open Scope Z_scope.

(** ** What a C++ call can do besides returning *)

Module Cpp.

Inductive exn : Type :=
| out_of_range        (* std::unordered_map::at on a missing key *)
| length_error        (* std::vector::resize beyond max_size *)
| bad_function_call   (* calling an empty std::function *)
| thrown_message.     (* [throw "..."] of a string literal *)

Inductive outcome (A : Type) : Type :=
| Ok (a : A)          (* the call returns [a] *)
| Throw (e : exn)     (* the call exits by an exception *)
| Aborted             (* a failed [assert] terminates the program *)
| Undefined           (* the call has undefined behaviour *)
| OutOfFuel.          (* the model's loop bound was reached *)

Arguments Ok {A} a.
Arguments Throw {A} e.
Arguments Aborted {A}.
Arguments Undefined {A}.
Arguments OutOfFuel {A}.

#[export] Instance outcome_fmap : FMap outcome := λ A B f o,
  match o with
  | Ok a => Ok (f a)
  | Throw e => Throw e
  | Aborted => Aborted
  | Undefined => Undefined
  | OutOfFuel => OutOfFuel
  end.

#[export] Instance outcome_ret : MRet outcome := λ A a, Ok a.

#[export] Instance outcome_bind : MBind outcome := λ A B f o,
  match o with
  | Ok a => f a
  | Throw e => Throw e
  | Aborted => Aborted
  | Undefined => Undefined
  | OutOfFuel => OutOfFuel
  end.

Definition INT_MIN : Z := -2147483648.
Definition INT_MAX : Z := 2147483647.

Definition in_int (z : Z) : bool := (INT_MIN <=? z) && (z <=? INT_MAX).

(** [static_cast<double>(z)] for a 32-bit [z]: exact. *)
Definition of_int (z : Z) : float :=
  if z <? 0 then PrimFloat.opp (PrimFloat.of_uint63 (Uint63.of_Z (- z)))
  else PrimFloat.of_uint63 (Uint63.of_Z z).

End Cpp.

Export Cpp.

(** ** The order book *)

Module Book.

Record LimitOrder : Type := mkLimitOrder {
  price : Z;
  originalSize : Z;
  remainingSize : Z;
  filledValue : Z
}.

(** [orders] lists the addresses of the level's list nodes, front first. *)
Record OrderLevel : Type := mkOrderLevel {
  orders : list positive;
  totalSize : Z;
  nextIdx : Z;
  prevIdx : Z
}.

Record OrderState : Type := mkOrderState {
  filledSize : Z;
  averagePrice : float
}.

Record PriceLevel : Type := mkPriceLevel {
  level_price : Z;
  level_totalSize : Z
}.

Record OrderBook : Type := mkOrderBook {
  maxP : Z;
  incr : Z;
  nextOrderId : Z;
  orderLevels : list OrderLevel;
  firstBidIdx : Z;
  lastBidIdx : Z;
  firstOfferIdx : Z;
  lastOfferIdx : Z;
  activeOrderMap : gmap Z positive;
  doneOrderMap : gmap Z OrderState;
  nodes : gmap positive LimitOrder;   (* the live nodes of all [std::list]s *)
  nextNode : positive                 (* the next node address to hand out *)
}.

(** Default member initialisers of the structs. *)
Definition emptyLevel : OrderLevel := mkOrderLevel [] 0 (-1) (-1).
Definition unknownState : OrderState := mkOrderState (-1) 0%float.
Definition noPriceLevel : PriceLevel := mkPriceLevel (-1) (-1).

(** *** Field updates *)

Definition set_nextOrderId (v : Z) (b : OrderBook) : OrderBook :=
  mkOrderBook (maxP b) (incr b) v (orderLevels b) (firstBidIdx b) (lastBidIdx b)
    (firstOfferIdx b) (lastOfferIdx b) (activeOrderMap b) (doneOrderMap b)
    (nodes b) (nextNode b).

Definition set_orderLevels (v : list OrderLevel) (b : OrderBook) : OrderBook :=
  mkOrderBook (maxP b) (incr b) (nextOrderId b) v (firstBidIdx b) (lastBidIdx b)
    (firstOfferIdx b) (lastOfferIdx b) (activeOrderMap b) (doneOrderMap b)
    (nodes b) (nextNode b).

Definition set_firstBidIdx (v : Z) (b : OrderBook) : OrderBook :=
  mkOrderBook (maxP b) (incr b) (nextOrderId b) (orderLevels b) v (lastBidIdx b)
    (firstOfferIdx b) (lastOfferIdx b) (activeOrderMap b) (doneOrderMap b)
    (nodes b) (nextNode b).

Definition set_lastBidIdx (v : Z) (b : OrderBook) : OrderBook :=
  mkOrderBook (maxP b) (incr b) (nextOrderId b) (orderLevels b) (firstBidIdx b) v
    (firstOfferIdx b) (lastOfferIdx b) (activeOrderMap b) (doneOrderMap b)
    (nodes b) (nextNode b).

Definition set_firstOfferIdx (v : Z) (b : OrderBook) : OrderBook :=
  mkOrderBook (maxP b) (incr b) (nextOrderId b) (orderLevels b) (firstBidIdx b)
    (lastBidIdx b) v (lastOfferIdx b) (activeOrderMap b) (doneOrderMap b)
    (nodes b) (nextNode b).

Definition set_lastOfferIdx (v : Z) (b : OrderBook) : OrderBook :=
  mkOrderBook (maxP b) (incr b) (nextOrderId b) (orderLevels b) (firstBidIdx b)
    (lastBidIdx b) (firstOfferIdx b) v (activeOrderMap b) (doneOrderMap b)
    (nodes b) (nextNode b).

Definition set_activeOrderMap (v : gmap Z positive) (b : OrderBook) : OrderBook :=
  mkOrderBook (maxP b) (incr b) (nextOrderId b) (orderLevels b) (firstBidIdx b)
    (lastBidIdx b) (firstOfferIdx b) (lastOfferIdx b) v (doneOrderMap b)
    (nodes b) (nextNode b).

Definition set_doneOrderMap (v : gmap Z OrderState) (b : OrderBook) : OrderBook :=
  mkOrderBook (maxP b) (incr b) (nextOrderId b) (orderLevels b) (firstBidIdx b)
    (lastBidIdx b) (firstOfferIdx b) (lastOfferIdx b) (activeOrderMap b) v
    (nodes b) (nextNode b).

Definition set_nodes (v : gmap positive LimitOrder) (b : OrderBook) : OrderBook :=
  mkOrderBook (maxP b) (incr b) (nextOrderId b) (orderLevels b) (firstBidIdx b)
    (lastBidIdx b) (firstOfferIdx b) (lastOfferIdx b) (activeOrderMap b)
    (doneOrderMap b) v (nextNode b).

Definition set_nextNode (v : positive) (b : OrderBook) : OrderBook :=
  mkOrderBook (maxP b) (incr b) (nextOrderId b) (orderLevels b) (firstBidIdx b)
    (lastBidIdx b) (firstOfferIdx b) (lastOfferIdx b) (activeOrderMap b)
    (doneOrderMap b) (nodes b) v.

Definition set_orders (v : list positive) (l : OrderLevel) : OrderLevel :=
  mkOrderLevel v (totalSize l) (nextIdx l) (prevIdx l).
Definition set_totalSize (v : Z) (l : OrderLevel) : OrderLevel :=
  mkOrderLevel (orders l) v (nextIdx l) (prevIdx l).
Definition set_nextIdx (v : Z) (l : OrderLevel) : OrderLevel :=
  mkOrderLevel (orders l) (totalSize l) v (prevIdx l).
Definition set_prevIdx (v : Z) (l : OrderLevel) : OrderLevel :=
  mkOrderLevel (orders l) (totalSize l) (nextIdx l) v.

(** *** Member functions run in a state and error monad over the book *)

Definition M (A : Type) : Type := OrderBook → outcome (A * OrderBook).

#[export] Instance M_ret : MRet M := λ A a b, Ok (a, b).

#[export] Instance M_bind : MBind M := λ A B f m b,
  match m b with
  | Ok (a, b') => f a b'
  | Throw e => Throw e
  | Aborted => Aborted
  | Undefined => Undefined
  | OutOfFuel => OutOfFuel
  end.

Definition gets {A : Type} (f : OrderBook → A) : M A := λ b, Ok (f b, b).
Definition modify (f : OrderBook → OrderBook) : M unit := λ b, Ok (tt, f b).
Definition undefined {A : Type} : M A := λ _, Undefined.
Definition out_of_fuel {A : Type} : M A := λ _, OutOfFuel.

(** [if (c) { m }] without an [else]. *)
Definition when (c : bool) (m : M unit) : M unit := if c then m else mret tt.

(** [int] arithmetic: a result outside the 32-bit range is undefined. *)
Definition int_chk (z : Z) : M Z := if in_int z then mret z else undefined.
Definition int_add (x y : Z) : M Z := int_chk (x + y).
Definition int_sub (x y : Z) : M Z := int_chk (x - y).
Definition int_mul (x y : Z) : M Z := int_chk (x * y).
Definition int_div (x y : Z) : M Z :=
  if y =? 0 then undefined else int_chk (Z.quot x y).
Definition int_rem (x y : Z) : M Z :=
  if y =? 0 then undefined
  else if (x =? INT_MIN) && (y =? -1) then undefined
  else mret (Z.rem x y).

(** [orderLevels[i]]: indexing outside the vector is undefined. *)
Definition level_at (i : Z) : M OrderLevel := λ b,
  if 0 <=? i then
    match orderLevels b !! Z.to_nat i with
    | Some l => Ok (l, b)
    | None => Undefined
    end
  else Undefined.

Definition modify_level (i : Z) (f : OrderLevel → OrderLevel) : M unit :=
  l ← level_at i;
  modify (λ b, set_orderLevels (<[Z.to_nat i := f l]> (orderLevels b)) b).

(** [*it] and [it->field = ...]: the node must be live. *)
Definition deref (it : positive) : M LimitOrder := λ b,
  match nodes b !! it with
  | Some o => Ok (o, b)
  | None => Undefined
  end.

Definition store (it : positive) (o : LimitOrder) : M unit :=
  _ ← deref it;
  modify (λ b, set_nodes (<[it := o]> (nodes b)) b).

(** [orders.insert(orders.end(), o)] on level [i]: a fresh node at the back. *)
Definition list_push_back (i : Z) (o : LimitOrder) : M positive :=
  it ← gets nextNode;
  modify (λ b, set_nextNode (Pos.succ it) (set_nodes (<[it := o]> (nodes b)) b));;
  modify_level i (λ l, set_orders (orders l ++ [it]) l);;
  mret it.

(** [orders.erase(it)] on level [i]: [it] must be a node of that list. *)
Definition list_erase (i : Z) (it : positive) : M unit :=
  l ← level_at i;
  if bool_decide (it ∈ orders l) then
    modify_level i (λ l, set_orders (filter (λ x, x ≠ it) (orders l)) l);;
    modify (λ b, set_nodes (delete it (nodes b)) b)
  else undefined.

(** [doneOrderMap.try_emplace(k, s)]: no effect when [k] is present. *)
Definition done_try_emplace (k : Z) (s : OrderState) : M unit :=
  modify (λ b, match doneOrderMap b !! k with
               | Some _ => b
               | None => set_doneOrderMap (<[k := s]> (doneOrderMap b)) b
               end).

(** [activeOrderMap.at(k)] throws [std::out_of_range] on a missing key. *)
Definition active_at (k : Z) : M positive := λ b,
  match activeOrderMap b !! k with
  | Some it => Ok (it, b)
  | None => Throw out_of_range
  end.

Definition active_erase (k : Z) : M unit :=
  modify (λ b, set_activeOrderMap (delete k (activeOrderMap b)) b).

Definition active_insert_or_assign (k : Z) (it : positive) : M unit :=
  modify (λ b, set_activeOrderMap (<[k := it]> (activeOrderMap b)) b).

(** [return {.., nextOrderId++}] *)
Definition take_nextOrderId : M Z :=
  id ← gets nextOrderId;
  id' ← int_add id 1;
  modify (set_nextOrderId id');;
  mret id.

(** *** The constructor *)

Definition OrderBook_new (maxPrice increment : Z) : outcome OrderBook :=
  if increment =? 0 then Undefined
  else if (maxPrice =? INT_MIN) && (increment =? -1) then Undefined
  else if negb (Z.rem maxPrice increment =? 0) then Throw thrown_message
  else
    let n := Z.quot maxPrice increment + 1 in
    if negb (in_int n) then Undefined
    else if n <? 0 then Throw length_error
    else Ok (mkOrderBook maxPrice increment 1 (replicate (Z.to_nat n) emptyLevel)
               (-1) (-1) (-1) (-1) ∅ ∅ ∅ 1%positive).

(** *** Inline helpers of the header *)

Definition getIsBid (currIdx : Z) : M bool :=
  l ← gets lastBidIdx;
  mret (currIdx <=? l).

Definition getIsOrderValid (price orderSize : Z) : M bool :=
  if negb (0 <=? price) then mret false else
  mx ← gets maxP;
  if negb (price <=? mx) then mret false else
  inc ← gets incr;
  r ← int_rem price inc;
  if negb (r =? 0) then mret false else
  mret (0 <? orderSize).

(** *** Private members *)

(** The [while] loop of [fillOrdersAtCurrIdx]. The list is not restructured
    inside the loop, so the iterator [currOrderIt] is the suffix of the level's
    node list that starts at it ([[]] for [end()]). *)
Fixpoint fill_loop (fuel : nat) (currIdx : Z) (currOrderIt : list positive)
    (orderSize : Z) : M (list positive * Z) :=
  match fuel with
  | O => out_of_fuel
  | S fuel' =>
    match currOrderIt with
    | [] => mret ([], orderSize)
    | it :: rest =>
      if negb (0 <? orderSize) then mret (currOrderIt, orderSize) else
      o ← deref it;
      let qtyFilled := Z.min orderSize (remainingSize o) in
      orderSize ← int_sub orderSize qtyFilled;
      remaining ← int_sub (remainingSize o) qtyFilled;
      v ← int_mul qtyFilled currIdx;
      inc ← gets incr;
      v ← int_mul v inc;
      filled ← int_add (filledValue o) v;
      store it (mkLimitOrder (price o) (originalSize o) remaining filled);;
      l ← level_at currIdx;
      total ← int_sub (totalSize l) qtyFilled;
      modify_level currIdx (set_totalSize total);;
      if remaining =? 0 then
        (* the keys are [currIdx], as in the source *)
        active_erase currIdx;;
        done_try_emplace currIdx
          (mkOrderState (originalSize o)
             (of_int filled / of_int (originalSize o))%float);;
        fill_loop fuel' currIdx rest orderSize
      else fill_loop fuel' currIdx currOrderIt orderSize
    end
  end.

Definition fillOrdersAtCurrIdx (fuel : nat) (currIdx orderSize : Z) : M (Z * Z) :=
  l ← level_at currIdx;
  '(currOrderIt, orderSize) ← fill_loop fuel currIdx (orders l) orderSize;
  (* orders.erase(orders.begin(), currOrderIt) *)
  let erased := take (length (orders l) - length currOrderIt)%nat (orders l) in
  modify (λ b, set_nodes (foldr delete (nodes b) erased) b);;
  modify_level currIdx (set_orders currOrderIt);;
  l ← level_at currIdx;
  if totalSize l =? 0 then mret (prevIdx l, orderSize)
  else mret (currIdx, orderSize).

(** The walk of the "in the middle" case: [while (curr > newIdx)] for bids,
    [while (curr < newIdx)] for offers. *)
Fixpoint walk_to_slot (fuel : nat) (isBid : bool) (newIdx curr : Z) : M Z :=
  match fuel with
  | O => out_of_fuel
  | S fuel' =>
    if (if isBid then newIdx <? curr else curr <? newIdx) then
      l ← level_at curr;
      walk_to_slot fuel' isBid newIdx (prevIdx l)
    else mret curr
  end.

Definition addNewOrderLevel (fuel : nat) (newIdx : Z) (isBid : bool) : M unit :=
  if isBid then
    lastBid ← gets lastBidIdx;
    firstBid ← gets firstBidIdx;
    if lastBid <? 0 then
      modify (set_lastBidIdx newIdx);;
      modify (set_firstBidIdx newIdx)
    else if lastBid <? newIdx then
      modify_level newIdx (set_prevIdx lastBid);;
      modify_level lastBid (set_nextIdx newIdx);;
      modify (set_lastBidIdx newIdx)
    else if newIdx <? firstBid then
      modify_level newIdx (set_nextIdx firstBid);;
      modify_level firstBid (set_prevIdx newIdx);;
      modify (set_firstBidIdx newIdx)
    else
      currBidIdx ← walk_to_slot fuel true newIdx lastBid;
      l ← level_at currBidIdx;
      let nextBidIdx := nextIdx l in
      modify_level newIdx (set_nextIdx nextBidIdx);;
      modify_level newIdx (set_prevIdx currBidIdx);;
      modify_level currBidIdx (set_nextIdx newIdx);;
      modify_level nextBidIdx (set_prevIdx newIdx)
  else
    lastOffer ← gets lastOfferIdx;
    firstOffer ← gets firstOfferIdx;
    if lastOffer <? 0 then
      modify (set_lastOfferIdx newIdx);;
      modify (set_firstOfferIdx newIdx)
    else if newIdx <? lastOffer then
      modify_level newIdx (set_prevIdx lastOffer);;
      modify_level lastOffer (set_nextIdx newIdx);;
      modify (set_lastOfferIdx newIdx)
    else if firstOffer <? newIdx then
      modify_level newIdx (set_nextIdx firstOffer);;
      modify_level firstOffer (set_prevIdx newIdx);;
      modify (set_firstOfferIdx newIdx)
    else
      currOfferIdx ← walk_to_slot fuel false newIdx lastOffer;
      l ← level_at currOfferIdx;
      let nextOfferIdx := nextIdx l in
      modify_level newIdx (set_nextIdx nextOfferIdx);;
      modify_level newIdx (set_prevIdx currOfferIdx);;
      modify_level currOfferIdx (set_nextIdx newIdx);;
      modify_level nextOfferIdx (set_prevIdx newIdx).

Definition removeOrderLevel (currIdx : Z) : M unit :=
  isBid ← getIsBid currIdx;
  l ← level_at currIdx;
  let next := nextIdx l in
  let prev := prevIdx l in
  when (0 <=? next) (modify_level next (set_prevIdx prev));;
  when (0 <=? prev) (modify_level prev (set_nextIdx next));;
  if isBid : bool then
    when (next <? 0) (modify (set_lastBidIdx prev));;
    when (prev <? 0) (modify (set_firstBidIdx next))
  else
    when (next <? 0) (modify (set_lastOfferIdx prev));;
    (* the source assigns [firstBidIdx] here *)
    when (prev <? 0) (modify (set_firstBidIdx next)).

(** *** Public members *)

(** The matching loop of [addOrder], over offers for a bid ([curr <= newIdx])
    and over bids for an offer ([curr >= newIdx]); it returns the final
    [(currIdx, orderSize, filledValue)]. *)
Fixpoint match_loop (fuel : nat) (isBid : bool) (newIdx currIdx orderSize
    filledValue : Z) : M (Z * Z * Z) :=
  match fuel with
  | O => out_of_fuel
  | S fuel' =>
    if (0 <=? currIdx)
       && (if isBid then currIdx <=? newIdx else newIdx <=? currIdx)
       && (0 <? orderSize) then
      '(newCurrIdx, newOrderSize) ← fillOrdersAtCurrIdx fuel' currIdx orderSize;
      d ← int_sub orderSize newOrderSize;
      v ← int_mul d currIdx;
      inc ← gets incr;
      v ← int_mul v inc;
      filledValue ← int_add filledValue v;
      match_loop fuel' isBid newIdx newCurrIdx newOrderSize filledValue
    else mret (currIdx, orderSize, filledValue)
  end.

Definition addOrder (fuel : nat) (price orderSize : Z) (isBid : bool)
    : M (bool * Z) :=
  valid ← getIsOrderValid price orderSize;
  if negb valid then mret (false, -1) else
  let originalSize := orderSize in
  inc ← gets incr;
  newIdx ← int_div price inc;
  '(orderSize, filledValue) ←
    (if isBid then
       currOfferIdx ← gets lastOfferIdx;
       '(currOfferIdx, orderSize, filledValue) ←
         match_loop fuel true newIdx currOfferIdx orderSize 0;
       modify (set_lastOfferIdx currOfferIdx);;
       when (currOfferIdx <? 0) (modify (set_firstOfferIdx currOfferIdx));;
       mret (orderSize, filledValue)
     else
       currBidIdx ← gets lastBidIdx;
       '(currBidIdx, orderSize, filledValue) ←
         match_loop fuel false newIdx currBidIdx orderSize 0;
       modify (set_lastBidIdx currBidIdx);;
       when (currBidIdx <? 0) (modify (set_firstBidIdx currBidIdx));;
       mret (orderSize, filledValue));
  if orderSize =? 0 then
    id ← gets nextOrderId;
    done_try_emplace id
      (mkOrderState originalSize (of_int filledValue / of_int originalSize)%float);;
    id ← take_nextOrderId;
    mret (true, id)
  else
    l ← level_at newIdx;
    when (totalSize l =? 0) (addNewOrderLevel fuel newIdx isBid);;
    it ← list_push_back newIdx
           (mkLimitOrder price originalSize orderSize filledValue);
    l ← level_at newIdx;
    total ← int_add (totalSize l) orderSize;
    modify_level newIdx (set_totalSize total);;
    id ← gets nextOrderId;
    active_insert_or_assign id it;;
    id ← take_nextOrderId;
    mret (true, id).

Definition getOrderStatus (orderId : Z) : M (bool * OrderState) :=
  active ← gets activeOrderMap;
  match active !! orderId with
  | Some orderIt =>
    o ← deref orderIt;
    filledSize ← int_sub (originalSize o) (remainingSize o);
    let averagePrice := (of_int (filledValue o) / of_int filledSize)%float in
    mret (true, mkOrderState filledSize averagePrice)
  | None =>
    done ← gets doneOrderMap;
    match done !! orderId with
    | Some s => mret (false, s)
    | None => mret (false, unknownState)
    end
  end.

Definition cancelOrder (orderId : Z) : M (bool * OrderState) :=
  '(active, os) ← getOrderStatus orderId;
  if negb active then mret (false, os) else
  orderIt ← active_at orderId;
  o ← deref orderIt;
  inc ← gets incr;
  currIdx ← int_div (price o) inc;
  l ← level_at currIdx;
  total ← int_sub (totalSize l) (remainingSize o);
  modify_level currIdx (set_totalSize total);;
  list_erase currIdx orderIt;;
  active_erase orderId;;
  l ← level_at currIdx;
  when (totalSize l =? 0) (removeOrderLevel currIdx);;
  mret (true, os).

Definition updateOrder (fuel : nat) (orderId newPrice newSize : Z)
    : M (bool * OrderState) :=
  '(active, os) ← getOrderStatus orderId;
  if negb active then mret (false, os) else
  valid ← getIsOrderValid newPrice newSize;
  if negb valid || (newSize <=? filledSize os) then mret (false, os) else
  orderIt ← active_at orderId;
  o ← deref orderIt;
  let oldPrice := price o in
  if oldPrice =? newPrice then
    remaining ← int_sub newSize (filledSize os);
    store orderIt
      (mkLimitOrder (price o) newSize remaining (filledValue o));;
    mret (true, os)
  else
    inc ← gets incr;
    currIdx ← int_div (price o) inc;
    let price := newPrice in
    orderSize ← int_sub newSize (filledSize os);
    isBid ← getIsBid currIdx;
    _ ← cancelOrder orderId;
    '(_, newOrderId) ← addOrder fuel price orderSize isBid;
    it ← active_at newOrderId;
    active_insert_or_assign orderId it;;
    active_erase newOrderId;;
    mret (true, os).

Definition getL1OrderData : M (PriceLevel * PriceLevel) :=
  lastBid ← gets lastBidIdx;
  bestBid ← (if 0 <=? lastBid then
               inc ← gets incr;
               p ← int_mul lastBid inc;
               l ← level_at lastBid;
               mret (mkPriceLevel p (totalSize l))
             else mret noPriceLevel);
  lastOffer ← gets lastOfferIdx;
  bestOffer ← (if 0 <=? lastOffer then
                 inc ← gets incr;
                 p ← int_mul lastOffer inc;
                 l ← level_at lastOffer;
                 mret (mkPriceLevel p (totalSize l))
               else mret noPriceLevel);
  mret (bestBid, bestOffer).

(** One side's loop of [getL2OrderData]: push the level, follow [prevIdx]. *)
Fixpoint l2_walk (fuel : nat) (currIdx : Z) (acc : list PriceLevel)
    : M (list PriceLevel) :=
  match fuel with
  | O => out_of_fuel
  | S fuel' =>
    if 0 <=? currIdx then
      inc ← gets incr;
      p ← int_mul currIdx inc;
      l ← level_at currIdx;
      l2_walk fuel' (prevIdx l) (acc ++ [mkPriceLevel p (totalSize l)])
    else mret acc
  end.

Definition getL2OrderData (fuel : nat) : M (list PriceLevel * list PriceLevel) :=
  lastBid ← gets lastBidIdx;
  bids ← l2_walk fuel lastBid [];
  lastOffer ← gets lastOfferIdx;
  offers ← l2_walk fuel lastOffer [];
  mret (bids, offers).

(** *** Running calls *)

(** The book after a call, when the call returned. *)
Definition after {A : Type} (m : M A) (b : OrderBook) : option OrderBook :=
  match m b with
  | Ok (_, b') => Some b'
  | _ => None
  end.

(** The value a call returns, when it returns. *)
Definition result {A : Type} (m : M A) (b : OrderBook) : outcome A :=
  match m b with
  | Ok (a, _) => Ok a
  | Throw e => Throw e
  | Aborted => Aborted
  | Undefined => Undefined
  | OutOfFuel => OutOfFuel
  end.

(** *** Books and call sequences of the worked examples *)

(** [OrderBook(10, 1)]: prices 0..10, nothing resting. *)
Definition book_10 : OrderBook :=
  mkOrderBook 10 1 1 (replicate 11 emptyLevel) (-1) (-1) (-1) (-1) ∅ ∅ ∅ 1%positive.

(** [OrderBook(1000, 1)] of the specification's scenarios. *)
Definition book_1000 : OrderBook :=
  mkOrderBook 1000 1 1 (replicate 1001 emptyLevel) (-1) (-1) (-1) (-1) ∅ ∅ ∅
    1%positive.

(** A loop bound that none of the examples reaches. *)
Definition ample : nat := 64.

Definition endpoints (b : OrderBook) : Z * Z * Z * Z :=
  (firstBidIdx b, lastBidIdx b, firstOfferIdx b, lastOfferIdx b).

(** An offer of 1 at price 2 (order 1), a bid of 1 at price 1 (order 2), then
    a bid of 1 at price 2 (order 3) that fills order 1 completely. *)
Definition fill_of_order_1 : M (bool * Z) :=
  addOrder ample 2 1 false;; addOrder ample 1 1 true;; addOrder ample 2 1 true.

(** Offers of 1 at prices 5 (order 1) and 7 (order 2). *)
Definition two_offers : M (bool * Z) :=
  addOrder ample 5 1 false;; addOrder ample 7 1 false.

(** An offer of 10 at price 5 (order 1) and a bid of 4 at price 3 (order 2). *)
Definition offer_and_bid : M (bool * Z) :=
  addOrder ample 5 10 false;; addOrder ample 3 4 true.

(** The book holding one offer of 1 at price 5 (order 1). *)
Definition book_one_offer : OrderBook :=
  mkOrderBook 10 1 2
    (<[5%nat := mkOrderLevel [1%positive] 1 (-1) (-1)]> (replicate 11 emptyLevel))
    (-1) (-1) 5 5 {[1 := 1%positive]} ∅
    {[1%positive := mkLimitOrder 5 1 1 0]} 2%positive.

(** Scenario 5 of the specification: an offer of 10 at 100 (order 1), then a
    bid of 4 at 100 (order 2) that trades against it. *)
Definition scenario_5 : M (bool * Z) :=
  addOrder ample 100 10 false;; addOrder ample 100 4 true.

(** The parameter check of [getIsOrderValid] as a formula. *)
Definition valid_order (b : OrderBook) (price orderSize : Z) : bool :=
  (0 <=? price) && (price <=? maxP b) && (Z.rem price (incr b) =? 0)
  && (0 <? orderSize).

(** The book after [scenario_5]: order 1 rests with 6 of 10 left, order 2 is
    done. *)
Definition book_scenario_5 : OrderBook :=
  mkOrderBook 1000 1 3
    (<[100%nat := mkOrderLevel [1%positive] 6 (-1) (-1)]> (replicate 1001 emptyLevel))
    (-1) (-1) 100 100 {[1 := 1%positive]} {[2 := mkOrderState 4 100%float]}
    {[1%positive := mkLimitOrder 100 10 6 400]} 2%positive.

(** Bids of 1 at prices 3, 5 and 7 (orders 1, 2, 3), then the bids at 5 and 7
    cancelled: one bid rests, at price 3. *)
Definition one_bid_left : M (bool * OrderState) :=
  addOrder ample 3 1 true;; addOrder ample 5 1 true;; addOrder ample 7 1 true;;
  cancelOrder 2;; cancelOrder 3.

(** Both order maps agree outside key [k]. *)
Definition maps_agree_off (k : Z) (b b' : OrderBook) : Prop :=
  ∀ k', k' ≠ k →
    activeOrderMap b' !! k' = activeOrderMap b !! k'
    ∧ doneOrderMap b' !! k' = doneOrderMap b !! k'.

(** A computation that, when it returns, has changed the order maps at most
    at key [k]. *)
Definition touches_only {A : Type} (k : Z) (m : M A) : Prop :=
  ∀ b a b', m b = Ok (a, b') → maps_agree_off k b b'.

(** The book of [fill_of_order_1] before its third call: offer 1 rests at
    level 2, bid 2 at level 1. *)
Definition book_before_fill : OrderBook :=
  mkOrderBook 10 1 3
    (<[2%nat := mkOrderLevel [1%positive] 1 (-1) (-1)]>
       (<[1%nat := mkOrderLevel [2%positive] 1 (-1) (-1)]>
          (replicate 11 emptyLevel)))
    1 1 2 2 {[1 := 1%positive; 2 := 2%positive]} ∅
    {[1%positive := mkLimitOrder 2 1 1 0; 2%positive := mkLimitOrder 1 1 1 0]}
    3%positive.

(** *** Sequences of calls, and what calls keep and leave *)

(** The calls that change a book. *)
Inductive api_call : Type :=
| AddOrder (fuel : nat) (price orderSize : Z) (isBid : bool)
| CancelOrder (orderId : Z)
| UpdateOrder (fuel : nat) (orderId newPrice newSize : Z).

(** One call, its return value dropped. *)
Definition perform (c : api_call) : M unit :=
  match c with
  | AddOrder fuel price orderSize isBid =>
    addOrder fuel price orderSize isBid;; mret tt
  | CancelOrder orderId => cancelOrder orderId;; mret tt
  | UpdateOrder fuel orderId newPrice newSize =>
    updateOrder fuel orderId newPrice newSize;; mret tt
  end.

(** The calls of [cs] one after the other, each having returned. *)
Fixpoint perform_all (cs : list api_call) : M unit :=
  match cs with
  | [] => mret tt
  | c :: cs' => perform c;; perform_all cs'
  end.

(** A computation that, when it returns, has taken the book to one related to
    it by [R]. *)
Definition keeps {A : Type} (R : OrderBook → OrderBook → Prop) (m : M A) : Prop :=
  ∀ b a b', m b = Ok (a, b') → R b b'.

(** What no call gives up: the configuration, the size of the level vector,
    the order ids handed out, and the done entries. *)
Definition book_le (b b' : OrderBook) : Prop :=
  maxP b' = maxP b ∧ incr b' = incr b
  ∧ length (orderLevels b') = length (orderLevels b)
  ∧ nextOrderId b <= nextOrderId b'
  ∧ ∀ k s, doneOrderMap b !! k = Some s → doneOrderMap b' !! k = Some s.

(** The next order id is as it was. *)
Definition same_nextOrderId (b b' : OrderBook) : Prop :=
  nextOrderId b' = nextOrderId b.

(** An order id that was handed out and is not active stays so. *)
Definition stays_inactive (k : Z) (b b' : OrderBook) : Prop :=
  activeOrderMap b !! k = None ∧ k < nextOrderId b →
  activeOrderMap b' !! k = None ∧ k < nextOrderId b'.

(** The book after the matching of an order that finds nothing to trade
    against: the loop is not entered, the best index of the other side is
    written back, and the other side's first index follows it when it is
    negative. *)
Definition after_no_match (isBid : bool) (b : OrderBook) : OrderBook :=
  if isBid then
    if lastOfferIdx b <? 0 then set_firstOfferIdx (lastOfferIdx b) b else b
  else
    if lastBidIdx b <? 0 then set_firstBidIdx (lastBidIdx b) b else b.

(** The order does not reach the best price of the other side. *)
Definition no_cross (isBid : bool) (newIdx : Z) (b : OrderBook) : Prop :=
  if isBid then lastOfferIdx b < 0 ∨ newIdx < lastOfferIdx b
  else lastBidIdx b < 0 ∨ lastBidIdx b < newIdx.

(** The book after an order of [orderSize] at [price] has joined the queue of
    level [l], as [addOrder] leaves it. *)
Definition after_join (isBid : bool) (price orderSize : Z) (l : OrderLevel)
    (b : OrderBook) : OrderBook :=
  let b0 := after_no_match isBid b in
  mkOrderBook (maxP b) (incr b) (nextOrderId b + 1)
    (<[Z.to_nat (Z.quot price (incr b)) :=
         mkOrderLevel (orders l ++ [nextNode b]) (totalSize l + orderSize)
           (nextIdx l) (prevIdx l)]> (orderLevels b))
    (firstBidIdx b0) (lastBidIdx b) (firstOfferIdx b0) (lastOfferIdx b)
    (<[nextOrderId b := nextNode b]> (activeOrderMap b)) (doneOrderMap b)
    (<[nextNode b := mkLimitOrder price orderSize orderSize 0]> (nodes b))
    (Pos.succ (nextNode b)).

(** The book after the order at node [it] has left the queue of level [l]
    at index [i], the level staying in use. *)
Definition after_leave (orderId : Z) (it : positive) (o : LimitOrder) (i : Z)
    (l : OrderLevel) (b : OrderBook) : OrderBook :=
  mkOrderBook (maxP b) (incr b) (nextOrderId b)
    (<[Z.to_nat i :=
         mkOrderLevel (filter (λ x, x ≠ it) (orders l))
           (totalSize l - remainingSize o) (nextIdx l) (prevIdx l)]> (orderLevels b))
    (firstBidIdx b) (lastBidIdx b) (firstOfferIdx b) (lastOfferIdx b)
    (delete orderId (activeOrderMap b)) (doneOrderMap b)
    (delete it (nodes b)) (nextNode b).

(** The address that the next list node gets is not the address of a live
    node. *)
Definition fresh_node (b : OrderBook) (l : OrderLevel) : Prop :=
  nodes b !! nextNode b = None ∧ nextNode b ∉ orders l.

(** The members that [getL1OrderData] and [getL2OrderData] read. *)
Definition same_views (b b' : OrderBook) : Prop :=
  incr b' = incr b ∧ orderLevels b' = orderLevels b
  ∧ lastBidIdx b' = lastBidIdx b ∧ lastOfferIdx b' = lastOfferIdx b.

(** A computation that leaves the book as it is and whose outcome is the same
    in books with the same views. *)
Definition reads_views {A : Type} (m : M A) : Prop :=
  ∀ b b', same_views b b' →
    m b' = match m b with
           | Ok (a, _) => Ok (a, b')
           | Throw e => Throw e
           | Aborted => Aborted
           | Undefined => Undefined
           | OutOfFuel => OutOfFuel
           end.

(** Offers of 2 and of 3 at price 5 (orders 1 and 2) in [OrderBook(10, 1)]. *)
Definition book_two_in_queue : OrderBook :=
  mkOrderBook 10 1 3
    (<[5%nat := mkOrderLevel [1%positive; 2%positive] 5 (-1) (-1)]>
       (replicate 11 emptyLevel))
    (-1) (-1) 5 5 {[1 := 1%positive; 2 := 2%positive]} ∅
    {[1%positive := mkLimitOrder 5 2 2 0; 2%positive := mkLimitOrder 5 3 3 0]}
    3%positive.

(** The quantity that the levels count as resting: the sum of their
    [totalSize]. *)
Definition book_total (b : OrderBook) : Z :=
  foldr (λ l acc, totalSize l + acc) 0 (orderLevels b).

(** The levels count as much as before. *)
Definition same_total (b b' : OrderBook) : Prop := book_total b' = book_total b.

(** Offers of 2 and of 3 at price 5 (orders 1 and 2) and an offer of 1 at
    price 7 (order 3) in [OrderBook(10, 1)]. *)
Definition book_three_offers : OrderBook :=
  mkOrderBook 10 1 4
    (<[7%nat := mkOrderLevel [3%positive] 1 5 (-1)]>
       (<[5%nat := mkOrderLevel [1%positive; 2%positive] 5 (-1) 7]>
          (replicate 11 emptyLevel)))
    (-1) (-1) 7 5 {[1 := 1%positive; 2 := 2%positive; 3 := 3%positive]} ∅
    {[1%positive := mkLimitOrder 5 2 2 0; 2%positive := mkLimitOrder 5 3 3 0;
      3%positive := mkLimitOrder 7 1 1 0]}
    4%positive.

(** What the unlinking of a level leaves as it is: the quantity the levels
    count, the order nodes and both order maps. *)
Definition same_orders (b b' : OrderBook) : Prop :=
  book_total b' = book_total b ∧ nodes b' = nodes b
  ∧ activeOrderMap b' = activeOrderMap b ∧ doneOrderMap b' = doneOrderMap b.

End Book.

(** ** The task scheduler *)

Module Sched.

(** Instants and durations are counts of milliseconds. The representation of
    [std::chrono] time points is implementation-defined; instants are kept as
    unbounded integers. *)
Record Task : Type := mkTask {
  task_id : Z;
  start_time : Z;
  running_time : Z
}.

(** Lines written to [std::cout], without the wall-clock prefix. *)
Inductive message : Type :=
| ErrorNotRunning
| AddingSingle (id : Z)
| AddingRepeated (id : Z)
| ErrorExecuted (id : Z)
| ErrorNotFound (id : Z)
| Deleting (id : Z)
| UpdatingQueueState
| ShuttingDown
| RunningTask (id : Z)
| FinishedTask (id : Z)
| AddingBack (id : Z).

(** Where the worker thread is whenever it does not hold [q_mutex]. *)
Inductive loop_state : Type :=
| NotStarted                 (* [runEventLoop] has not locked the mutex yet *)
| Waiting (next_time : Z)    (* inside [q_cvar.wait_until(lck, next_time, _)] *)
| Executing (t : Task)       (* inside [t.run()], between unlock and lock *)
| Exited.                    (* [runEventLoop] has returned *)

Record TaskScheduler : Type := mkTaskScheduler {
  start : Z;
  next_task_id : Z;
  executed_tasks : gset Z;
  repeated_tasks : gmap Z Z;
  event_loop_running : bool;
  taskq : list Task;         (* the priority queue, earliest [start_time] first *)
  loop : loop_state;
  cout : list message
}.

Definition MIN_DURATION : Z := 20.
Definition MAX_DURATION : Z := 4000.

Definition set_next_task_id (v : Z) (s : TaskScheduler) : TaskScheduler :=
  mkTaskScheduler (start s) v (executed_tasks s) (repeated_tasks s)
    (event_loop_running s) (taskq s) (loop s) (cout s).
Definition set_executed_tasks (v : gset Z) (s : TaskScheduler) : TaskScheduler :=
  mkTaskScheduler (start s) (next_task_id s) v (repeated_tasks s)
    (event_loop_running s) (taskq s) (loop s) (cout s).
Definition set_repeated_tasks (v : gmap Z Z) (s : TaskScheduler) : TaskScheduler :=
  mkTaskScheduler (start s) (next_task_id s) (executed_tasks s) v
    (event_loop_running s) (taskq s) (loop s) (cout s).
Definition set_event_loop_running (v : bool) (s : TaskScheduler) : TaskScheduler :=
  mkTaskScheduler (start s) (next_task_id s) (executed_tasks s) (repeated_tasks s)
    v (taskq s) (loop s) (cout s).
Definition set_taskq (v : list Task) (s : TaskScheduler) : TaskScheduler :=
  mkTaskScheduler (start s) (next_task_id s) (executed_tasks s) (repeated_tasks s)
    (event_loop_running s) v (loop s) (cout s).
Definition set_loop (v : loop_state) (s : TaskScheduler) : TaskScheduler :=
  mkTaskScheduler (start s) (next_task_id s) (executed_tasks s) (repeated_tasks s)
    (event_loop_running s) (taskq s) v (cout s).
Definition log (m : message) (s : TaskScheduler) : TaskScheduler :=
  mkTaskScheduler (start s) (next_task_id s) (executed_tasks s) (repeated_tasks s)
    (event_loop_running s) (taskq s) (loop s) (cout s ++ [m]).

(** *** [std::priority_queue<Task>]

    [Task::operator<] makes the smallest [start_time] the top. The order among
    equal start times is implementation-defined; this queue keeps them in
    insertion order. *)
Fixpoint pq_push (t : Task) (q : list Task) : list Task :=
  match q with
  | [] => [t]
  | h :: q' =>
    if start_time t <? start_time h then t :: q else h :: pq_push t q'
  end.

Definition pq_top (q : list Task) : option Task := head q.
Definition pq_pop (q : list Task) : list Task := tail q.

(** The scheduler as the constructor leaves it. *)
Definition TaskScheduler_new (s : Z) : TaskScheduler :=
  mkTaskScheduler s 1 ∅ ∅ false [] NotStarted [].

(** *** Client calls, each one critical section under [q_mutex] *)

Definition get_event_loop_running (s : TaskScheduler) : bool * TaskScheduler :=
  if event_loop_running s then (true, s) else (false, log ErrorNotRunning s).

(** [return next_task_id++]: the increment overflows at [INT_MAX]. *)
Definition take_next_task_id (s : TaskScheduler) : outcome (Z * TaskScheduler) :=
  let id := next_task_id s in
  if in_int (id + 1) then Ok (id, set_next_task_id (id + 1) s) else Undefined.


Definition scheduleRepeated (start_time repeat_interval running_time : Z)
    (s : TaskScheduler) : outcome (Z * TaskScheduler) :=
  let '(running, s) := get_event_loop_running s in
  if negb running then Ok (-1, s) else
  let s := log (AddingRepeated (next_task_id s)) s in
  let s := set_taskq
             (pq_push (mkTask (next_task_id s) start_time running_time) (taskq s)) s in
  let s := set_repeated_tasks
             (<[next_task_id s := repeat_interval]> (repeated_tasks s)) s in
  take_next_task_id s.

(** The first loop of [deleteScheduled]: move tops into [tasks] until the queue
    is empty or its top has [task_id]. *)
Fixpoint pop_until (task_id0 : Z) (q tasks : list Task) : list Task * list Task :=
  match q with
  | [] => (tasks, [])
  | t :: q' =>
    if task_id t =? task_id0 then (tasks, q)
    else pop_until task_id0 q' (tasks ++ [t])
  end.

Definition deleteScheduled (task_id0 : Z) (s : TaskScheduler)
    : bool * TaskScheduler :=
  let '(running, s) := get_event_loop_running s in
  if negb running then (false, s) else
  let '(ok, s) :=
    match repeated_tasks s !! task_id0 with
    | Some _ => (true, set_repeated_tasks (delete task_id0 (repeated_tasks s)) s)
    | None => (false, s)
    end in
  if negb ok && bool_decide (task_id0 ∈ executed_tasks s) then
    (false, log (ErrorExecuted task_id0) s)
  else
    let '(tasks, q) := pop_until task_id0 (taskq s) [] in
    let '(ok, q) :=
      match pq_top q with
      | Some t => if task_id t =? task_id0 then (true, pq_pop q) else (ok, q)
      | None => (ok, q)
      end in
    let q := fold_left (λ q t, pq_push t q) tasks q in
    let s := set_taskq q s in
    if negb ok then (false, log (ErrorNotFound task_id0) s)
    else (true, log (Deleting task_id0) s).

(** *** The worker thread: [runEventLoop] between two releases of the mutex *)

Definition last_time (s : TaskScheduler) : Z := start s + MAX_DURATION.

(** The predicate [new_earliest] with [next_time] captured. *)
Definition new_earliest (next_time : Z) (s : TaskScheduler) : bool :=
  match pq_top (taskq s) with
  | Some t => start_time t <? next_time
  | None => false
  end.

(** Top of the [while]: print, compute [next_time], start waiting. *)
Definition update_queue_state (s : TaskScheduler) : TaskScheduler :=
  let s := log UpdatingQueueState s in
  let next_time :=
    match pq_top (taskq s) with
    | None => last_time s
    | Some t => Z.min (last_time s) (start_time t)
    end in
  set_loop (Waiting next_time) s.

(** The thread starts: lock, [event_loop_running = true], first iteration. *)
Definition enter_loop (s : TaskScheduler) : TaskScheduler :=
  update_queue_state (set_event_loop_running true s).

(** [wait_until] returns the value of [new_earliest], so [timeout] is its
    negation; [now] is the clock read in the body. *)
Definition wake (now next_time : Z) (s : TaskScheduler) : TaskScheduler :=
  let timeout := negb (new_earliest next_time s) in
  if timeout && (next_time =? last_time s) then
    set_loop Exited (set_event_loop_running false (log ShuttingDown s))
  else
    match pq_top (taskq s) with
    | None => update_queue_state s
    | Some t =>
      if timeout || (start_time t <? now + MIN_DURATION) then
        let s := set_taskq (pq_pop (taskq s)) s in
        let s := set_executed_tasks ({[task_id t]} ∪ executed_tasks s) s in
        set_loop (Executing t) (log (RunningTask (task_id t)) s)
      else update_queue_state s
    end.

(** After [t.run()]: lock again, re-enqueue if [t] still repeats, loop. *)
Definition finish_task (t : Task) (s : TaskScheduler) : TaskScheduler :=
  let s := log (FinishedTask (task_id t)) s in
  let s :=
    match repeated_tasks s !! task_id t with
    | Some interval =>
      set_taskq
        (pq_push (mkTask (task_id t) (start_time t + interval) (running_time t))
           (taskq s))
        (log (AddingBack (task_id t)) s)
    | None => s
    end in
  update_queue_state s.



(** Pending occurrences of a task. *)
Definition pending (id : Z) (q : list Task) : list Task :=
  filter (λ t, task_id t = id) q.

(** Every id in the repeated mapping was handed out by the scheduler. *)
Definition repeated_below_next (s : TaskScheduler) : Prop :=
  ∀ id interval, repeated_tasks s !! id = Some interval → id < next_task_id s.

(** *** The states of a worked example

    A scheduler started at instant 0; task 1 repeats every 500 from 450; the
    loop wakes at 450 and starts running it; the client cancels task 1 while it
    runs; the run ends. *)
Definition sched_new : TaskScheduler := TaskScheduler_new 0.
Definition sched_waiting : TaskScheduler := enter_loop sched_new.
Definition sched_repeating : TaskScheduler :=
  match scheduleRepeated 450 500 10 sched_waiting with
  | Ok (_, s) => s
  | _ => sched_waiting
  end.
Definition sched_executing : TaskScheduler := wake 450 4000 sched_repeating.
Definition sched_cancelled : TaskScheduler :=
  snd (deleteScheduled 1 sched_executing).
Definition sched_resumed : TaskScheduler :=
  finish_task (mkTask 1 450 10) sched_cancelled.

(** *** Invariants of the scheduler's runs *)

(** What holds of the members in every state a run reaches: ids in use were
    handed out, no id is pending twice, a task that is running is not pending,
    and an executed task that does not repeat is not pending. *)
Definition well_formed (s : TaskScheduler) : Prop :=
  (∀ t, t ∈ taskq s → task_id t < next_task_id s)
  ∧ (∀ id, (length (pending id (taskq s)) <= 1)%nat)
  ∧ (∀ id, id ∈ executed_tasks s → id < next_task_id s)
  ∧ repeated_below_next s
  ∧ (∀ t, loop s = Executing t →
          task_id t < next_task_id s ∧ task_id t ∈ executed_tasks s
          ∧ pending (task_id t) (taskq s) = [])
  ∧ (∀ id, id ∈ executed_tasks s → repeated_tasks s !! id = None →
           pending id (taskq s) = []).



End Sched.

(** ** The resource pool *)

Module Pool.

(** Pool objects, resources and [shared_ptr] control blocks live at addresses.
    A [weak_ptr] is the control block it observes, if any. *)
Definition weak_ptr : Type := option positive.

(** A pool object. [allocate] is [false] for an empty [std::function]; a call of
    a non-empty one builds a new resource, as [new RType()] and the allocators
    of the tests do. [weak_this] is the member of [enable_shared_from_this]. *)
Record ResourcePool : Type := mkResourcePool {
  allocate : bool;
  pool : list positive;        (* the queue of idle resources, front first *)
  weak_this : weak_ptr
}.

Record control_block : Type := mkControlBlock {
  use_count : nat;             (* owning [shared_ptr]s *)
  managed : positive           (* the pool object they own *)
}.

(** [RDeleter]'s only member, and the [unique_ptr] handed to clients. *)
Record RDeleter : Type := mkRDeleter { pool_ptr : weak_ptr }.
Record RPtr : Type := mkRPtr { r_ptr : positive; deleter : RDeleter }.

Inductive message : Type :=
| Recycling | DeletingResource | DestroyingPool | MoveConstructor | MoveAssignment.

Record world : Type := mkWorld {
  pools : gmap positive ResourcePool;     (* the pool objects alive *)
  blocks : gmap positive control_block;
  resources : gset positive;              (* the resources alive *)
  allocated : nat;                        (* resources built so far *)
  next_address : positive;
  cout : list message
}.

Definition set_pools (v : gmap positive ResourcePool) (w : world) : world :=
  mkWorld v (blocks w) (resources w) (allocated w) (next_address w) (cout w).
Definition set_blocks (v : gmap positive control_block) (w : world) : world :=
  mkWorld (pools w) v (resources w) (allocated w) (next_address w) (cout w).
Definition set_resources (v : gset positive) (w : world) : world :=
  mkWorld (pools w) (blocks w) v (allocated w) (next_address w) (cout w).
Definition log (m : message) (w : world) : world :=
  mkWorld (pools w) (blocks w) (resources w) (allocated w) (next_address w)
    (cout w ++ [m]).

Definition fresh (w : world) : positive * world :=
  (next_address w,
   mkWorld (pools w) (blocks w) (resources w) (allocated w)
     (Pos.succ (next_address w)) (cout w)).

Definition set_pool (q : list positive) (p : ResourcePool) : ResourcePool :=
  mkResourcePool (allocate p) q (weak_this p).

Definition empty_world : world := mkWorld ∅ ∅ ∅ 0 1%positive [].

(** *** [weak_ptr] *)

Definition expired (p_ptr : weak_ptr) (w : world) : bool :=
  match p_ptr with
  | None => true
  | Some c =>
    match blocks w !! c with
    | Some cb => Nat.eqb (use_count cb) 0
    | None => true
    end
  end.

(** [p_ptr.lock()]: the address of the owned pool, unless expired. *)
Definition lock (p_ptr : weak_ptr) (w : world) : option positive :=
  match p_ptr with
  | None => None
  | Some c =>
    match blocks w !! c with
    | Some cb => if Nat.eqb (use_count cb) 0 then None else Some (managed cb)
    | None => None
    end
  end.

(** *** Members of [ResourcePool], called on the pool object at [this] *)

Definition get_num_unused (this : positive) (w : world) : outcome nat :=
  match pools w !! this with
  | Some p => Ok (length (pool p))
  | None => Undefined
  end.

Definition recycle (this resource_ptr : positive) (w : world) : outcome world :=
  match pools w !! this with
  | Some p => Ok (set_pools (<[this := set_pool (pool p ++ [resource_ptr]) p]> (pools w)) w)
  | None => Undefined
  end.

Definition free_all_unused (this : positive) (w : world) : outcome world :=
  match pools w !! this with
  | Some p =>
    Ok (set_resources (resources w ∖ list_to_set (pool p))
          (set_pools (<[this := set_pool [] p]> (pools w)) w))
  | None => Undefined
  end.

(** [RDeleter(p_ptr, r_ptr)] with its assertion. *)
Definition RDeleter_new (p_ptr : weak_ptr) (w : world) : outcome RDeleter :=
  if expired p_ptr w then Aborted else Ok (mkRDeleter p_ptr).

(** [allocate()] *)
Definition call_allocate (p : ResourcePool) (w : world) : outcome (positive * world) :=
  if allocate p then
    let '(r, w) := fresh w in
    Ok (r, mkWorld (pools w) (blocks w) ({[r]} ∪ resources w) (S (allocated w))
             (next_address w) (cout w))
  else Throw bad_function_call.

Definition request (this : positive) (w : world) : outcome (RPtr * world) :=
  match pools w !! this with
  | None => Undefined
  | Some p =>
    let p_ptr := weak_this p in
    match pool p with
    | [] =>
      '(r_ptr, w) ← call_allocate p w;
      d ← RDeleter_new p_ptr w;
      mret (mkRPtr r_ptr d, w)
    | r_ptr :: rest =>
      let w := set_pools (<[this := set_pool rest p]> (pools w)) w in
      d ← RDeleter_new p_ptr w;
      mret (mkRPtr r_ptr d, w)
    end
  end.

(** [RDeleter::operator()], run when a client's [RPtr] goes out of scope. *)
Definition drop (h : RPtr) (w : world) : outcome world :=
  match lock (pool_ptr (deleter h)) w with
  | Some this => recycle this (r_ptr h) (log Recycling w)
  | None =>
    let w := log DeletingResource w in
    Ok (set_resources (resources w ∖ {[r_ptr h]}) w)
  end.

(** [~ResourcePool()] *)
Definition destroy (this : positive) (w : world) : outcome world :=
  w ← free_all_unused this (log DestroyingPool w);
  mret (set_pools (delete this (pools w)) w).

(** *** How clients create, move and give up pools *)

(** [std::make_shared<ResourcePool<R>>(...)]: the object and its control block
    with one owner; [enable_shared_from_this] records the block. *)
Definition make_shared (w : world) : positive * world :=
  let '(this, w) := fresh w in
  let '(c, w) := fresh w in
  (this,
   set_blocks (<[c := mkControlBlock 1 this]> (blocks w))
     (set_pools (<[this := mkResourcePool true [] (Some c)]> (pools w)) w)).

(** A pool object that no [shared_ptr] owns (a local or [new]-ed one). *)
Definition construct (w : world) : positive * world :=
  let '(this, w) := fresh w in
  (this, set_pools (<[this := mkResourcePool true [] None]> (pools w)) w).

(** [ResourcePool(ResourcePool&& other)] builds a new object that no
    [shared_ptr] owns: the base [enable_shared_from_this] is default-initialised.
    [other] keeps its [weak_this]; its moved-from [allocate] and [pool] are left
    empty, as the common standard libraries do. *)
Definition move_construct (other : positive) (w : world) : outcome (positive * world) :=
  match pools w !! other with
  | None => Undefined
  | Some o =>
    let '(this, w) := fresh w in
    let w := log MoveConstructor w in
    Ok (this,
        set_pools
          (<[this := mkResourcePool (allocate o) (pool o) None]>
             (<[other := mkResourcePool false [] (weak_this o)]> (pools w))) w)
  end.

(** The [shared_ptr] of control block [c] is reset or goes out of scope; the
    last owner destroys the pool. *)
Definition release_shared (c : positive) (w : world) : outcome world :=
  match blocks w !! c with
  | None => Undefined
  | Some cb =>
    match use_count cb with
    | O => Undefined
    | S O =>
      destroy (managed cb)
        (set_blocks (<[c := mkControlBlock 0 (managed cb)]> (blocks w)) w)
    | S n => Ok (set_blocks (<[c := mkControlBlock n (managed cb)]> (blocks w)) w)
    end
  end.

(** *** The worlds of the worked examples *)

(** One pool made by [std::make_shared]: the object at address 1, its control
    block at address 2. *)
Definition shared_pool_world : world := snd (make_shared empty_world).

(** One pool that no [shared_ptr] owns, at address 1. *)
Definition local_pool_world : world := snd (construct empty_world).

(** Two resources acquired from the shared pool and released in that order:
    both are idle. *)
Definition two_idle_world : outcome world :=
  '(h1, w) ← request 1%positive shared_pool_world;
  '(h2, w) ← request 1%positive w;
  w ← drop h1 w;
  drop h2 w.

(** A client holds a resource of the shared pool; the pool object is moved
    from by a move construction; the client releases. *)
Definition moved_from_world : outcome world :=
  '(h, w) ← request 1%positive shared_pool_world;
  '(_, w) ← move_construct 1%positive w;
  drop h w.

(** The first lines of the repository's test: a resource acquired from the
    shared pool and released, so that it is idle. *)
Definition one_idle_world : world :=
  mkWorld {[1%positive := mkResourcePool true [3%positive] (Some 2%positive)]}
    {[2%positive := mkControlBlock 1 1%positive]} {[3%positive]} 1 4%positive
    [Recycling].

End Pool.

(** * Properties *)

(** ** Order book *)

Module BookProps.
Import Book.

Lemma bind_run {A B : Type} (m : M A) (f : A → M B) (b : OrderBook) :
  (m ≫= f) b = match m b with
               | Ok (a, b') => f a b'
               | Throw e => Throw e
               | Aborted => Aborted
               | Undefined => Undefined
               | OutOfFuel => OutOfFuel
               end.
Proof. reflexivity. Qed.

(** The sample books are the books the calls build. *)
Example book_10_constructed : OrderBook_new 10 1 = Ok book_10.
Proof. reflexivity. Qed.

Example book_1000_constructed : OrderBook_new 1000 1 = Ok book_1000.
Proof. vm_compute. reflexivity. Qed.

Example book_one_offer_built :
  after (addOrder ample 5 1 false) book_10 = Some book_one_offer.
Proof. vm_compute. reflexivity. Qed.

Example book_scenario_5_built : after scenario_5 book_1000 = Some book_scenario_5.
Proof. vm_compute. reflexivity. Qed.

(** Scenario 5 of the specification, and the amendments of scenario 6. *)
Example scenario_5_l1 :
  result (scenario_5;; getL1OrderData) book_1000
  = Ok (mkPriceLevel (-1) (-1), mkPriceLevel 100 6).
Proof. vm_compute. reflexivity. Qed.

Example scenario_6_amend_same_price :
  (λ b, nodes b !! 1%positive) <$> after (updateOrder ample 1 100 8) book_scenario_5
  = Some (Some (mkLimitOrder 100 8 4 400)).
Proof. vm_compute. reflexivity. Qed.

(** *** [getIsOrderValid] *)

Lemma getIsOrderValid_run (b : OrderBook) (price orderSize : Z) :
  incr b ≠ 0 →
  getIsOrderValid price orderSize b = Ok (valid_order b price orderSize, b).
Proof.
  intros Hincr. unfold getIsOrderValid, valid_order.
  destruct (0 <=? price) eqn:H0; simpl; [|reflexivity].
  rewrite bind_run. unfold gets at 1.
  destruct (price <=? maxP b) eqn:H1; simpl; [|reflexivity].
  rewrite bind_run. unfold gets at 1. rewrite bind_run. unfold int_rem.
  rewrite (proj2 (Z.eqb_neq _ _) Hincr).
  replace (price =? INT_MIN) with false
    by (symmetry; apply Z.eqb_neq; unfold INT_MIN; lia).
  simpl. destruct (Z.rem price (incr b) =? 0); reflexivity.
Qed.

Lemma valid_order_false (b : OrderBook) (price orderSize : Z) :
  valid_order b price orderSize = false ↔
  price < 0 ∨ maxP b < price ∨ Z.rem price (incr b) ≠ 0 ∨ orderSize <= 0.
Proof.
  unfold valid_order. rewrite !andb_false_iff.
  rewrite !Z.leb_gt, Z.ltb_ge, Z.eqb_neq. tauto.
Qed.

(** *** [getOrderStatus] *)

Lemma getOrderStatus_active (b : OrderBook) (orderId : Z) (it : positive)
    (o : LimitOrder) :
  activeOrderMap b !! orderId = Some it →
  nodes b !! it = Some o →
  in_int (originalSize o - remainingSize o) = true →
  getOrderStatus orderId b =
    Ok ((true,
         mkOrderState (originalSize o - remainingSize o)
           (of_int (filledValue o) / of_int (originalSize o - remainingSize o))%float),
        b).
Proof.
  intros Ha Hn Hr. unfold getOrderStatus.
  rewrite bind_run. unfold gets at 1. rewrite Ha.
  rewrite bind_run. unfold deref. rewrite Hn.
  rewrite bind_run. unfold int_sub, int_chk. rewrite Hr. reflexivity.
Qed.

Lemma getOrderStatus_inactive (b : OrderBook) (orderId : Z) :
  activeOrderMap b !! orderId = None →
  getOrderStatus orderId b =
    Ok ((false, default unknownState (doneOrderMap b !! orderId)), b).
Proof.
  intros Ha. unfold getOrderStatus.
  rewrite bind_run. unfold gets at 1. rewrite Ha.
  rewrite bind_run. unfold gets.
  destruct (doneOrderMap b !! orderId); reflexivity.
Qed.

(** An iterator left in the active map after its node was erased: reading the
    order's status through it is undefined. *)
Lemma getOrderStatus_dangling (b : OrderBook) (orderId : Z) (it : positive) :
  activeOrderMap b !! orderId = Some it →
  nodes b !! it = None →
  getOrderStatus orderId b = Undefined.
Proof.
  intros Ha Hn. unfold getOrderStatus.
  rewrite bind_run. unfold gets at 1. rewrite Ha.
  rewrite bind_run. unfold deref. rewrite Hn. reflexivity.
Qed.

(** [getOrderStatus] reads the book and leaves it as it is. *)
Lemma getOrderStatus_pure (b b' : OrderBook) (orderId : Z) (r : bool * OrderState) :
  getOrderStatus orderId b = Ok (r, b') → b' = b.
Proof.
  unfold getOrderStatus. rewrite bind_run. unfold gets at 1.
  destruct (activeOrderMap b !! orderId) as [it|].
  - rewrite bind_run. unfold deref. destruct (nodes b !! it) as [o|]; [|discriminate].
    rewrite bind_run. unfold int_sub, int_chk.
    destruct (in_int _); [|discriminate]. intros [= _ <-]. reflexivity.
  - rewrite bind_run. unfold gets.
    destruct (doneOrderMap b !! orderId); intros [= _ <-]; reflexivity.
Qed.

(** *** Which map entries a fill can change *)

Section Frame.
Variable k : Z.

Lemma maps_agree_off_refl (b : OrderBook) : maps_agree_off k b b.
Proof. intros k' _. auto. Qed.

Lemma maps_agree_off_trans (b1 b2 b3 : OrderBook) :
  maps_agree_off k b1 b2 → maps_agree_off k b2 b3 → maps_agree_off k b1 b3.
Proof.
  intros H12 H23 k' Hk. destruct (H12 k' Hk) as [<- <-]. apply H23, Hk.
Qed.

Lemma touches_bind {A B : Type} (m : M A) (f : A → M B) :
  touches_only k m → (∀ a, touches_only k (f a)) → touches_only k (m ≫= f).
Proof.
  intros Hm Hf b r b' Hrun. unfold mbind, M_bind in Hrun.
  destruct (m b) as [[a b1]| | | |] eqn:E; try discriminate.
  eapply maps_agree_off_trans; [eapply Hm, E | eapply Hf, Hrun].
Qed.

Lemma touches_ret {A : Type} (a : A) : touches_only k (mret a).
Proof. intros b a' b' [= _ <-]. apply maps_agree_off_refl. Qed.

Lemma touches_gets {A : Type} (f : OrderBook → A) : touches_only k (gets f).
Proof. intros b a' b' [= _ <-]. apply maps_agree_off_refl. Qed.

Lemma touches_modify (f : OrderBook → OrderBook) :
  (∀ b, activeOrderMap (f b) = activeOrderMap b
        ∧ doneOrderMap (f b) = doneOrderMap b) →
  touches_only k (modify f).
Proof.
  intros Hf b a' b' H k' _. inversion H; subst. destruct (Hf b) as [-> ->]. auto.
Qed.

Lemma touches_int_chk (z : Z) : touches_only k (int_chk z).
Proof.
  unfold int_chk. destruct (in_int z); [apply touches_ret|].
  intros b a b'. discriminate.
Qed.

Lemma touches_deref (it : positive) : touches_only k (deref it).
Proof.
  intros b a b'. unfold deref. destruct (nodes b !! it); [|discriminate].
  intros [= _ <-]. apply maps_agree_off_refl.
Qed.

Lemma touches_level_at (i : Z) : touches_only k (level_at i).
Proof.
  intros b a b'. unfold level_at. destruct (0 <=? i); [|discriminate].
  destruct (orderLevels b !! Z.to_nat i); [|discriminate].
  intros [= _ <-]. apply maps_agree_off_refl.
Qed.

Lemma touches_modify_level (i : Z) (f : OrderLevel → OrderLevel) :
  touches_only k (modify_level i f).
Proof.
  apply touches_bind; [apply touches_level_at|].
  intros l. apply touches_modify. auto.
Qed.

Lemma touches_store (it : positive) (o : LimitOrder) : touches_only k (store it o).
Proof.
  apply touches_bind; [apply touches_deref|].
  intros _. apply touches_modify. auto.
Qed.

Lemma touches_active_erase : touches_only k (active_erase k).
Proof.
  intros b a b' H k' Hk. inversion H; subst. simpl.
  rewrite lookup_delete_ne by auto. auto.
Qed.

Lemma touches_done_try_emplace (s : OrderState) :
  touches_only k (done_try_emplace k s).
Proof.
  intros b a b' H k' Hk. inversion H; subst.
  destruct (doneOrderMap b !! k); simpl; [auto|].
  rewrite lookup_insert_ne by auto. auto.
Qed.

Lemma touches_fill_loop (fuel : nat) (currOrderIt : list positive) (orderSize : Z) :
  touches_only k (fill_loop fuel k currOrderIt orderSize).
Proof.
  revert currOrderIt orderSize.
  induction fuel as [|fuel IH]; intros currOrderIt orderSize; simpl.
  - intros b a b'. discriminate.
  - destruct currOrderIt as [|it rest]; [apply touches_ret|].
    destruct (0 <? orderSize); simpl; [|apply touches_ret].
    apply touches_bind; [apply touches_deref|]. intros o.
    apply touches_bind; [apply touches_int_chk|]. intros orderSize'.
    apply touches_bind; [apply touches_int_chk|]. intros remaining.
    apply touches_bind; [apply touches_int_chk|]. intros v.
    apply touches_bind; [apply touches_gets|]. intros inc.
    apply touches_bind; [apply touches_int_chk|]. intros v'.
    apply touches_bind; [apply touches_int_chk|]. intros filled.
    apply touches_bind; [apply touches_store|]. intros _.
    apply touches_bind; [apply touches_level_at|]. intros l.
    apply touches_bind; [apply touches_int_chk|]. intros total.
    apply touches_bind; [apply touches_modify_level|]. intros _.
    destruct (remaining =? 0); [|apply IH].
    apply touches_bind; [apply touches_active_erase|]. intros _.
    apply touches_bind; [apply touches_done_try_emplace|]. intros _.
    apply IH.
Qed.

Lemma touches_fillOrdersAtCurrIdx (fuel : nat) (orderSize : Z) :
  touches_only k (fillOrdersAtCurrIdx fuel k orderSize).
Proof.
  unfold fillOrdersAtCurrIdx.
  apply touches_bind; [apply touches_level_at|]. intros l.
  apply touches_bind; [apply touches_fill_loop|]. intros [currOrderIt sz].
  apply touches_bind; [apply touches_modify; auto|]. intros _.
  apply touches_bind; [apply touches_modify_level|]. intros _.
  apply touches_bind; [apply touches_level_at|]. intros l'.
  destruct (totalSize l' =? 0); apply touches_ret.
Qed.
End Frame.

Example book_before_fill_built :
  after (addOrder ample 2 1 false;; addOrder ample 1 1 true) book_10
  = Some book_before_fill.
Proof. vm_compute. reflexivity. Qed.

(** A fill at the price level [currIdx] changes the active and the done order
    map at most under the key [currIdx]: under every other key, also the id of
    an order the fill exhausts, both maps hold after [fillOrdersAtCurrIdx]
    returns what they held before. *)
Theorem fill_changes_maps_only_at_level_index (fuel : nat) (currIdx orderSize : Z)
    (b b' : OrderBook) (r : Z * Z) (orderId : Z) :
  fillOrdersAtCurrIdx fuel currIdx orderSize b = Ok (r, b') →
  orderId ≠ currIdx →
  activeOrderMap b' !! orderId = activeOrderMap b !! orderId
  ∧ doneOrderMap b' !! orderId = doneOrderMap b !! orderId.
Proof.
  intros Hrun Hne.
  exact (touches_fillOrdersAtCurrIdx currIdx fuel orderSize b r b' Hrun orderId Hne).
Qed.

Lemma fill_changes_maps_only_at_level_index_witness :
  activeOrderMap
    (default book_before_fill (after (fillOrdersAtCurrIdx ample 2 1) book_before_fill))
    !! 1 = activeOrderMap book_before_fill !! 1
  ∧ doneOrderMap
      (default book_before_fill (after (fillOrdersAtCurrIdx ample 2 1) book_before_fill))
      !! 1 = doneOrderMap book_before_fill !! 1.
Proof.
  apply (fill_changes_maps_only_at_level_index ample 2 1 book_before_fill _ (-1, 0)).
  - vm_compute. reflexivity.
  - discriminate.
Defined.

(** *** The claims *)

(** C1 (the code departs from it). The claim: a resting order that a fill
    exhausts leaves the active map and enters the done map under its own
    order id, and [getOrderStatus] of that id then reports the done state.
    [fillOrdersAtCurrIdx] erases and emplaces under the key [currIdx], the index
    of the price level. In [fill_of_order_1], order 3 fills order 1 at level 2:
    order 1 stays in the active map with an iterator to an erased node, so its
    status is undefined and no done entry is under key 1; order 2, which rests
    untouched at level 1, is erased from the active map and reported as done
    with order 1's fill. *)
Theorem fill_moves_level_index_not_order_id :
  result fill_of_order_1 book_10 = Ok (true, 3)
  ∧ (λ b, activeOrderMap b !! 1) <$> after fill_of_order_1 book_10
    = Some (Some 1%positive)
  ∧ (λ b, nodes b !! 1%positive) <$> after fill_of_order_1 book_10 = Some None
  ∧ (λ b, doneOrderMap b !! 1) <$> after fill_of_order_1 book_10 = Some None
  ∧ result (fill_of_order_1;; getOrderStatus 1) book_10 = Undefined
  ∧ (λ b, activeOrderMap b !! 2) <$> after fill_of_order_1 book_10 = Some None
  ∧ (λ b, nodes b !! 2%positive) <$> after fill_of_order_1 book_10
    = Some (Some (mkLimitOrder 1 1 1 0))
  ∧ result (fill_of_order_1;; getOrderStatus 2) book_10
    = Ok (false, mkOrderState 1 2%float).
Proof. vm_compute. repeat split; reflexivity. Qed.

(** C2 (the code departs from it). The claim: removing an emptied offer level,
    by a cancel or by a fill, unlinks its neighbours and moves only the offer
    endpoints; when the level was the highest offer, [firstOfferIdx] becomes its
    [nextIdx], and the bid endpoints stay.
    With offers at 5 and 7 ([two_offers]): cancelling the best offer, at 5,
    does as the claim says. Cancelling the highest offer, at 7, does not:
    [removeOrderLevel] assigns the level's [nextIdx] 5 to [firstBidIdx] and
    leaves [firstOfferIdx] at 7. And when a bid fills the offer at 5,
    [lastOfferIdx] moves to 7 but level 7 keeps [nextIdx = 5]: a fill does not
    call [removeOrderLevel]. *)
Theorem remove_highest_offer_moves_firstBidIdx :
  endpoints <$> after two_offers book_10 = Some (-1, -1, 7, 5)
  ∧ (λ b, orderLevels b !! 7%nat) <$> after two_offers book_10
    = Some (Some (mkOrderLevel [2%positive] 1 5 (-1)))
  ∧ endpoints <$> after (two_offers;; cancelOrder 1) book_10 = Some (-1, -1, 7, 7)
  ∧ (λ b, orderLevels b !! 7%nat) <$> after (two_offers;; cancelOrder 1) book_10
    = Some (Some (mkOrderLevel [2%positive] 1 (-1) (-1)))
  ∧ result (two_offers;; cancelOrder 2) book_10
    = Ok (true, mkOrderState 0 PrimFloat.nan)
  ∧ endpoints <$> after (two_offers;; cancelOrder 2) book_10 = Some (5, -1, 7, 5)
  ∧ (λ b, orderLevels b !! 5%nat) <$> after (two_offers;; cancelOrder 2) book_10
    = Some (Some (mkOrderLevel [1%positive] 1 (-1) (-1)))
  ∧ result (two_offers;; addOrder ample 5 1 true) book_10 = Ok (true, 3)
  ∧ endpoints <$> after (two_offers;; addOrder ample 5 1 true) book_10
    = Some (-1, -1, 7, 7)
  ∧ (λ b, orderLevels b !! 7%nat)
      <$> after (two_offers;; addOrder ample 5 1 true) book_10
    = Some (Some (mkOrderLevel [2%positive] 1 5 (-1))).
Proof. vm_compute. repeat split; reflexivity. Qed.

(** C3 (the code departs from it). The claim: an update to another price
    cancels, re-adds with the size not yet filled, and keeps the public order
    id bound to the new entry, the id made by the re-add staying hidden.
    In the book of [offer_and_bid], moving bid 2 from price 3 to price 4 does
    so: order 2 is bound to the new entry and id 3 is unknown. Moving it to
    price 5 makes the re-added order trade completely against offer 1:
    [addOrder] puts it in the done map under the new id 3 and creates no active
    entry, and [activeOrderMap.at(newOrderId)] throws. By then order 2 is
    cancelled: its id is unknown, and id 3 answers with the done state. *)
Theorem update_rebinding_throws_when_readd_fills :
  result (offer_and_bid;; getOrderStatus 2) book_10
    = Ok (true, mkOrderState 0 PrimFloat.nan)
  ∧ result (offer_and_bid;; updateOrder ample 2 4 4) book_10
    = Ok (true, mkOrderState 0 PrimFloat.nan)
  ∧ result (offer_and_bid;; updateOrder ample 2 4 4;; it ← active_at 2; deref it)
      book_10 = Ok (mkLimitOrder 4 4 4 0)
  ∧ result (offer_and_bid;; updateOrder ample 2 4 4;; getOrderStatus 3) book_10
    = Ok (false, unknownState)
  ∧ result (offer_and_bid;; updateOrder ample 2 5 4) book_10 = Throw out_of_range
  ∧ result (offer_and_bid;; cancelOrder 2;; addOrder ample 5 4 true) book_10
    = Ok (true, 3)
  ∧ result (offer_and_bid;; cancelOrder 2;; addOrder ample 5 4 true;;
            active_at 3) book_10 = Throw out_of_range
  ∧ result (offer_and_bid;; cancelOrder 2;; addOrder ample 5 4 true;;
            getOrderStatus 2) book_10 = Ok (false, unknownState)
  ∧ result (offer_and_bid;; cancelOrder 2;; addOrder ample 5 4 true;;
            getOrderStatus 3) book_10 = Ok (false, mkOrderState 4 5%float).
Proof. vm_compute. repeat split; reflexivity. Qed.

(** C6, as stated, fails: a rejected [updateOrder] of an active order returns
    that order's current state, not the sentinel. Order 1 of
    [book_scenario_5] has 4 filled at 100; an update to size 3 and an update
    to the price 1001 are both rejected with [(false, {4, 100.0})]. *)
Lemma rejected_update_returns_order_state :
  updateOrder ample 1 100 3 book_scenario_5
    = Ok ((false, mkOrderState 4 100%float), book_scenario_5)
  ∧ updateOrder ample 1 1001 8 book_scenario_5
    = Ok ((false, mkOrderState 4 100%float), book_scenario_5)
  ∧ mkOrderState 4 100%float ≠ unknownState.
Proof. vm_compute. repeat split; try reflexivity. discriminate. Qed.

(** C6, amended. In a book with a non-zero increment: [addOrder] with a price
    below 0, above [maxP] or off the increment, or with a size that is not
    positive, returns [(false, -1)]; [updateOrder] of an active order with
    such parameters, or with a new size that does not exceed the filled size,
    returns [false] with the state [getOrderStatus] reports for the order;
    [updateOrder] and [cancelOrder] of an id that is not in the active map
    return [false] with the stored done state, or with the unknown-order
    sentinel when there is none. In all these cases the book is unchanged. *)
Theorem rejected_calls_leave_book (b : OrderBook) (fuel : nat) :
  incr b ≠ 0 →
  (∀ price orderSize isBid,
     price < 0 ∨ maxP b < price ∨ Z.rem price (incr b) ≠ 0 ∨ orderSize <= 0 →
     addOrder fuel price orderSize isBid b = Ok ((false, -1), b))
  ∧ (∀ orderId newPrice newSize os,
       getOrderStatus orderId b = Ok ((true, os), b) →
       (newPrice < 0 ∨ maxP b < newPrice ∨ Z.rem newPrice (incr b) ≠ 0
        ∨ newSize <= 0) ∨ newSize <= filledSize os →
       updateOrder fuel orderId newPrice newSize b = Ok ((false, os), b))
  ∧ (∀ orderId newPrice newSize,
       activeOrderMap b !! orderId = None →
       updateOrder fuel orderId newPrice newSize b =
         Ok ((false, default unknownState (doneOrderMap b !! orderId)), b)
       ∧ cancelOrder orderId b =
         Ok ((false, default unknownState (doneOrderMap b !! orderId)), b)).
Proof.
  intros Hincr. split_and!.
  - intros price orderSize isBid Hbad. apply valid_order_false in Hbad.
    unfold addOrder. rewrite bind_run, getIsOrderValid_run by exact Hincr.
    rewrite Hbad. reflexivity.
  - intros orderId newPrice newSize os Hst Hbad.
    unfold updateOrder. rewrite bind_run, Hst. simpl.
    rewrite bind_run, getIsOrderValid_run by exact Hincr.
    destruct Hbad as [Hbad | Hsz].
    + apply valid_order_false in Hbad. rewrite Hbad. reflexivity.
    + apply Z.leb_le in Hsz. rewrite Hsz, orb_true_r. reflexivity.
  - intros orderId newPrice newSize Hnone.
    pose proof (getOrderStatus_inactive b orderId Hnone) as Hst.
    unfold updateOrder, cancelOrder. rewrite !bind_run, Hst. simpl. auto.
Qed.

Lemma rejected_calls_leave_book_witness :
  addOrder ample 1001 5 true book_scenario_5 = Ok ((false, -1), book_scenario_5)
  ∧ addOrder ample 100 0 false book_scenario_5 = Ok ((false, -1), book_scenario_5)
  ∧ updateOrder ample 1 100 4 book_scenario_5
    = Ok ((false, mkOrderState 4 100%float), book_scenario_5)
  ∧ updateOrder ample 7 100 8 book_scenario_5
    = Ok ((false, unknownState), book_scenario_5)
  ∧ cancelOrder 2 book_scenario_5
    = Ok ((false, mkOrderState 4 100%float), book_scenario_5).
Proof.
  assert (incr book_scenario_5 ≠ 0) as Hincr by discriminate.
  destruct (rejected_calls_leave_book book_scenario_5 ample Hincr)
    as (Hadd & Hupd & Hgone).
  split_and!.
  - apply Hadd. right. left. reflexivity.
  - apply Hadd. right. right. right. discriminate.
  - apply Hupd; [vm_compute; reflexivity|]. right. discriminate.
  - apply (Hgone 7 100 8). reflexivity.
  - apply (Hgone 2 100 8). reflexivity.
Defined.

(** C7, as stated, fails: for an active order with nothing filled the average
    price is not 0. Order 1 of [book_one_offer] has [filledValue = 0] and
    [originalSize = remainingSize]; the unguarded division 0.0 / 0 yields
    NaN. *)
Lemma unfilled_order_average_is_nan :
  getOrderStatus 1 book_one_offer
    = Ok ((true, mkOrderState 0 PrimFloat.nan), book_one_offer)
  ∧ PrimFloat.is_nan PrimFloat.nan = true
  ∧ PrimFloat.nan ≠ 0%float.
Proof. vm_compute. repeat split; try reflexivity. discriminate. Qed.

(** C7, amended. For an order id whose active-map entry refers to a live
    order (with a filled size that is an [int], as it is when
    [remainingSize] lies between 0 and [originalSize]), [getOrderStatus]
    returns [true] and the state with
    [filledSize = originalSize - remainingSize] and
    [averagePrice = filledValue / filledSize] as a division of doubles, which is
    the average when [filledSize > 0] (no value 0 is substituted when
    [filledSize = 0]); for an id that is not in the active map it returns
    [false] with the stored done state when the done map has one, and [false]
    with the unknown-order sentinel otherwise. The book is unchanged. *)
Theorem getOrderStatus_cases (b : OrderBook) (orderId : Z) :
  (∀ it o,
     activeOrderMap b !! orderId = Some it →
     nodes b !! it = Some o →
     in_int (originalSize o - remainingSize o) = true →
     getOrderStatus orderId b =
       Ok ((true,
            mkOrderState (originalSize o - remainingSize o)
              (of_int (filledValue o)
               / of_int (originalSize o - remainingSize o))%float),
           b))
  ∧ (∀ s,
       activeOrderMap b !! orderId = None →
       doneOrderMap b !! orderId = Some s →
       getOrderStatus orderId b = Ok ((false, s), b))
  ∧ (activeOrderMap b !! orderId = None →
     doneOrderMap b !! orderId = None →
     getOrderStatus orderId b = Ok ((false, unknownState), b)).
Proof.
  split_and!.
  - intros it o. apply getOrderStatus_active.
  - intros s Ha Hd. rewrite getOrderStatus_inactive by exact Ha.
    rewrite Hd. reflexivity.
  - intros Ha Hd. rewrite getOrderStatus_inactive by exact Ha.
    rewrite Hd. reflexivity.
Qed.

Lemma getOrderStatus_cases_witness :
  getOrderStatus 1 book_scenario_5
    = Ok ((true, mkOrderState 4 100%float), book_scenario_5)
  ∧ getOrderStatus 2 book_scenario_5
    = Ok ((false, mkOrderState 4 100%float), book_scenario_5)
  ∧ getOrderStatus 7 book_scenario_5 = Ok ((false, unknownState), book_scenario_5).
Proof.
  split_and!.
  - apply (proj1 (getOrderStatus_cases book_scenario_5 1) 1%positive
             (mkLimitOrder 100 10 6 400)); reflexivity.
  - apply (proj1 (proj2 (getOrderStatus_cases book_scenario_5 2))); reflexivity.
  - apply (proj2 (proj2 (getOrderStatus_cases book_scenario_5 7))); reflexivity.
Defined.

(** C8 (the code departs from it). The claim: an add that does not cross,
    followed by the cancel of the returned id, restores the book.
    In [book_one_offer], adding an offer at 7 (order 2) and cancelling it
    leaves [firstBidIdx = 5] and [firstOfferIdx = 7] where the book had [-1] and
    [5]: the cancel removes the highest offer level through the branch of
    [removeOrderLevel] that assigns [firstBidIdx]. The views are the same, but
    the next offer at 6 now walks off the chain, where before the round trip it
    was accepted.
    On the bid side, in the book of [one_bid_left] the emptied level 5 still
    has [nextIdx = 7] from its earlier life. Adding a bid at 5 (order 4) links
    the level as the highest bid without resetting that field, and the cancel
    then takes level 5 for an inner level: [lastBidIdx] stays at the empty
    level 5, and the best bid is reported as [{5, 0}] where it was [{3, 1}]. *)
Theorem add_cancel_changes_endpoints :
  endpoints book_one_offer = (-1, -1, 5, 5)
  ∧ result (addOrder ample 7 1 false) book_one_offer = Ok (true, 2)
  ∧ endpoints <$> after (addOrder ample 7 1 false;; cancelOrder 2) book_one_offer
    = Some (5, -1, 7, 5)
  ∧ result (addOrder ample 7 1 false;; cancelOrder 2;; getL2OrderData ample)
      book_one_offer = result (getL2OrderData ample) book_one_offer
  ∧ result (addOrder ample 6 1 false) book_one_offer = Ok (true, 2)
  ∧ result (addOrder ample 7 1 false;; cancelOrder 2;; addOrder ample 6 1 false)
      book_one_offer = Undefined
  ∧ endpoints <$> after one_bid_left book_10 = Some (3, 3, -1, -1)
  ∧ result (one_bid_left;; getL1OrderData) book_10
    = Ok (mkPriceLevel 3 1, noPriceLevel)
  ∧ result (one_bid_left;; addOrder ample 5 1 true) book_10 = Ok (true, 4)
  ∧ endpoints <$> after (one_bid_left;; addOrder ample 5 1 true;; cancelOrder 4)
                    book_10 = Some (3, 5, -1, -1)
  ∧ result (one_bid_left;; addOrder ample 5 1 true;; cancelOrder 4;;
            getL1OrderData) book_10 = Ok (mkPriceLevel 5 0, noPriceLevel).
Proof. vm_compute. repeat split; reflexivity. Qed.

(** *** Further properties of the order book *)

(** *** Relations that every call keeps *)

Section Keeps.
Variable R : OrderBook → OrderBook → Prop.
Hypothesis R_refl : ∀ b, R b b.
Hypothesis R_trans : ∀ b1 b2 b3, R b1 b2 → R b2 b3 → R b1 b3.
Hypothesis R_set_orders :
  ∀ b i l v, orderLevels b !! i = Some l →
             R b (set_orderLevels (<[i := set_orders v l]> (orderLevels b)) b).
Hypothesis R_set_totalSize :
  ∀ b i l v, orderLevels b !! i = Some l →
             R b (set_orderLevels (<[i := set_totalSize v l]> (orderLevels b)) b).
Hypothesis R_set_nextIdx :
  ∀ b i l v, orderLevels b !! i = Some l →
             R b (set_orderLevels (<[i := set_nextIdx v l]> (orderLevels b)) b).
Hypothesis R_set_prevIdx :
  ∀ b i l v, orderLevels b !! i = Some l →
             R b (set_orderLevels (<[i := set_prevIdx v l]> (orderLevels b)) b).
Hypothesis R_nodes : ∀ b v, R b (set_nodes v b).
Hypothesis R_nextNode : ∀ b v, R b (set_nextNode v b).
Hypothesis R_active_erase :
  ∀ b k, R b (set_activeOrderMap (delete k (activeOrderMap b)) b).
Hypothesis R_issue :
  ∀ b it, R b (set_nextOrderId (nextOrderId b + 1)
                 (set_activeOrderMap (<[nextOrderId b := it]> (activeOrderMap b)) b)).
Hypothesis R_done :
  ∀ b k s, doneOrderMap b !! k = None →
           R b (set_doneOrderMap (<[k := s]> (doneOrderMap b)) b).
Hypothesis R_firstBidIdx : ∀ b v, R b (set_firstBidIdx v b).
Hypothesis R_lastBidIdx : ∀ b v, R b (set_lastBidIdx v b).
Hypothesis R_firstOfferIdx : ∀ b v, R b (set_firstOfferIdx v b).
Hypothesis R_lastOfferIdx : ∀ b v, R b (set_lastOfferIdx v b).
Hypothesis R_nextOrderId :
  ∀ b, R b (set_nextOrderId (nextOrderId b + 1) b).

Lemma keeps_bind {A B : Type} (m : M A) (f : A → M B) :
  keeps R m → (∀ a, keeps R (f a)) → keeps R (m ≫= f).
Proof.
  intros Hm Hf b r b' Hrun. unfold mbind, M_bind in Hrun.
  destruct (m b) as [[a b1]| | | |] eqn:E; try discriminate.
  eapply R_trans; [eapply Hm, E | eapply Hf, Hrun].
Qed.

Lemma keeps_ret {A : Type} (a : A) : keeps R (mret a).
Proof. intros b a' b' H. inversion H; subst. apply R_refl. Qed.

Lemma keeps_gets {A : Type} (f : OrderBook → A) : keeps R (gets f).
Proof. intros b a' b' H. inversion H; subst. apply R_refl. Qed.

Lemma keeps_undefined {A : Type} : keeps R (@undefined A).
Proof. intros b a b'. discriminate. Qed.

Lemma keeps_out_of_fuel {A : Type} : keeps R (@out_of_fuel A).
Proof. intros b a b'. discriminate. Qed.

Lemma keeps_modify (f : OrderBook → OrderBook) :
  (∀ b, R b (f b)) → keeps R (modify f).
Proof. intros Hf b a' b' H. inversion H; subst. apply Hf. Qed.

Lemma keeps_when (c : bool) (m : M unit) : keeps R m → keeps R (when c m).
Proof. intros Hm. destruct c; [exact Hm | apply keeps_ret]. Qed.

Lemma keeps_int_chk (z : Z) : keeps R (int_chk z).
Proof.
  unfold int_chk. destruct (in_int z); [apply keeps_ret | apply keeps_undefined].
Qed.

Lemma keeps_int_div (x y : Z) : keeps R (int_div x y).
Proof.
  unfold int_div. destruct (y =? 0); [apply keeps_undefined | apply keeps_int_chk].
Qed.

Lemma keeps_int_rem (x y : Z) : keeps R (int_rem x y).
Proof.
  unfold int_rem. destruct (y =? 0); [apply keeps_undefined|].
  destruct ((x =? INT_MIN) && (y =? -1)); [apply keeps_undefined | apply keeps_ret].
Qed.

Lemma keeps_deref (it : positive) : keeps R (deref it).
Proof.
  intros b a b'. unfold deref. destruct (nodes b !! it); [|discriminate].
  intros H. inversion H; subst. apply R_refl.
Qed.

Lemma keeps_level_at (i : Z) : keeps R (level_at i).
Proof.
  intros b a b'. unfold level_at. destruct (0 <=? i); [|discriminate].
  destruct (orderLevels b !! Z.to_nat i); [|discriminate].
  intros H. inversion H; subst. apply R_refl.
Qed.

Lemma keeps_active_at (k : Z) : keeps R (active_at k).
Proof.
  intros b a b'. unfold active_at. destruct (activeOrderMap b !! k); [|discriminate].
  intros H. inversion H; subst. apply R_refl.
Qed.

Lemma keeps_modify_level (i : Z) (f : OrderLevel → OrderLevel) :
  (∀ b l, orderLevels b !! Z.to_nat i = Some l →
          R b (set_orderLevels (<[Z.to_nat i := f l]> (orderLevels b)) b)) →
  keeps R (modify_level i f).
Proof.
  intros Hf b u b' H. unfold modify_level in H. rewrite bind_run in H.
  unfold level_at in H. destruct (0 <=? i); [|discriminate].
  destruct (orderLevels b !! Z.to_nat i) as [l|] eqn:Hl; [|discriminate].
  inversion H; subst. apply Hf, Hl.
Qed.

Lemma keeps_set_orders (i : Z) (f : OrderLevel → list positive) :
  keeps R (modify_level i (λ l, set_orders (f l) l)).
Proof. apply keeps_modify_level. intros b l Hl. apply R_set_orders, Hl. Qed.

Lemma keeps_set_totalSize (i v : Z) : keeps R (modify_level i (set_totalSize v)).
Proof. apply keeps_modify_level. intros b l Hl. apply R_set_totalSize, Hl. Qed.

Lemma keeps_set_nextIdx (i v : Z) : keeps R (modify_level i (set_nextIdx v)).
Proof. apply keeps_modify_level. intros b l Hl. apply R_set_nextIdx, Hl. Qed.

Lemma keeps_set_prevIdx (i v : Z) : keeps R (modify_level i (set_prevIdx v)).
Proof. apply keeps_modify_level. intros b l Hl. apply R_set_prevIdx, Hl. Qed.

Lemma keeps_store (it : positive) (o : LimitOrder) : keeps R (store it o).
Proof.
  apply keeps_bind; [apply keeps_deref|]. intros _.
  apply keeps_modify. intros b. apply R_nodes.
Qed.

Lemma keeps_done_try_emplace (k : Z) (s : OrderState) :
  keeps R (done_try_emplace k s).
Proof.
  apply keeps_modify. intros b.
  destruct (doneOrderMap b !! k) eqn:E; [apply R_refl | apply R_done, E].
Qed.

Lemma keeps_active_erase (k : Z) : keeps R (active_erase k).
Proof. apply keeps_modify. intros b. apply R_active_erase. Qed.

Lemma keeps_list_push_back (i : Z) (o : LimitOrder) : keeps R (list_push_back i o).
Proof.
  apply keeps_bind; [apply keeps_gets|]. intros it.
  apply keeps_bind.
  { apply keeps_modify. intros b. eapply R_trans; [apply R_nodes | apply R_nextNode]. }
  intros _.
  apply keeps_bind; [apply (keeps_set_orders i (λ l, orders l ++ [it]))|].
  intros _. apply keeps_ret.
Qed.

Lemma keeps_list_erase (i : Z) (it : positive) : keeps R (list_erase i it).
Proof.
  apply keeps_bind; [apply keeps_level_at|]. intros l.
  destruct (bool_decide (it ∈ orders l)); [|apply keeps_undefined].
  apply keeps_bind;
    [apply (keeps_set_orders i (λ l, filter (λ x, x ≠ it) (orders l)))|].
  intros _.
  apply keeps_modify. intros b. apply R_nodes.
Qed.

Lemma keeps_getIsBid (i : Z) : keeps R (getIsBid i).
Proof. apply keeps_bind; [apply keeps_gets|]. intros l. apply keeps_ret. Qed.

Lemma keeps_getIsOrderValid (price orderSize : Z) :
  keeps R (getIsOrderValid price orderSize).
Proof.
  unfold getIsOrderValid.
  destruct (negb (0 <=? price)); [apply keeps_ret|].
  apply keeps_bind; [apply keeps_gets|]. intros mx.
  destruct (negb (price <=? mx)); [apply keeps_ret|].
  apply keeps_bind; [apply keeps_gets|]. intros inc.
  apply keeps_bind; [apply keeps_int_rem|]. intros r.
  destruct (negb (r =? 0)); apply keeps_ret.
Qed.

Lemma keeps_getOrderStatus (orderId : Z) : keeps R (getOrderStatus orderId).
Proof.
  unfold getOrderStatus.
  apply keeps_bind; [apply keeps_gets|]. intros active.
  destruct (active !! orderId) as [it|].
  - apply keeps_bind; [apply keeps_deref|]. intros o.
    apply keeps_bind; [apply keeps_int_chk|]. intros filled. apply keeps_ret.
  - apply keeps_bind; [apply keeps_gets|]. intros done.
    destruct (done !! orderId); apply keeps_ret.
Qed.

Lemma keeps_fill_loop (fuel : nat) (currIdx : Z) (currOrderIt : list positive)
    (orderSize : Z) :
  keeps R (fill_loop fuel currIdx currOrderIt orderSize).
Proof.
  revert currOrderIt orderSize.
  induction fuel as [|fuel IH]; intros currOrderIt orderSize; simpl.
  - apply keeps_out_of_fuel.
  - destruct currOrderIt as [|it rest]; [apply keeps_ret|].
    destruct (0 <? orderSize); simpl; [|apply keeps_ret].
    apply keeps_bind; [apply keeps_deref|]. intros o.
    apply keeps_bind; [apply keeps_int_chk|]. intros orderSize'.
    apply keeps_bind; [apply keeps_int_chk|]. intros remaining.
    apply keeps_bind; [apply keeps_int_chk|]. intros v.
    apply keeps_bind; [apply keeps_gets|]. intros inc.
    apply keeps_bind; [apply keeps_int_chk|]. intros v'.
    apply keeps_bind; [apply keeps_int_chk|]. intros filled.
    apply keeps_bind; [apply keeps_store|]. intros _.
    apply keeps_bind; [apply keeps_level_at|]. intros l.
    apply keeps_bind; [apply keeps_int_chk|]. intros total.
    apply keeps_bind; [apply keeps_set_totalSize|]. intros _.
    destruct (remaining =? 0); [|apply IH].
    apply keeps_bind; [apply keeps_active_erase|]. intros _.
    apply keeps_bind; [apply keeps_done_try_emplace|]. intros _.
    apply IH.
Qed.

Lemma keeps_fillOrdersAtCurrIdx (fuel : nat) (currIdx orderSize : Z) :
  keeps R (fillOrdersAtCurrIdx fuel currIdx orderSize).
Proof.
  unfold fillOrdersAtCurrIdx.
  apply keeps_bind; [apply keeps_level_at|]. intros l.
  apply keeps_bind; [apply keeps_fill_loop|]. intros [currOrderIt sz].
  apply keeps_bind; [apply keeps_modify; intros b; apply R_nodes|]. intros _.
  apply keeps_bind; [apply (keeps_set_orders currIdx (λ _, currOrderIt))|].
  intros _.
  apply keeps_bind; [apply keeps_level_at|]. intros l'.
  destruct (totalSize l' =? 0); apply keeps_ret.
Qed.

Lemma keeps_walk_to_slot (fuel : nat) (isBid : bool) (newIdx curr : Z) :
  keeps R (walk_to_slot fuel isBid newIdx curr).
Proof.
  revert curr. induction fuel as [|fuel IH]; intros curr; simpl.
  - apply keeps_out_of_fuel.
  - destruct (if isBid then newIdx <? curr else curr <? newIdx); [|apply keeps_ret].
    apply keeps_bind; [apply keeps_level_at|]. intros l. apply IH.
Qed.

Lemma keeps_addNewOrderLevel (fuel : nat) (newIdx : Z) (isBid : bool) :
  keeps R (addNewOrderLevel fuel newIdx isBid).
Proof.
  unfold addNewOrderLevel. destruct isBid.
  - apply keeps_bind; [apply keeps_gets|]. intros lastBid.
    apply keeps_bind; [apply keeps_gets|]. intros firstBid.
    destruct (lastBid <? 0); [|destruct (lastBid <? newIdx);
                                [|destruct (newIdx <? firstBid)]].
    + apply keeps_bind; [|intros _]; apply keeps_modify; auto.
    + apply keeps_bind; [apply keeps_set_prevIdx|]. intros _.
      apply keeps_bind; [apply keeps_set_nextIdx|]. intros _.
      apply keeps_modify; auto.
    + apply keeps_bind; [apply keeps_set_nextIdx|]. intros _.
      apply keeps_bind; [apply keeps_set_prevIdx|]. intros _.
      apply keeps_modify; auto.
    + apply keeps_bind; [apply keeps_walk_to_slot|]. intros curr.
      apply keeps_bind; [apply keeps_level_at|]. intros l.
      apply keeps_bind; [apply keeps_set_nextIdx|]. intros _.
      apply keeps_bind; [apply keeps_set_prevIdx|]. intros _.
      apply keeps_bind; [apply keeps_set_nextIdx|]. intros _.
      apply keeps_set_prevIdx.
  - apply keeps_bind; [apply keeps_gets|]. intros lastOffer.
    apply keeps_bind; [apply keeps_gets|]. intros firstOffer.
    destruct (lastOffer <? 0); [|destruct (newIdx <? lastOffer);
                                  [|destruct (firstOffer <? newIdx)]].
    + apply keeps_bind; [|intros _]; apply keeps_modify; auto.
    + apply keeps_bind; [apply keeps_set_prevIdx|]. intros _.
      apply keeps_bind; [apply keeps_set_nextIdx|]. intros _.
      apply keeps_modify; auto.
    + apply keeps_bind; [apply keeps_set_nextIdx|]. intros _.
      apply keeps_bind; [apply keeps_set_prevIdx|]. intros _.
      apply keeps_modify; auto.
    + apply keeps_bind; [apply keeps_walk_to_slot|]. intros curr.
      apply keeps_bind; [apply keeps_level_at|]. intros l.
      apply keeps_bind; [apply keeps_set_nextIdx|]. intros _.
      apply keeps_bind; [apply keeps_set_prevIdx|]. intros _.
      apply keeps_bind; [apply keeps_set_nextIdx|]. intros _.
      apply keeps_set_prevIdx.
Qed.

Lemma keeps_removeOrderLevel (currIdx : Z) : keeps R (removeOrderLevel currIdx).
Proof.
  unfold removeOrderLevel.
  apply keeps_bind; [apply keeps_getIsBid|]. intros isBid.
  apply keeps_bind; [apply keeps_level_at|]. intros l.
  apply keeps_bind; [apply keeps_when, keeps_set_prevIdx|]. intros _.
  apply keeps_bind; [apply keeps_when, keeps_set_nextIdx|]. intros _.
  destruct isBid.
  - apply keeps_bind; [apply keeps_when, keeps_modify; auto|]. intros _.
    apply keeps_when, keeps_modify; auto.
  - apply keeps_bind; [apply keeps_when, keeps_modify; auto|]. intros _.
    apply keeps_when, keeps_modify; auto.
Qed.

Lemma keeps_match_loop (fuel : nat) (isBid : bool)
    (newIdx currIdx orderSize filledValue : Z) :
  keeps R (match_loop fuel isBid newIdx currIdx orderSize filledValue).
Proof.
  revert currIdx orderSize filledValue.
  induction fuel as [|fuel IH]; intros currIdx orderSize filledValue; simpl.
  - apply keeps_out_of_fuel.
  - destruct ((0 <=? currIdx)
              && (if isBid then currIdx <=? newIdx else newIdx <=? currIdx)
              && (0 <? orderSize)); [|apply keeps_ret].
    apply keeps_bind; [apply keeps_fillOrdersAtCurrIdx|]. intros [newCurr newSize].
    apply keeps_bind; [apply keeps_int_chk|]. intros d.
    apply keeps_bind; [apply keeps_int_chk|]. intros v.
    apply keeps_bind; [apply keeps_gets|]. intros inc.
    apply keeps_bind; [apply keeps_int_chk|]. intros v'.
    apply keeps_bind; [apply keeps_int_chk|]. intros fv.
    apply IH.
Qed.

Lemma keeps_take_nextOrderId : keeps R take_nextOrderId.
Proof.
  intros b a b'. unfold take_nextOrderId, mbind, M_bind, gets, int_add, int_chk.
  destruct (in_int (nextOrderId b + 1)); simpl; [|discriminate].
  intros H. inversion H; subst. apply R_nextOrderId.
Qed.

(** The end of [addOrder] for an order that rests. *)
Lemma keeps_issue (it : positive) :
  keeps R (id ← gets nextOrderId;
           active_insert_or_assign id it;;
           id ← take_nextOrderId;
           mret (true, id)).
Proof.
  intros b a b'.
  unfold take_nextOrderId, active_insert_or_assign, int_add, int_chk.
  rewrite !bind_run. unfold gets at 1. rewrite !bind_run. unfold modify at 1.
  rewrite !bind_run. unfold gets at 1. simpl.
  destruct (in_int (nextOrderId b + 1)); [|discriminate].
  intros H. inversion H; subst. apply R_issue.
Qed.

(** The part of [addOrder] before an order id is taken: matching. *)
Lemma keeps_matching (fuel : nat) (isBid : bool) (newIdx orderSize : Z) :
  keeps R
    (if isBid then
       currOfferIdx ← gets lastOfferIdx;
       '(currOfferIdx, orderSize, filledValue) ←
         match_loop fuel true newIdx currOfferIdx orderSize 0;
       modify (set_lastOfferIdx currOfferIdx);;
       when (currOfferIdx <? 0) (modify (set_firstOfferIdx currOfferIdx));;
       mret (orderSize, filledValue)
     else
       currBidIdx ← gets lastBidIdx;
       '(currBidIdx, orderSize, filledValue) ←
         match_loop fuel false newIdx currBidIdx orderSize 0;
       modify (set_lastBidIdx currBidIdx);;
       when (currBidIdx <? 0) (modify (set_firstBidIdx currBidIdx));;
       mret (orderSize, filledValue)).
Proof.
  destruct isBid.
  - apply keeps_bind; [apply keeps_gets|]. intros curr.
    apply keeps_bind; [apply keeps_match_loop|]. intros [[c sz] fv].
    apply keeps_bind; [apply keeps_modify; auto|]. intros _.
    apply keeps_bind; [apply keeps_when, keeps_modify; auto|]. intros _.
    apply keeps_ret.
  - apply keeps_bind; [apply keeps_gets|]. intros curr.
    apply keeps_bind; [apply keeps_match_loop|]. intros [[c sz] fv].
    apply keeps_bind; [apply keeps_modify; auto|]. intros _.
    apply keeps_bind; [apply keeps_when, keeps_modify; auto|]. intros _.
    apply keeps_ret.
Qed.

Lemma keeps_addOrder (fuel : nat) (price orderSize : Z) (isBid : bool) :
  keeps R (addOrder fuel price orderSize isBid).
Proof.
  unfold addOrder.
  apply keeps_bind; [apply keeps_getIsOrderValid|]. intros valid.
  destruct (negb valid); [apply keeps_ret|].
  apply keeps_bind; [apply keeps_gets|]. intros inc.
  apply keeps_bind; [apply keeps_int_div|]. intros newIdx.
  apply keeps_bind; [apply keeps_matching|]. intros [sz fv].
  destruct (sz =? 0).
  - apply keeps_bind; [apply keeps_gets|]. intros id.
    apply keeps_bind; [apply keeps_done_try_emplace|]. intros _.
    apply keeps_bind; [apply keeps_take_nextOrderId|]. intros id'. apply keeps_ret.
  - apply keeps_bind; [apply keeps_level_at|]. intros l.
    apply keeps_bind; [apply keeps_when, keeps_addNewOrderLevel|]. intros _.
    apply keeps_bind; [apply keeps_list_push_back|]. intros it.
    apply keeps_bind; [apply keeps_level_at|]. intros l'.
    apply keeps_bind; [apply keeps_int_chk|]. intros total.
    apply keeps_bind; [apply keeps_set_totalSize|]. intros _.
    apply keeps_issue.
Qed.

Lemma keeps_cancelOrder (orderId : Z) : keeps R (cancelOrder orderId).
Proof.
  unfold cancelOrder.
  apply keeps_bind; [apply keeps_getOrderStatus|]. intros [active os].
  destruct (negb active); [apply keeps_ret|].
  apply keeps_bind; [apply keeps_active_at|]. intros it.
  apply keeps_bind; [apply keeps_deref|]. intros o.
  apply keeps_bind; [apply keeps_gets|]. intros inc.
  apply keeps_bind; [apply keeps_int_div|]. intros currIdx.
  apply keeps_bind; [apply keeps_level_at|]. intros l.
  apply keeps_bind; [apply keeps_int_chk|]. intros total.
  apply keeps_bind; [apply keeps_set_totalSize|]. intros _.
  apply keeps_bind; [apply keeps_list_erase|]. intros _.
  apply keeps_bind; [apply keeps_active_erase|]. intros _.
  apply keeps_bind; [apply keeps_level_at|]. intros l'.
  apply keeps_bind; [apply keeps_when, keeps_removeOrderLevel|]. intros _.
  apply keeps_ret.
Qed.

Lemma keeps_updateOrder (fuel : nat) (orderId newPrice newSize : Z) :
  (∀ b it, R b (set_activeOrderMap (<[orderId := it]> (activeOrderMap b)) b)) →
  keeps R (updateOrder fuel orderId newPrice newSize).
Proof.
  intros R_rebind. unfold updateOrder.
  apply keeps_bind; [apply keeps_getOrderStatus|]. intros [active os].
  destruct (negb active); [apply keeps_ret|].
  apply keeps_bind; [apply keeps_getIsOrderValid|]. intros valid.
  destruct (negb valid || (newSize <=? filledSize os)); [apply keeps_ret|].
  apply keeps_bind; [apply keeps_active_at|]. intros it.
  apply keeps_bind; [apply keeps_deref|]. intros o.
  destruct (price o =? newPrice).
  - apply keeps_bind; [apply keeps_int_chk|]. intros remaining.
    apply keeps_bind; [apply keeps_store|]. intros _. apply keeps_ret.
  - apply keeps_bind; [apply keeps_gets|]. intros inc.
    apply keeps_bind; [apply keeps_int_div|]. intros currIdx.
    apply keeps_bind; [apply keeps_int_chk|]. intros sz.
    apply keeps_bind; [apply keeps_getIsBid|]. intros isBid.
    apply keeps_bind; [apply keeps_cancelOrder|]. intros _.
    apply keeps_bind; [apply keeps_addOrder|]. intros [ok newId].
    apply keeps_bind; [apply keeps_active_at|]. intros it'.
    apply keeps_bind; [apply keeps_modify; intros b; apply R_rebind|]. intros _.
    apply keeps_bind; [apply keeps_active_erase|]. intros _.
    apply keeps_ret.
Qed.

Lemma keeps_perform (c : api_call) :
  (∀ fuel orderId newPrice newSize b it,
     c = UpdateOrder fuel orderId newPrice newSize →
     R b (set_activeOrderMap (<[orderId := it]> (activeOrderMap b)) b)) →
  keeps R (perform c).
Proof.
  intros R_rebind.
  destruct c; simpl; (apply keeps_bind; [|intros ?; apply keeps_ret]).
  - apply keeps_addOrder.
  - apply keeps_cancelOrder.
  - apply keeps_updateOrder. intros b it. eapply R_rebind. reflexivity.
Qed.

Lemma keeps_perform_all (cs : list api_call) :
  (∀ c, keeps R (perform c)) → keeps R (perform_all cs).
Proof.
  intros Hc. induction cs as [|c cs IH]; simpl; [apply keeps_ret|].
  apply keeps_bind; [apply Hc | intros _; exact IH].
Qed.

End Keeps.

(** *** What a sequence of calls keeps *)

Lemma book_le_refl (b : OrderBook) : book_le b b.
Proof. unfold book_le. repeat split; auto; lia. Qed.

Lemma book_le_trans (b1 b2 b3 : OrderBook) :
  book_le b1 b2 → book_le b2 b3 → book_le b1 b3.
Proof.
  intros (Hm & Hi & Hl & Hn & Hd) (Hm' & Hi' & Hl' & Hn' & Hd').
  unfold book_le. repeat split; try congruence; try lia. auto.
Qed.

Lemma book_le_perform (c : api_call) : keeps book_le (perform c).
Proof.
  apply keeps_perform; try apply book_le_trans;
    try (unfold book_le; simpl; intros; rewrite ?length_insert;
         repeat split; auto; lia).
  unfold book_le; simpl. intros b k s Hk. repeat split; try lia.
  intros k' s' Hk'. rewrite lookup_insert_ne; [exact Hk' | congruence].
Qed.

Lemma book_le_perform_all (cs : list api_call) : keeps book_le (perform_all cs).
Proof.
  apply keeps_perform_all; [apply book_le_refl | apply book_le_trans |].
  apply book_le_perform.
Qed.

Lemma stays_inactive_trans (k : Z) (b1 b2 b3 : OrderBook) :
  stays_inactive k b1 b2 → stays_inactive k b2 b3 → stays_inactive k b1 b3.
Proof. unfold stays_inactive. auto. Qed.

Lemma bind_ok {A B : Type} (m : M A) (f : A → M B) (b : OrderBook)
    (r : B * OrderBook) :
  (m ≫= f) b = Ok r → ∃ a b1, m b = Ok (a, b1) ∧ f a b1 = Ok r.
Proof.
  rewrite bind_run. destruct (m b) as [[a b1]| | | |]; try discriminate.
  intros H. exists a, b1. split; [reflexivity | exact H].
Qed.

Lemma stays_inactive_perform (k : Z) (c : api_call) :
  keeps (stays_inactive k) (perform c).
Proof.
  assert (Hgen : (∀ f i p s, c = UpdateOrder f i p s → i ≠ k) →
                 keeps (stays_inactive k) (perform c)).
  { intros Hc.
    apply keeps_perform; try apply stays_inactive_trans;
      try (unfold stays_inactive; simpl; intros; auto; fail).
    - unfold stays_inactive; simpl. intros b k' [H1 H2]. split; [|exact H2].
      destruct (decide (k' = k)) as [->|];
        [apply lookup_delete_eq | rewrite lookup_delete_ne by done; exact H1].
    - unfold stays_inactive; simpl. intros b it [H1 H2]. split; [|lia].
      rewrite lookup_insert_ne by lia. exact H1.
    - unfold stays_inactive; simpl. intros b [H1 H2]. split; [exact H1 | lia].
    - unfold stays_inactive; simpl. intros f i p s b it Heq [H1 H2].
      split; [|exact H2].
      rewrite lookup_insert_ne by (apply (Hc _ _ _ _ Heq)). exact H1. }
  destruct c as [f p s i| i |f i p s]; try (apply Hgen; intros; discriminate).
  destruct (decide (i = k)) as [->|Hne]; [|apply Hgen; intros; congruence].
  intros b a b' Hrun [Hk Hlt]. simpl in Hrun.
  apply bind_ok in Hrun as ([ok os] & b1 & Hup & Hret).
  inversion Hret; subst. clear Hret.
  unfold updateOrder in Hup. rewrite bind_run in Hup.
  rewrite (getOrderStatus_inactive _ _ Hk) in Hup. simpl in Hup.
  inversion Hup; subst. auto.
Qed.

Lemma stays_inactive_perform_all (k : Z) (cs : list api_call) :
  keeps (stays_inactive k) (perform_all cs).
Proof.
  apply keeps_perform_all.
  - unfold stays_inactive. auto.
  - apply stays_inactive_trans.
  - apply stays_inactive_perform.
Qed.

(** X2: a done state is final. No sequence of [addOrder], [cancelOrder] and
    [updateOrder] calls changes or removes an entry of the done map; and an
    order id that was handed out, is not active and has a done state is
    reported by [getOrderStatus] as inactive with that same state after any
    such sequence. *)
Theorem done_state_is_final (cs : list api_call) (b b' : OrderBook) (k : Z)
    (s : OrderState) :
  perform_all cs b = Ok (tt, b') →
  doneOrderMap b !! k = Some s →
  doneOrderMap b' !! k = Some s
  ∧ (k < nextOrderId b → activeOrderMap b !! k = None →
     getOrderStatus k b' = Ok ((false, s), b')).
Proof.
  intros Hrun Hdone.
  destruct (book_le_perform_all cs _ _ _ Hrun) as (_ & _ & _ & _ & Hd).
  specialize (Hd _ _ Hdone). split; [exact Hd|].
  intros Hlt Hk.
  destruct (stays_inactive_perform_all k cs _ _ _ Hrun (conj Hk Hlt)) as [Hk' _].
  rewrite (getOrderStatus_inactive _ _ Hk'), Hd. reflexivity.
Qed.

Lemma done_state_is_final_witness :
  doneOrderMap
    (default book_scenario_5
       (after (perform_all [AddOrder ample 100 2 true; CancelOrder 1;
                            AddOrder ample 2 1 false]) book_scenario_5))
    !! 2 = Some (mkOrderState 4 100%float)
  ∧ (2 < nextOrderId book_scenario_5 →
     activeOrderMap book_scenario_5 !! 2 = None →
     getOrderStatus 2
       (default book_scenario_5
          (after (perform_all [AddOrder ample 100 2 true; CancelOrder 1;
                               AddOrder ample 2 1 false]) book_scenario_5))
     = Ok ((false, mkOrderState 4 100%float),
           default book_scenario_5
             (after (perform_all [AddOrder ample 100 2 true; CancelOrder 1;
                                  AddOrder ample 2 1 false]) book_scenario_5))).
Proof.
  apply (done_state_is_final
           [AddOrder ample 100 2 true; CancelOrder 1; AddOrder ample 2 1 false]
           book_scenario_5).
  - vm_compute. reflexivity.
  - reflexivity.
Defined.

(** *** Order ids *)

Lemma getIsOrderValid_pure (b b' : OrderBook) (price orderSize : Z) (v : bool) :
  getIsOrderValid price orderSize b = Ok (v, b') → b' = b.
Proof.
  intros H. symmetry. revert H.
  apply (keeps_getIsOrderValid eq); congruence.
Qed.

Ltac same_nextOrderId_frame :=
  try (unfold same_nextOrderId; simpl; intros; congruence).

Lemma addOrder_rest_same_nextOrderId (fuel : nat) (isBid : bool)
    (price newIdx originalSize orderSize filledValue : Z) :
  keeps same_nextOrderId
    (l ← level_at newIdx;
     when (totalSize l =? 0) (addNewOrderLevel fuel newIdx isBid);;
     list_push_back newIdx
       (mkLimitOrder price originalSize orderSize filledValue)).
Proof.
  apply keeps_bind; same_nextOrderId_frame.
  { apply keeps_level_at; same_nextOrderId_frame. }
  intros l. apply keeps_bind; same_nextOrderId_frame.
  { apply keeps_when; same_nextOrderId_frame.
    apply keeps_addNewOrderLevel; same_nextOrderId_frame. }
  intros _. apply keeps_list_push_back; same_nextOrderId_frame.
Qed.

Lemma addOrder_id (fuel : nat) (price orderSize : Z) (isBid : bool)
    (b b' : OrderBook) (ok : bool) (id : Z) :
  addOrder fuel price orderSize isBid b = Ok ((ok, id), b') →
  if ok then id = nextOrderId b ∧ nextOrderId b' = id + 1
  else id = -1 ∧ b' = b.
Proof.
  unfold addOrder. intros H.
  apply bind_ok in H as (valid & b1 & Hv & H).
  apply getIsOrderValid_pure in Hv as ->.
  destruct valid; simpl in H; [|inversion H; subst; auto].
  apply bind_ok in H as (inc & b1 & H1 & H). inversion H1; subst b1 inc. clear H1.
  apply bind_ok in H as (newIdx & b1 & H1 & H).
  apply (keeps_int_div same_nextOrderId) in H1; same_nextOrderId_frame.
  apply bind_ok in H as ([sz fv] & b2 & H2 & H).
  apply (keeps_matching same_nextOrderId) in H2; same_nextOrderId_frame.
  assert (Hn : nextOrderId b2 = nextOrderId b)
    by (unfold same_nextOrderId in *; congruence).
  clear H1 H2. destruct (sz =? 0).
  - revert H. unfold take_nextOrderId, done_try_emplace, int_add, int_chk.
    rewrite !bind_run. unfold gets at 1. rewrite !bind_run. unfold modify at 1.
    rewrite !bind_run. unfold gets at 1.
    destruct (doneOrderMap b2 !! nextOrderId b2); simpl;
      (destruct (in_int (nextOrderId b2 + 1)); [|discriminate]);
      simpl; intros H; inversion H; subst; simpl; split; congruence.
  - apply bind_ok in H as (l & b3 & H3 & H).
    apply bind_ok in H as (u & b4 & H4 & H).
    apply bind_ok in H as (it & b5 & H5 & H).
    assert (H35 : nextOrderId b5 = nextOrderId b2).
    { eapply (addOrder_rest_same_nextOrderId fuel isBid price newIdx orderSize sz fv
                b2 it b5).
      rewrite bind_run, H3, bind_run, H4. exact H5. }
    clear H3 H4 H5.
    apply bind_ok in H as (l' & b6 & H6 & H).
    apply (keeps_level_at same_nextOrderId) in H6; same_nextOrderId_frame.
    apply bind_ok in H as (total & b7 & H7 & H).
    apply (keeps_int_chk same_nextOrderId) in H7; same_nextOrderId_frame.
    apply bind_ok in H as (u' & b8 & H8 & H).
    apply (keeps_modify_level same_nextOrderId) in H8; same_nextOrderId_frame.
    assert (Hn8 : nextOrderId b8 = nextOrderId b)
      by (unfold same_nextOrderId in *; congruence).
    clear H6 H7 H8 H35 Hn.
    revert H. unfold take_nextOrderId, active_insert_or_assign, int_add, int_chk.
    rewrite !bind_run. unfold gets at 1. rewrite !bind_run. unfold modify at 1.
    rewrite !bind_run. unfold gets at 1. simpl.
    destruct (in_int (nextOrderId b8 + 1)); [|discriminate].
    simpl. intros H; inversion H; subst; simpl; split; congruence.
Qed.

(** X3: order ids are handed out in increasing order. An [addOrder] that
    succeeds returns the book's [nextOrderId] and advances it by one; and
    whatever calls are made in between, a later successful [addOrder] returns
    a strictly larger id. *)
Theorem order_ids_increase (cs : list api_call) (b0 b1 b2 b3 : OrderBook)
    (fuel1 fuel2 : nat) (price1 size1 price2 size2 : Z) (isBid1 isBid2 : bool)
    (id1 id2 : Z) :
  addOrder fuel1 price1 size1 isBid1 b0 = Ok ((true, id1), b1) →
  perform_all cs b1 = Ok (tt, b2) →
  addOrder fuel2 price2 size2 isBid2 b2 = Ok ((true, id2), b3) →
  id1 = nextOrderId b0 ∧ nextOrderId b1 = id1 + 1 ∧ id1 < id2.
Proof.
  intros H1 Hcs H2.
  apply addOrder_id in H1 as [-> Hn1]. apply addOrder_id in H2 as [-> _].
  destruct (book_le_perform_all cs _ _ _ Hcs) as (_ & _ & _ & Hle & _).
  repeat split; [exact Hn1 | lia].
Qed.

Lemma order_ids_increase_witness :
  1 = nextOrderId book_10 ∧ nextOrderId book_one_offer = 1 + 1 ∧ 1 < 2.
Proof.
  apply (order_ids_increase [CancelOrder 1] book_10 book_one_offer
           (default book_10 (after (perform_all [CancelOrder 1]) book_one_offer))
           (default book_10
              (after (perform_all [CancelOrder 1];; addOrder ample 3 1 true)
                 book_one_offer))
           ample ample 5 1 3 1 false true 1 2).
  - vm_compute. reflexivity.
  - vm_compute. reflexivity.
  - vm_compute. reflexivity.
Defined.

(** X4: accepted prices index the level vector. In a book built by the
    constructor with a positive increment, after any sequence of calls, the
    level vector still has [maxPrice / increment + 1] entries, so that the
    level of every price that [getIsOrderValid] accepts exists. *)
Theorem accepted_price_has_level (cs : list api_call) (maxPrice increment : Z)
    (b0 b : OrderBook) (price orderSize : Z) :
  OrderBook_new maxPrice increment = Ok b0 →
  0 < increment →
  perform_all cs b0 = Ok (tt, b) →
  length (orderLevels b) = Z.to_nat (Z.quot maxPrice increment + 1)
  ∧ (valid_order b price orderSize = true →
     ∃ l, level_at (Z.quot price (incr b)) b = Ok (l, b)).
Proof.
  intros Hnew Hinc Hcs.
  destruct (book_le_perform_all cs _ _ _ Hcs) as (Hm & Hi & Hl & _ & _).
  revert Hnew. unfold OrderBook_new.
  destruct (increment =? 0); [discriminate|].
  destruct ((maxPrice =? INT_MIN) && (increment =? -1)); [discriminate|].
  destruct (negb (Z.rem maxPrice increment =? 0)); [discriminate|].
  destruct (negb (in_int (Z.quot maxPrice increment + 1))); [discriminate|].
  destruct (Z.quot maxPrice increment + 1 <? 0) eqn:Hneg; [discriminate|].
  intros [= <-]. simpl in *. rewrite length_replicate in Hl.
  split; [exact Hl|].
  unfold valid_order. rewrite Hm, Hi. intros Hv.
  apply andb_prop in Hv as [Hv _]. apply andb_prop in Hv as [Hv _].
  apply andb_prop in Hv as [H0 H1].
  apply Z.leb_le in H0, H1. apply Z.ltb_ge in Hneg.
  assert (Hq : 0 <= Z.quot price increment <= Z.quot maxPrice increment).
  { split; [apply Z.quot_pos; lia | apply Z.quot_le_mono; lia]. }
  unfold level_at. rewrite (proj2 (Z.leb_le _ _) (proj1 Hq)).
  destruct (lookup_lt_is_Some_2 (orderLevels b) (Z.to_nat (Z.quot price increment)))
    as [l Hlk]; [lia|].
  exists l. rewrite Hlk. reflexivity.
Qed.

Lemma accepted_price_has_level_witness :
  length (orderLevels book_one_offer) = Z.to_nat (Z.quot 10 1 + 1)
  ∧ (valid_order book_one_offer 7 1 = true →
     ∃ l, level_at (Z.quot 7 (incr book_one_offer)) book_one_offer
          = Ok (l, book_one_offer)).
Proof.
  apply (accepted_price_has_level [AddOrder ample 5 1 false] 10 1 book_10
           book_one_offer 7 1).
  - reflexivity.
  - reflexivity.
  - vm_compute. reflexivity.
Defined.

(** *** What the steps of a call return *)

Lemma deref_ok (it : positive) (b b' : OrderBook) (o : LimitOrder) :
  deref it b = Ok (o, b') → nodes b !! it = Some o ∧ b' = b.
Proof.
  unfold deref. destruct (nodes b !! it); [|discriminate].
  intros [= <- <-]. auto.
Qed.

Lemma int_chk_ok (z z' : Z) (b b' : OrderBook) :
  int_chk z b = Ok (z', b') → z' = z ∧ in_int z = true ∧ b' = b.
Proof.
  unfold int_chk. destruct (in_int z); [|discriminate].
  intros [= <- <-]. auto.
Qed.

Lemma level_at_ok (i : Z) (b b' : OrderBook) (l : OrderLevel) :
  level_at i b = Ok (l, b') →
  0 <= i ∧ orderLevels b !! Z.to_nat i = Some l ∧ b' = b.
Proof.
  unfold level_at. destruct (0 <=? i) eqn:Hi; [|discriminate].
  destruct (orderLevels b !! Z.to_nat i); [|discriminate].
  intros [= <- <-]. apply Z.leb_le in Hi. auto.
Qed.

Lemma level_at_run (i : Z) (b : OrderBook) (l : OrderLevel) :
  0 <= i → orderLevels b !! Z.to_nat i = Some l → level_at i b = Ok (l, b).
Proof.
  intros Hi Hl. unfold level_at. rewrite (proj2 (Z.leb_le _ _) Hi), Hl. reflexivity.
Qed.

Lemma modify_level_ok (i : Z) (f : OrderLevel → OrderLevel) (b b' : OrderBook)
    (u : unit) :
  modify_level i f b = Ok (u, b') →
  ∃ l, 0 <= i ∧ orderLevels b !! Z.to_nat i = Some l
       ∧ b' = set_orderLevels (<[Z.to_nat i := f l]> (orderLevels b)) b.
Proof.
  unfold modify_level. intros H.
  apply bind_ok in H as (l & b1 & Hl & H).
  apply level_at_ok in Hl as (Hi & Hl & ->).
  inversion H; subst. eauto.
Qed.

Lemma modify_level_run (i : Z) (f : OrderLevel → OrderLevel) (b : OrderBook)
    (l : OrderLevel) :
  0 <= i → orderLevels b !! Z.to_nat i = Some l →
  modify_level i f b
  = Ok (tt, set_orderLevels (<[Z.to_nat i := f l]> (orderLevels b)) b).
Proof.
  intros Hi Hl. unfold modify_level. rewrite bind_run, (level_at_run _ _ _ Hi Hl).
  reflexivity.
Qed.

Lemma store_ok (it : positive) (o : LimitOrder) (b b' : OrderBook) (u : unit) :
  store it o b = Ok (u, b') →
  is_Some (nodes b !! it) ∧ b' = set_nodes (<[it := o]> (nodes b)) b.
Proof.
  unfold store. intros H. apply bind_ok in H as (o' & b1 & Ho & H).
  apply deref_ok in Ho as (Ho & ->). inversion H; subst. eauto.
Qed.

Lemma done_try_emplace_levels (k : Z) (s : OrderState) (b b' : OrderBook)
    (u : unit) :
  done_try_emplace k s b = Ok (u, b') → orderLevels b' = orderLevels b.
Proof.
  unfold done_try_emplace, modify. intros H. inversion H; subst.
  destruct (doneOrderMap b !! k); reflexivity.
Qed.

(** *** The fill at one level *)

(** The loop takes from the level's total what it takes from the incoming
    order, moves the iterator towards the end of the queue only, and stops at
    the end of the queue or with the incoming order used up. *)
Lemma fill_loop_levels (fuel : nat) (currIdx : Z) (currOrderIt : list positive)
    (orderSize : Z) (b b' : OrderBook) (l : OrderLevel) (rest : list positive)
    (orderSize' : Z) :
  orderLevels b !! Z.to_nat currIdx = Some l →
  fill_loop fuel currIdx currOrderIt orderSize b = Ok ((rest, orderSize'), b') →
  orderLevels b'
  = <[Z.to_nat currIdx := set_totalSize (totalSize l - (orderSize - orderSize')) l]>
      (orderLevels b)
  ∧ rest `suffix_of` currOrderIt
  ∧ (rest = [] ∨ orderSize' <= 0).
Proof.
  revert currOrderIt orderSize b l.
  induction fuel as [|fuel IH]; intros its sz b l Hl H; simpl in H; [discriminate|].
  assert (Hid : orderLevels b
                = <[Z.to_nat currIdx := set_totalSize (totalSize l - (sz - sz)) l]>
                    (orderLevels b)).
  { rewrite Z.sub_diag, Z.sub_0_r. destruct l. symmetry. apply list_insert_id, Hl. }
  destruct its as [|it its].
  { inversion H; subst. split; [exact Hid|]. split; [done | auto]. }
  destruct (0 <? sz) eqn:Hsz; simpl in H.
  2:{ inversion H; subst. apply Z.ltb_ge in Hsz.
      split; [exact Hid|]. split; [done | auto]. }
  clear Hid.
  apply bind_ok in H as (o & b1 & H1 & H). apply deref_ok in H1 as (Ho & ->).
  apply bind_ok in H as (sz1 & b1 & H1 & H). apply int_chk_ok in H1 as (-> & _ & ->).
  apply bind_ok in H as (rem & b1 & H1 & H). apply int_chk_ok in H1 as (-> & _ & ->).
  apply bind_ok in H as (v & b1 & H1 & H). apply int_chk_ok in H1 as (-> & _ & ->).
  apply bind_ok in H as (inc & b1 & H1 & H). inversion H1; subst inc b1. clear H1.
  apply bind_ok in H as (v & b1 & H1 & H). apply int_chk_ok in H1 as (-> & _ & ->).
  apply bind_ok in H as (fv & b1 & H1 & H). apply int_chk_ok in H1 as (-> & _ & ->).
  apply bind_ok in H as (u & b1 & H1 & H). apply store_ok in H1 as (_ & ->).
  apply bind_ok in H as (l1 & b1 & H1 & H). apply level_at_ok in H1 as (Hi & Hl1 & ->).
  simpl in Hl1. rewrite Hl in Hl1. inversion Hl1; subst l1. clear Hl1.
  apply bind_ok in H as (tot & b1 & H1 & H). apply int_chk_ok in H1 as (-> & _ & ->).
  apply bind_ok in H as (u' & b1 & H1 & H).
  apply modify_level_ok in H1 as (l1 & _ & Hl1 & ->).
  simpl in Hl1. rewrite Hl in Hl1. inversion Hl1; subst l1. clear Hl1.
  set (qty := Z.min sz (remainingSize o)) in *.
  assert (Hins : ∀ x,
    <[Z.to_nat currIdx := set_totalSize
        (totalSize (set_totalSize (totalSize l - qty) l) - (sz - qty - x))
        (set_totalSize (totalSize l - qty) l)]>
      (<[Z.to_nat currIdx := set_totalSize (totalSize l - qty) l]> (orderLevels b))
    = <[Z.to_nat currIdx := set_totalSize (totalSize l - (sz - x)) l]>
        (orderLevels b)).
  { intros x. rewrite list_insert_insert_eq. f_equal.
    unfold set_totalSize; simpl. f_equal. lia. }
  assert (Hl' : ∀ b0 : OrderBook,
    orderLevels b0
    = <[Z.to_nat currIdx := set_totalSize (totalSize l - qty) l]> (orderLevels b) →
    orderLevels b0 !! Z.to_nat currIdx = Some (set_totalSize (totalSize l - qty) l)).
  { intros b0 ->. apply list_lookup_insert_eq. eapply lookup_lt_Some, Hl. }
  destruct (remainingSize o - qty =? 0).
  - apply bind_ok in H as (u1 & b1 & H1 & H). inversion H1; subst b1. clear H1.
    apply bind_ok in H as (u2 & b1 & H1 & H).
    apply done_try_emplace_levels in H1. simpl in H1.
    destruct (IH _ _ _ _ (Hl' _ H1) H) as (He & Hsuf & Hstop).
    rewrite He, H1, Hins. split; [reflexivity|].
    split; [apply suffix_cons_r, Hsuf | exact Hstop].
  - edestruct IH as (He & Hsuf & Hstop); [|exact H|].
    { apply Hl'. reflexivity. }
    rewrite He. simpl. rewrite Hins. auto.
Qed.

(** The rest of the book that a fill at one level leaves as it is. *)
Lemma fill_keeps_endpoints (fuel : nat) (currIdx orderSize : Z) :
  keeps (λ b b', endpoints b' = endpoints b ∧ nextOrderId b' = nextOrderId b)
    (fillOrdersAtCurrIdx fuel currIdx orderSize).
Proof.
  apply keeps_fillOrdersAtCurrIdx; simpl; auto.
  intros b1 b2 b3 [-> ->] [-> ->]. auto.
Qed.

(** What a fill at one level returns, and the level vector it leaves. *)
Lemma fillOrdersAtCurrIdx_levels (fuel : nat) (currIdx orderSize : Z)
    (b b' : OrderBook) (newIdx orderSize' : Z) :
  fillOrdersAtCurrIdx fuel currIdx orderSize b = Ok ((newIdx, orderSize'), b') →
  ∃ l rest,
    orderLevels b !! Z.to_nat currIdx = Some l
    ∧ orderLevels b'
      = <[Z.to_nat currIdx :=
            mkOrderLevel rest (totalSize l - (orderSize - orderSize'))
              (nextIdx l) (prevIdx l)]> (orderLevels b)
    ∧ rest `suffix_of` orders l
    ∧ (rest = [] ∨ orderSize' <= 0)
    ∧ newIdx = (if totalSize l - (orderSize - orderSize') =? 0
                then prevIdx l else currIdx).
Proof.
  intros Hrun. unfold fillOrdersAtCurrIdx in Hrun.
  apply bind_ok in Hrun as (l & b1 & H1 & H). apply level_at_ok in H1 as (Hi & Hl & ->).
  apply bind_ok in H as ([rest sz'] & b1 & H1 & H).
  apply (fill_loop_levels _ _ _ _ _ _ _ _ _ Hl) in H1 as (He & Hsuf & Hstop).
  apply bind_ok in H as (u & b2 & H2 & H). inversion H2; subst b2. clear H2.
  apply bind_ok in H as (u' & b2 & H2 & H).
  apply modify_level_ok in H2 as (l1 & _ & Hl1 & ->).
  simpl in Hl1. rewrite He in Hl1.
  rewrite list_lookup_insert_eq in Hl1 by (eapply lookup_lt_Some, Hl).
  inversion Hl1; subst l1. clear Hl1.
  apply bind_ok in H as (l2 & b2 & H2 & H).
  apply level_at_ok in H2 as (_ & Hl2 & ->). simpl in Hl2.
  rewrite list_lookup_insert_eq in Hl2
    by (rewrite He, length_insert; eapply lookup_lt_Some, Hl).
  inversion Hl2; subst l2. clear Hl2. simpl in H.
  assert (orderSize' = sz') as -> by (destruct (_ =? 0); inversion H; reflexivity).
  exists l, rest. split; [exact Hl|].
  split.
  { destruct (_ =? 0); inversion H; subst; simpl;
      rewrite He, list_insert_insert_eq; reflexivity. }
  repeat (split; [assumption|]).
  destruct (_ =? 0); inversion H; reflexivity.
Qed.

(** X5: a fill at a price level takes from the level's total size exactly what
    it takes from the incoming order. The orders left in the level's queue are
    a suffix of the queue (orders leave from the front), the fill ends with an
    empty queue or with nothing left of the incoming order, prev/next links and
    all other levels are as before, and the index returned is the level's
    [prevIdx] when the total has become 0 and the level's own index
    otherwise. *)
Theorem fill_conserves_quantity (fuel : nat) (currIdx orderSize : Z)
    (b b' : OrderBook) (newIdx orderSize' : Z) :
  fillOrdersAtCurrIdx fuel currIdx orderSize b = Ok ((newIdx, orderSize'), b') →
  ∃ l rest,
    orderLevels b !! Z.to_nat currIdx = Some l
    ∧ orderLevels b'
      = <[Z.to_nat currIdx :=
            mkOrderLevel rest (totalSize l - (orderSize - orderSize'))
              (nextIdx l) (prevIdx l)]> (orderLevels b)
    ∧ rest `suffix_of` orders l
    ∧ (rest = [] ∨ orderSize' <= 0)
    ∧ newIdx = (if totalSize l - (orderSize - orderSize') =? 0
                then prevIdx l else currIdx)
    ∧ endpoints b' = endpoints b
    ∧ nextOrderId b' = nextOrderId b.
Proof.
  intros Hrun.
  destruct (fillOrdersAtCurrIdx_levels _ _ _ _ _ _ _ Hrun)
    as (l & rest & Hl & Hlev & Hsuf & Hstop & Hidx).
  destruct (fill_keeps_endpoints _ _ _ _ _ _ Hrun) as [Hend Hnext].
  exists l, rest. split_and!; assumption.
Qed.

Lemma fill_conserves_quantity_witness :
  ∃ l rest,
    orderLevels book_before_fill !! Z.to_nat 2 = Some l
    ∧ orderLevels
        (default book_before_fill
           (after (fillOrdersAtCurrIdx ample 2 1) book_before_fill))
      = <[Z.to_nat 2 :=
            mkOrderLevel rest (totalSize l - (1 - 0)) (nextIdx l) (prevIdx l)]>
          (orderLevels book_before_fill)
    ∧ rest `suffix_of` orders l
    ∧ (rest = [] ∨ 0 <= 0)
    ∧ -1 = (if totalSize l - (1 - 0) =? 0 then prevIdx l else 2)
    ∧ endpoints
        (default book_before_fill
           (after (fillOrdersAtCurrIdx ample 2 1) book_before_fill))
      = endpoints book_before_fill
    ∧ nextOrderId
        (default book_before_fill
           (after (fillOrdersAtCurrIdx ample 2 1) book_before_fill))
      = nextOrderId book_before_fill.
Proof.
  apply (fill_conserves_quantity ample 2 1 book_before_fill).
  vm_compute. reflexivity.
Defined.

(** *** Termination of the fill loop *)

Lemma bind_out_of_fuel {A B : Type} (m : M A) (f : A → M B) (b : OrderBook) :
  (m ≫= f) b = OutOfFuel →
  m b = OutOfFuel ∨ ∃ a b1, m b = Ok (a, b1) ∧ f a b1 = OutOfFuel.
Proof.
  rewrite bind_run. destruct (m b) as [[a b1]| | | |]; try discriminate; eauto.
Qed.

Lemma int_chk_fuel (z : Z) (b : OrderBook) : int_chk z b ≠ OutOfFuel.
Proof. unfold int_chk. destruct (in_int z); discriminate. Qed.

Lemma deref_fuel (it : positive) (b : OrderBook) : deref it b ≠ OutOfFuel.
Proof. unfold deref. destruct (nodes b !! it); discriminate. Qed.

Lemma level_at_fuel (i : Z) (b : OrderBook) : level_at i b ≠ OutOfFuel.
Proof.
  unfold level_at. destruct (0 <=? i); [|discriminate].
  destruct (orderLevels b !! Z.to_nat i); discriminate.
Qed.

Lemma modify_level_fuel (i : Z) (f : OrderLevel → OrderLevel) (b : OrderBook) :
  modify_level i f b ≠ OutOfFuel.
Proof.
  unfold modify_level. intros H.
  apply bind_out_of_fuel in H as [H|(l & b1 & _ & H)]; [|discriminate].
  exact (level_at_fuel _ _ H).
Qed.

Lemma store_fuel (it : positive) (o : LimitOrder) (b : OrderBook) :
  store it o b ≠ OutOfFuel.
Proof.
  unfold store. intros H.
  apply bind_out_of_fuel in H as [H|(l & b1 & _ & H)]; [|discriminate].
  exact (deref_fuel _ _ H).
Qed.

(** Every iteration but the last exhausts the order at the iterator or the
    incoming order. *)
Lemma fill_loop_fuel (fuel : nat) (currIdx : Z) (currOrderIt : list positive)
    (orderSize : Z) (b : OrderBook) :
  (length currOrderIt < fuel)%nat →
  fill_loop fuel currIdx currOrderIt orderSize b ≠ OutOfFuel.
Proof.
  revert currOrderIt orderSize b.
  induction fuel as [|fuel IH]; intros its sz b Hlen; [lia|]. simpl.
  destruct its as [|it its]; [discriminate|].
  destruct (0 <? sz) eqn:Hsz; simpl; [|discriminate]. intros H.
  apply bind_out_of_fuel in H as [H|(o & b1 & H1 & H)]; [exact (deref_fuel _ _ H)|].
  apply deref_ok in H1 as (_ & ->).
  apply bind_out_of_fuel in H as [H|(sz1 & b1 & H1 & H)]; [exact (int_chk_fuel _ _ H)|].
  apply int_chk_ok in H1 as (-> & _ & ->).
  apply bind_out_of_fuel in H as [H|(rem & b1 & H1 & H)]; [exact (int_chk_fuel _ _ H)|].
  apply int_chk_ok in H1 as (-> & _ & ->).
  apply bind_out_of_fuel in H as [H|(v & b1 & H1 & H)]; [exact (int_chk_fuel _ _ H)|].
  apply int_chk_ok in H1 as (-> & _ & ->).
  apply bind_out_of_fuel in H as [H|(inc & b1 & H1 & H)]; [discriminate|].
  inversion H1; subst inc b1. clear H1.
  apply bind_out_of_fuel in H as [H|(v & b1 & H1 & H)]; [exact (int_chk_fuel _ _ H)|].
  apply int_chk_ok in H1 as (-> & _ & ->).
  apply bind_out_of_fuel in H as [H|(fv & b1 & H1 & H)]; [exact (int_chk_fuel _ _ H)|].
  apply int_chk_ok in H1 as (-> & _ & ->).
  apply bind_out_of_fuel in H as [H|(u & b1 & H1 & H)]; [exact (store_fuel _ _ _ H)|].
  clear H1.
  apply bind_out_of_fuel in H as [H|(l & b2 & H1 & H)]; [exact (level_at_fuel _ _ H)|].
  clear H1.
  apply bind_out_of_fuel in H as [H|(tot & b3 & H1 & H)]; [exact (int_chk_fuel _ _ H)|].
  clear H1.
  apply bind_out_of_fuel in H as [H|(u' & b4 & H1 & H)];
    [exact (modify_level_fuel _ _ _ H)|].
  clear H1. simpl in Hlen.
  destruct (remainingSize o - Z.min sz (remainingSize o) =? 0) eqn:Hrem.
  - apply bind_out_of_fuel in H as [H|(u1 & b5 & _ & H)]; [discriminate|].
    apply bind_out_of_fuel in H as [H|(u2 & b6 & _ & H)]; [discriminate|].
    revert H. apply IH. lia.
  - destruct fuel as [|fuel]; [lia|]. simpl in H.
    apply Z.eqb_neq in Hrem.
    replace (0 <? sz - Z.min sz (remainingSize o)) with false in H
      by (symmetry; apply Z.ltb_ge; lia).
    discriminate.
Qed.

(** X6: the fill at a level terminates. With a loop bound above the number of
    orders queued at the level, [fillOrdersAtCurrIdx] does not stop at the
    bound: the loop makes at most one iteration more than there are orders. *)
Theorem fill_terminates (fuel : nat) (currIdx orderSize : Z) (b : OrderBook)
    (l : OrderLevel) :
  orderLevels b !! Z.to_nat currIdx = Some l →
  (length (orders l) < fuel)%nat →
  fillOrdersAtCurrIdx fuel currIdx orderSize b ≠ OutOfFuel.
Proof.
  intros Hl Hlen H. unfold fillOrdersAtCurrIdx in H.
  apply bind_out_of_fuel in H as [H|(l1 & b1 & H1 & H)]; [exact (level_at_fuel _ _ H)|].
  apply level_at_ok in H1 as (_ & Hl1 & ->).
  rewrite Hl in Hl1. inversion Hl1; subst l1. clear Hl1.
  apply bind_out_of_fuel in H as [H|([its sz] & b1 & H1 & H)].
  { exact (fill_loop_fuel _ _ _ _ _ Hlen H). }
  clear H1.
  apply bind_out_of_fuel in H as [H|(u & b2 & _ & H)]; [discriminate|].
  apply bind_out_of_fuel in H as [H|(u' & b3 & _ & H)];
    [exact (modify_level_fuel _ _ _ H)|].
  apply bind_out_of_fuel in H as [H|(l2 & b4 & _ & H)]; [exact (level_at_fuel _ _ H)|].
  destruct (totalSize l2 =? 0); discriminate.
Qed.

Lemma fill_terminates_witness :
  fillOrdersAtCurrIdx 2 2 1 book_before_fill ≠ OutOfFuel.
Proof.
  apply (fill_terminates 2 2 1 book_before_fill (mkOrderLevel [1%positive] 1 (-1) (-1))).
  - reflexivity.
  - simpl. lia.
Defined.

(** *** An order that joins a level *)

Lemma int_chk_run (z : Z) (b : OrderBook) :
  in_int z = true → int_chk z b = Ok (z, b).
Proof. intros H. unfold int_chk. rewrite H. reflexivity. Qed.

Lemma int_div_run (x y : Z) (b : OrderBook) :
  y ≠ 0 → in_int (Z.quot x y) = true → int_div x y b = Ok (Z.quot x y, b).
Proof.
  intros Hy H. unfold int_div. rewrite (proj2 (Z.eqb_neq _ _) Hy).
  apply int_chk_run, H.
Qed.

Lemma matching_no_cross (fuel : nat) (isBid : bool) (newIdx orderSize : Z)
    (b : OrderBook) :
  fuel ≠ O → no_cross isBid newIdx b → 0 < orderSize →
  (if isBid then
     currOfferIdx ← gets lastOfferIdx;
     '(currOfferIdx, orderSize, filledValue) ←
       match_loop fuel true newIdx currOfferIdx orderSize 0;
     modify (set_lastOfferIdx currOfferIdx);;
     when (currOfferIdx <? 0) (modify (set_firstOfferIdx currOfferIdx));;
     mret (orderSize, filledValue)
   else
     currBidIdx ← gets lastBidIdx;
     '(currBidIdx, orderSize, filledValue) ←
       match_loop fuel false newIdx currBidIdx orderSize 0;
     modify (set_lastBidIdx currBidIdx);;
     when (currBidIdx <? 0) (modify (set_firstBidIdx currBidIdx));;
     mret (orderSize, filledValue)) b
  = Ok ((orderSize, 0), after_no_match isBid b).
Proof.
  intros Hfuel Hcross Hsz. destruct fuel as [|fuel]; [done|].
  unfold no_cross, after_no_match in *. destruct isBid.
  - rewrite bind_run. unfold gets at 1. rewrite bind_run. simpl match_loop.
    replace ((0 <=? lastOfferIdx b) && (lastOfferIdx b <=? newIdx) && (0 <? orderSize))
      with false by (symmetry; rewrite !andb_false_iff, !Z.leb_gt; lia).
    simpl. rewrite bind_run. unfold modify at 1. rewrite bind_run.
    destruct b; simpl. destruct (lastOfferIdx0 <? 0); reflexivity.
  - rewrite bind_run. unfold gets at 1. rewrite bind_run. simpl match_loop.
    replace ((0 <=? lastBidIdx b) && (newIdx <=? lastBidIdx b) && (0 <? orderSize))
      with false by (symmetry; rewrite !andb_false_iff, !Z.leb_gt; lia).
    simpl. rewrite bind_run. unfold modify at 1. rewrite bind_run.
    destruct b; simpl. destruct (lastBidIdx0 <? 0); reflexivity.
Qed.

Lemma after_no_match_fields (isBid : bool) (b : OrderBook) :
  maxP (after_no_match isBid b) = maxP b
  ∧ incr (after_no_match isBid b) = incr b
  ∧ nextOrderId (after_no_match isBid b) = nextOrderId b
  ∧ orderLevels (after_no_match isBid b) = orderLevels b
  ∧ lastBidIdx (after_no_match isBid b) = lastBidIdx b
  ∧ lastOfferIdx (after_no_match isBid b) = lastOfferIdx b
  ∧ activeOrderMap (after_no_match isBid b) = activeOrderMap b
  ∧ doneOrderMap (after_no_match isBid b) = doneOrderMap b
  ∧ nodes (after_no_match isBid b) = nodes b
  ∧ nextNode (after_no_match isBid b) = nextNode b.
Proof.
  unfold after_no_match.
  destruct isBid; [destruct (lastOfferIdx b <? 0) | destruct (lastBidIdx b <? 0)];
    simpl; auto 20.
Qed.

Lemma valid_order_index (b : OrderBook) (price orderSize : Z) :
  0 < incr b → valid_order b price orderSize = true → in_int price = true →
  0 < orderSize ∧ 0 <= Z.quot price (incr b)
  ∧ in_int (Z.quot price (incr b)) = true.
Proof.
  intros Hincr Hvalid Hint. unfold valid_order in Hvalid.
  apply andb_prop in Hvalid as [H Hsz]. apply Z.ltb_lt in Hsz.
  apply andb_prop in H as [H _]. apply andb_prop in H as [H _].
  apply Z.leb_le in H.
  assert (Hq : 0 <= Z.quot price (incr b) <= price).
  { split; [apply Z.quot_pos; lia|]. apply Z.quot_le_upper_bound; nia. }
  repeat split; try lia.
  revert Hint. unfold in_int, INT_MIN, INT_MAX.
  rewrite !andb_true_iff, !Z.leb_le. lia.
Qed.

Lemma list_push_back_run (i : Z) (o : LimitOrder) (b : OrderBook) (l : OrderLevel) :
  0 <= i → orderLevels b !! Z.to_nat i = Some l →
  list_push_back i o b
  = Ok (nextNode b,
        set_orderLevels
          (<[Z.to_nat i := set_orders (orders l ++ [nextNode b]) l]> (orderLevels b))
          (set_nextNode (Pos.succ (nextNode b))
             (set_nodes (<[nextNode b := o]> (nodes b)) b))).
Proof.
  intros Hi Hl. unfold list_push_back.
  rewrite bind_run. unfold gets at 1. rewrite bind_run. unfold modify at 1.
  rewrite bind_run, (modify_level_run _ _ _ l Hi) by exact Hl. reflexivity.
Qed.

Lemma addOrder_joins_run (fuel : nat) (price orderSize : Z) (isBid : bool)
    (b : OrderBook) (l : OrderLevel) :
  0 < incr b →
  valid_order b price orderSize = true →
  in_int price = true →
  fuel ≠ O →
  no_cross isBid (Z.quot price (incr b)) b →
  orderLevels b !! Z.to_nat (Z.quot price (incr b)) = Some l →
  totalSize l ≠ 0 →
  in_int (totalSize l + orderSize) = true →
  in_int (nextOrderId b + 1) = true →
  addOrder fuel price orderSize isBid b
  = Ok ((true, nextOrderId b), after_join isBid price orderSize l b).
Proof.
  intros Hincr Hvalid Hint Hfuel Hcross Hl Hnz Htot Hid.
  destruct (valid_order_index _ _ _ Hincr Hvalid Hint) as (Hsz & Hpos & Hidx).
  destruct (after_no_match_fields isBid b)
    as (Em & Ei & En & El & Elb & Elo & Ea & Ed & Eno & Enn).
  unfold addOrder.
  rewrite bind_run, getIsOrderValid_run, Hvalid by lia. cbn [negb]. cbv beta iota.
  rewrite bind_run. unfold gets at 1. cbv beta iota.
  rewrite bind_run, int_div_run by (lia || done). cbv beta iota.
  rewrite bind_run, matching_no_cross by done. cbv beta iota.
  replace (orderSize =? 0) with false by (symmetry; apply Z.eqb_neq; lia).
  set (b0 := after_no_match isBid b) in *.
  rewrite bind_run, (level_at_run _ _ l) by (rewrite ?El; done). cbv beta iota.
  replace (totalSize l =? 0) with false by (symmetry; apply Z.eqb_neq; done).
  rewrite bind_run. unfold when at 1. cbv beta iota.
  unfold mret at 1, M_ret at 1. cbv beta iota.
  rewrite bind_run, (list_push_back_run _ _ _ l) by (rewrite ?El; done).
  cbv beta iota.
  rewrite bind_run, (level_at_run _ _ (set_orders (orders l ++ [nextNode b0]) l));
    [|done|simpl; apply list_lookup_insert_eq; rewrite El; eapply lookup_lt_Some, Hl].
  cbv beta iota.
  rewrite bind_run. unfold int_add. cbn [totalSize set_orders].
  rewrite int_chk_run by done. cbv beta iota.
  rewrite bind_run, (modify_level_run _ _ _ (set_orders (orders l ++ [nextNode b0]) l));
    [|done|simpl; apply list_lookup_insert_eq; rewrite El; eapply lookup_lt_Some, Hl].
  cbv beta iota.
  rewrite bind_run. unfold gets at 1. cbv beta iota.
  rewrite bind_run. unfold active_insert_or_assign, modify at 1. cbv beta iota.
  unfold take_nextOrderId. rewrite bind_run, bind_run. unfold gets at 1.
  cbv beta iota.
  rewrite bind_run. unfold int_add. cbn [nextOrderId set_activeOrderMap set_orderLevels set_nextNode set_nodes]. rewrite En.
  rewrite int_chk_run by done. cbv beta iota. rewrite bind_run.
  unfold modify at 1. cbv beta iota.
  unfold after_join. fold b0. unfold mret, M_ret.
  unfold set_nextOrderId, set_activeOrderMap, set_orderLevels, set_nextNode,
    set_nodes, set_totalSize, set_orders. simpl.
  rewrite ?list_insert_insert_eq, ?Ea, ?Ed, ?Eno, ?Enn, ?El, ?Em, ?Ei, ?Elb, ?Elo.
  reflexivity.
Qed.

(** *** Cancelling an order of a level that stays in use *)

Lemma list_erase_run (i : Z) (it : positive) (b : OrderBook) (l : OrderLevel) :
  0 <= i → orderLevels b !! Z.to_nat i = Some l → it ∈ orders l →
  list_erase i it b
  = Ok (tt, set_nodes (delete it (nodes b))
              (set_orderLevels
                 (<[Z.to_nat i := set_orders (filter (λ x, x ≠ it) (orders l)) l]>
                    (orderLevels b)) b)).
Proof.
  intros Hi Hl Hin. unfold list_erase.
  rewrite bind_run, (level_at_run _ _ l) by done. cbv beta iota.
  rewrite bool_decide_eq_true_2 by done.
  rewrite bind_run, (modify_level_run _ _ _ l) by done. reflexivity.
Qed.

Lemma cancelOrder_leaves_run (orderId : Z) (b : OrderBook) (it : positive)
    (o : LimitOrder) (l : OrderLevel) :
  activeOrderMap b !! orderId = Some it →
  nodes b !! it = Some o →
  in_int (originalSize o - remainingSize o) = true →
  incr b ≠ 0 →
  0 <= Z.quot (price o) (incr b) →
  in_int (Z.quot (price o) (incr b)) = true →
  orderLevels b !! Z.to_nat (Z.quot (price o) (incr b)) = Some l →
  it ∈ orders l →
  in_int (totalSize l - remainingSize o) = true →
  totalSize l - remainingSize o ≠ 0 →
  cancelOrder orderId b
  = Ok ((true,
         mkOrderState (originalSize o - remainingSize o)
           (of_int (filledValue o) / of_int (originalSize o - remainingSize o))%float),
        after_leave orderId it o (Z.quot (price o) (incr b)) l b).
Proof.
  intros Ha Hn Hfilled Hincr Hpos Hidx Hl Hin Htot Hnz.
  unfold cancelOrder.
  rewrite bind_run, (getOrderStatus_active _ _ _ _ Ha Hn Hfilled). cbn [negb].
  cbv beta iota.
  rewrite bind_run. unfold active_at at 1. rewrite Ha. cbv beta iota.
  rewrite bind_run. unfold deref at 1. rewrite Hn. cbv beta iota.
  rewrite bind_run. unfold gets at 1. cbv beta iota.
  rewrite bind_run, int_div_run by done. cbv beta iota.
  rewrite bind_run, (level_at_run _ _ l) by done. cbv beta iota.
  rewrite bind_run. unfold int_sub. rewrite int_chk_run by done. cbv beta iota.
  rewrite bind_run, (modify_level_run _ _ _ l) by done. cbv beta iota.
  rewrite bind_run,
    (list_erase_run _ _ _ (set_totalSize (totalSize l - remainingSize o) l));
    [|done|simpl; apply list_lookup_insert_eq; eapply lookup_lt_Some, Hl|done].
  cbv beta iota.
  rewrite bind_run. unfold active_erase, modify at 1. cbv beta iota.
  rewrite bind_run,
    (level_at_run _ _
       (set_orders (filter (λ x, x ≠ it) (orders l))
          (set_totalSize (totalSize l - remainingSize o) l)));
    [|done|simpl; apply list_lookup_insert_eq; rewrite length_insert;
           eapply lookup_lt_Some, Hl].
  cbv beta iota. cbn [totalSize set_orders set_totalSize].
  replace (totalSize l - remainingSize o =? 0) with false
    by (symmetry; apply Z.eqb_neq; done).
  rewrite bind_run. unfold when, mret, M_ret. cbv beta iota.
  unfold after_leave, set_activeOrderMap, set_nodes, set_orderLevels,
    set_totalSize, set_orders. simpl.
  rewrite ?list_insert_insert_eq. reflexivity.
Qed.

Lemma filter_ne_app_fresh (it : positive) (its : list positive) :
  it ∉ its → filter (λ x, x ≠ it) (its ++ [it]) = its.
Proof.
  intros Hnot. rewrite filter_app.
  rewrite (filter_cons_False _ it []) by (intros H; apply H; reflexivity).
  rewrite filter_nil, app_nil_r.
  induction its as [|x its IH]; [reflexivity|].
  rewrite not_elem_of_cons in Hnot. destruct Hnot as [Hx Hnot].
  rewrite filter_cons_True by congruence. f_equal. apply IH, Hnot.
Qed.

Lemma add_then_cancel_run (fuel : nat) (price orderSize : Z) (isBid : bool)
    (b : OrderBook) (l : OrderLevel) :
  0 < incr b →
  valid_order b price orderSize = true →
  in_int price = true →
  fuel ≠ O →
  no_cross isBid (Z.quot price (incr b)) b →
  orderLevels b !! Z.to_nat (Z.quot price (incr b)) = Some l →
  totalSize l ≠ 0 →
  in_int (totalSize l) = true →
  in_int (totalSize l + orderSize) = true →
  in_int (nextOrderId b + 1) = true →
  fresh_node b l →
  activeOrderMap b !! nextOrderId b = None →
  ('(_, id) ← addOrder fuel price orderSize isBid; cancelOrder id) b
  = Ok ((true, mkOrderState 0 (of_int 0 / of_int 0)%float),
        set_nextOrderId (nextOrderId b + 1)
          (set_nextNode (Pos.succ (nextNode b)) (after_no_match isBid b))).
Proof.
  intros Hincr Hvalid Hint Hfuel Hcross Hl Hnz Hltot Htot Hid [Hfresh Hnotin] Hact.
  destruct (valid_order_index _ _ _ Hincr Hvalid Hint) as (Hsz & Hpos & Hidx).
  rewrite bind_run, (addOrder_joins_run _ _ _ _ _ l) by done. cbv beta iota.
  rewrite (cancelOrder_leaves_run _ _ (nextNode b)
             (mkLimitOrder price orderSize orderSize 0)
             (mkOrderLevel (orders l ++ [nextNode b]) (totalSize l + orderSize)
                (nextIdx l) (prevIdx l))); simpl.
  - rewrite Z.sub_diag. f_equal. f_equal.
    unfold after_leave, after_join. simpl.
    rewrite filter_ne_app_fresh by done.
    rewrite list_insert_insert_eq, Z.add_simpl_r.
    rewrite (list_insert_id _ _ (mkOrderLevel (orders l) (totalSize l) (nextIdx l)
                                   (prevIdx l))) by (destruct l; exact Hl).
    rewrite delete_insert_id by done. rewrite delete_insert_id by done.
    destruct (after_no_match_fields isBid b)
      as (Em & Ei & En & El & Elb & Elo & Ea & Ed & Eno & Enn).
    unfold set_nextOrderId, set_nextNode. simpl.
    rewrite Em, Ei, El, Elb, Elo, Ea, Ed, Eno. reflexivity.
  - apply lookup_insert_eq.
  - apply lookup_insert_eq.
  - rewrite Z.sub_diag. reflexivity.
  - lia.
  - done.
  - done.
  - apply list_lookup_insert_eq. eapply lookup_lt_Some, Hl.
  - apply elem_of_app. right. apply list_elem_of_singleton. reflexivity.
  - rewrite Z.add_simpl_r. done.
  - lia.
Qed.

(** *** The views read four members only *)

Lemma same_views_refl (b : OrderBook) : same_views b b.
Proof. unfold same_views. auto. Qed.

Lemma reads_views_pure {A : Type} (m : M A) (b b' : OrderBook) (a : A) :
  reads_views m → m b = Ok (a, b') → b' = b.
Proof.
  intros Hm H. pose proof (Hm b b (same_views_refl b)) as Hb.
  rewrite H in Hb. congruence.
Qed.

Lemma reads_views_result {A : Type} (m : M A) (b b' : OrderBook) :
  reads_views m → same_views b b' → result m b' = result m b.
Proof.
  intros Hm Hv. unfold result. rewrite (Hm b b' Hv).
  destruct (m b) as [[a b1]| | | |]; reflexivity.
Qed.

Lemma reads_bind {A B : Type} (m : M A) (f : A → M B) :
  reads_views m → (∀ a, reads_views (f a)) → reads_views (m ≫= f).
Proof.
  intros Hm Hf b b' Hv. rewrite !bind_run, (Hm b b' Hv).
  destruct (m b) as [[a b1]| | | |] eqn:E; try reflexivity.
  apply (reads_views_pure _ _ _ _ Hm) in E as ->. apply Hf, Hv.
Qed.

Lemma reads_ret {A : Type} (a : A) : reads_views (mret a).
Proof. intros b b' _. reflexivity. Qed.

Lemma reads_out_of_fuel {A : Type} : reads_views (@out_of_fuel A).
Proof. intros b b' _. reflexivity. Qed.

Lemma reads_gets {A : Type} (f : OrderBook → A) :
  (∀ b b', same_views b b' → f b' = f b) → reads_views (gets f).
Proof. intros Hf b b' Hv. unfold gets. rewrite (Hf b b' Hv). reflexivity. Qed.

Lemma reads_int_chk (z : Z) : reads_views (int_chk z).
Proof. intros b b' _. unfold int_chk. destruct (in_int z); reflexivity. Qed.

Lemma reads_level_at (i : Z) : reads_views (level_at i).
Proof.
  intros b b' (_ & Hl & _ & _). unfold level_at. rewrite Hl.
  destruct (0 <=? i); [|reflexivity].
  destruct (orderLevels b !! Z.to_nat i); reflexivity.
Qed.

Lemma reads_best_level (i : Z) :
  reads_views (if 0 <=? i then
                 inc ← gets incr;
                 p ← int_mul i inc;
                 l ← level_at i;
                 mret (mkPriceLevel p (totalSize l))
               else mret noPriceLevel).
Proof.
  destruct (0 <=? i); [|apply reads_ret].
  apply reads_bind; [apply reads_gets; intros b b' Hv; apply Hv|]. intros inc.
  apply reads_bind; [apply reads_int_chk|]. intros p.
  apply reads_bind; [apply reads_level_at|]. intros l. apply reads_ret.
Qed.

Lemma reads_getL1OrderData : reads_views getL1OrderData.
Proof.
  unfold getL1OrderData.
  apply reads_bind; [apply reads_gets; intros b b' Hv; apply Hv|]. intros lastBid.
  apply reads_bind; [apply reads_best_level|]. intros bestBid.
  apply reads_bind; [apply reads_gets; intros b b' Hv; apply Hv|]. intros lastOffer.
  apply reads_bind; [apply reads_best_level|]. intros bestOffer.
  apply reads_ret.
Qed.

Lemma reads_l2_walk (fuel : nat) (i : Z) (acc : list PriceLevel) :
  reads_views (l2_walk fuel i acc).
Proof.
  revert i acc. induction fuel as [|fuel IH]; intros i acc; simpl.
  - apply reads_out_of_fuel.
  - destruct (0 <=? i); [|apply reads_ret].
    apply reads_bind; [apply reads_gets; intros b b' Hv; apply Hv|]. intros inc.
    apply reads_bind; [apply reads_int_chk|]. intros p.
    apply reads_bind; [apply reads_level_at|]. intros l. apply IH.
Qed.

Lemma reads_getL2OrderData (fuel : nat) : reads_views (getL2OrderData fuel).
Proof.
  unfold getL2OrderData.
  apply reads_bind; [apply reads_gets; intros b b' Hv; apply Hv|]. intros lastBid.
  apply reads_bind; [apply reads_l2_walk|]. intros bids.
  apply reads_bind; [apply reads_gets; intros b b' Hv; apply Hv|]. intros lastOffer.
  apply reads_bind; [apply reads_l2_walk|]. intros offers.
  apply reads_ret.
Qed.

Example book_two_in_queue_built :
  after (addOrder ample 5 2 false;; addOrder ample 5 3 false) book_10
  = Some book_two_in_queue.
Proof. vm_compute. reflexivity. Qed.

(** X7: time priority. An accepted order that does not reach the best price
    of the other side and whose price level is in use is put at the back of
    the level's queue with its whole size remaining: the level's total grows
    by the order's size, the order becomes active under the book's next order
    id, and the done map, the level's links and the best bid and offer indices
    stay as they are. *)
Theorem addOrder_joins_queue (fuel : nat) (price orderSize : Z) (isBid : bool)
    (b : OrderBook) (l : OrderLevel) :
  0 < incr b →
  valid_order b price orderSize = true →
  in_int price = true →
  fuel ≠ O →
  no_cross isBid (Z.quot price (incr b)) b →
  orderLevels b !! Z.to_nat (Z.quot price (incr b)) = Some l →
  totalSize l ≠ 0 →
  in_int (totalSize l + orderSize) = true →
  in_int (nextOrderId b + 1) = true →
  ∃ b',
    addOrder fuel price orderSize isBid b = Ok ((true, nextOrderId b), b')
    ∧ orderLevels b'
      = <[Z.to_nat (Z.quot price (incr b)) :=
            mkOrderLevel (orders l ++ [nextNode b]) (totalSize l + orderSize)
              (nextIdx l) (prevIdx l)]> (orderLevels b)
    ∧ nodes b' = <[nextNode b := mkLimitOrder price orderSize orderSize 0]> (nodes b)
    ∧ activeOrderMap b' = <[nextOrderId b := nextNode b]> (activeOrderMap b)
    ∧ doneOrderMap b' = doneOrderMap b
    ∧ lastBidIdx b' = lastBidIdx b
    ∧ lastOfferIdx b' = lastOfferIdx b
    ∧ nextOrderId b' = nextOrderId b + 1.
Proof.
  intros Hincr Hvalid Hint Hfuel Hcross Hl Hnz Htot Hid.
  exists (after_join isBid price orderSize l b).
  split; [apply addOrder_joins_run; assumption|].
  unfold after_join. simpl. auto 10.
Qed.

Lemma addOrder_joins_queue_witness :
  ∃ b',
    addOrder ample 5 2 false book_one_offer = Ok ((true, 2), b')
    ∧ orderLevels b'
      = <[5%nat := mkOrderLevel [1%positive; 2%positive] 3 (-1) (-1)]>
          (orderLevels book_one_offer)
    ∧ nodes b' = <[2%positive := mkLimitOrder 5 2 2 0]> (nodes book_one_offer)
    ∧ activeOrderMap b' = <[2 := 2%positive]> (activeOrderMap book_one_offer)
    ∧ doneOrderMap b' = doneOrderMap book_one_offer
    ∧ lastBidIdx b' = lastBidIdx book_one_offer
    ∧ lastOfferIdx b' = lastOfferIdx book_one_offer
    ∧ nextOrderId b' = nextOrderId book_one_offer + 1.
Proof.
  apply (addOrder_joins_queue ample 5 2 false book_one_offer
           (mkOrderLevel [1%positive] 1 (-1) (-1))).
  - reflexivity.
  - reflexivity.
  - reflexivity.
  - discriminate.
  - left. reflexivity.
  - reflexivity.
  - discriminate.
  - reflexivity.
  - reflexivity.
Defined.

(** X8: cancelling one order of several. When the level of a live active
    order stays in use, [cancelOrder] returns true with the order's state,
    takes the order out of the level's queue without reordering the others,
    lowers the level's total by the order's remaining size, and erases its
    active entry; links, best indices, the done map and the next order id stay
    as they are. No done entry is made: afterwards [getOrderStatus] reports
    the id as inactive with whatever the done map held under it, the unknown
    sentinel if nothing. *)
Theorem cancelOrder_leaves_queue (orderId : Z) (b : OrderBook) (it : positive)
    (o : LimitOrder) (l : OrderLevel) :
  activeOrderMap b !! orderId = Some it →
  nodes b !! it = Some o →
  in_int (originalSize o - remainingSize o) = true →
  incr b ≠ 0 →
  0 <= Z.quot (price o) (incr b) →
  in_int (Z.quot (price o) (incr b)) = true →
  orderLevels b !! Z.to_nat (Z.quot (price o) (incr b)) = Some l →
  it ∈ orders l →
  in_int (totalSize l - remainingSize o) = true →
  totalSize l - remainingSize o ≠ 0 →
  ∃ b',
    cancelOrder orderId b
    = Ok ((true,
           mkOrderState (originalSize o - remainingSize o)
             (of_int (filledValue o)
              / of_int (originalSize o - remainingSize o))%float), b')
    ∧ orderLevels b'
      = <[Z.to_nat (Z.quot (price o) (incr b)) :=
            mkOrderLevel (filter (λ x, x ≠ it) (orders l))
              (totalSize l - remainingSize o) (nextIdx l) (prevIdx l)]>
          (orderLevels b)
    ∧ nodes b' = delete it (nodes b)
    ∧ activeOrderMap b' = delete orderId (activeOrderMap b)
    ∧ doneOrderMap b' = doneOrderMap b
    ∧ endpoints b' = endpoints b
    ∧ nextOrderId b' = nextOrderId b
    ∧ getOrderStatus orderId b'
      = Ok ((false, default unknownState (doneOrderMap b !! orderId)), b').
Proof.
  intros Ha Hn Hfilled Hincr Hpos Hidx Hl Hin Htot Hnz.
  exists (after_leave orderId it o (Z.quot (price o) (incr b)) l b).
  split; [apply cancelOrder_leaves_run; assumption|].
  repeat (split; [reflexivity|]).
  rewrite getOrderStatus_inactive by (simpl; apply lookup_delete_eq).
  reflexivity.
Qed.

Lemma cancelOrder_leaves_queue_witness :
  ∃ b',
    cancelOrder 1 book_two_in_queue
    = Ok ((true, mkOrderState 0 (of_int 0 / of_int 0)%float), b')
    ∧ orderLevels b'
      = <[5%nat := mkOrderLevel [2%positive] 3 (-1) (-1)]>
          (orderLevels book_two_in_queue)
    ∧ nodes b' = delete 1%positive (nodes book_two_in_queue)
    ∧ activeOrderMap b' = delete 1 (activeOrderMap book_two_in_queue)
    ∧ doneOrderMap b' = doneOrderMap book_two_in_queue
    ∧ endpoints b' = endpoints book_two_in_queue
    ∧ nextOrderId b' = nextOrderId book_two_in_queue
    ∧ getOrderStatus 1 b' = Ok ((false, unknownState), b').
Proof.
  apply (cancelOrder_leaves_queue 1 book_two_in_queue 1%positive
           (mkLimitOrder 5 2 2 0)
           (mkOrderLevel [1%positive; 2%positive] 5 (-1) (-1))).
  - reflexivity.
  - reflexivity.
  - reflexivity.
  - discriminate.
  - discriminate.
  - reflexivity.
  - reflexivity.
  - apply (bool_decide_unpack _). vm_compute. exact I.
  - reflexivity.
  - discriminate.
Defined.

(** X9: the round trip that holds. Adding an accepted order that does not
    reach the other side's best price to a level that is in use, and cancelling
    it at once, returns true and gives back the level vector, the order nodes,
    both order maps and the best bid and offer indices, hence the L1 and L2
    views; the next order id has advanced by one. (The first index of the other
    side is overwritten by its best index when that side is empty.) *)
Theorem add_cancel_restores_used_level (fuel : nat) (price orderSize : Z)
    (isBid : bool) (b : OrderBook) (l : OrderLevel) :
  0 < incr b →
  valid_order b price orderSize = true →
  in_int price = true →
  fuel ≠ O →
  no_cross isBid (Z.quot price (incr b)) b →
  orderLevels b !! Z.to_nat (Z.quot price (incr b)) = Some l →
  totalSize l ≠ 0 →
  in_int (totalSize l) = true →
  in_int (totalSize l + orderSize) = true →
  in_int (nextOrderId b + 1) = true →
  fresh_node b l →
  activeOrderMap b !! nextOrderId b = None →
  ∃ os b',
    ('(_, id) ← addOrder fuel price orderSize isBid; cancelOrder id) b
    = Ok ((true, os), b')
    ∧ orderLevels b' = orderLevels b
    ∧ nodes b' = nodes b
    ∧ activeOrderMap b' = activeOrderMap b
    ∧ doneOrderMap b' = doneOrderMap b
    ∧ lastBidIdx b' = lastBidIdx b
    ∧ lastOfferIdx b' = lastOfferIdx b
    ∧ nextOrderId b' = nextOrderId b + 1
    ∧ result getL1OrderData b' = result getL1OrderData b
    ∧ ∀ fuel', result (getL2OrderData fuel') b' = result (getL2OrderData fuel') b.
Proof.
  intros Hincr Hvalid Hint Hfuel Hcross Hl Hnz Hltot Htot Hid Hfresh Hact.
  eexists _, _. split; [apply (add_then_cancel_run _ _ _ _ _ l); assumption|].
  destruct (after_no_match_fields isBid b)
    as (Em & Ei & En & El & Elb & Elo & Ea & Ed & Eno & Enn).
  assert (Hv : same_views b
                 (set_nextOrderId (nextOrderId b + 1)
                    (set_nextNode (Pos.succ (nextNode b)) (after_no_match isBid b)))).
  { unfold same_views. simpl. auto. }
  simpl. repeat (split; [assumption|]).
  split; [reflexivity|].
  split; [apply reads_views_result; [apply reads_getL1OrderData | exact Hv]|].
  intros fuel'. apply reads_views_result; [apply reads_getL2OrderData | exact Hv].
Qed.

Lemma add_cancel_restores_used_level_witness :
  ∃ os b',
    ('(_, id) ← addOrder ample 5 2 false; cancelOrder id) book_one_offer
    = Ok ((true, os), b')
    ∧ orderLevels b' = orderLevels book_one_offer
    ∧ nodes b' = nodes book_one_offer
    ∧ activeOrderMap b' = activeOrderMap book_one_offer
    ∧ doneOrderMap b' = doneOrderMap book_one_offer
    ∧ lastBidIdx b' = lastBidIdx book_one_offer
    ∧ lastOfferIdx b' = lastOfferIdx book_one_offer
    ∧ nextOrderId b' = nextOrderId book_one_offer + 1
    ∧ result getL1OrderData b' = result getL1OrderData book_one_offer
    ∧ ∀ fuel', result (getL2OrderData fuel') b'
               = result (getL2OrderData fuel') book_one_offer.
Proof.
  apply (add_cancel_restores_used_level ample 5 2 false book_one_offer
           (mkOrderLevel [1%positive] 1 (-1) (-1))).
  - reflexivity.
  - reflexivity.
  - reflexivity.
  - discriminate.
  - left. reflexivity.
  - reflexivity.
  - discriminate.
  - reflexivity.
  - reflexivity.
  - reflexivity.
  - split; [reflexivity|]. apply (bool_decide_unpack _). vm_compute. exact I.
  - reflexivity.
Defined.

(** *** The best level heads the depth *)

Lemma l2_walk_acc (fuel : nat) (i : Z) (acc r : list PriceLevel) (b b' : OrderBook) :
  l2_walk fuel i acc b = Ok (r, b') → ∃ rest, r = acc ++ rest.
Proof.
  revert i acc b.
  induction fuel as [|fuel IH]; intros i acc b; simpl; [discriminate|].
  destruct (0 <=? i).
  - intros H.
    apply bind_ok in H as (inc & b1 & _ & H).
    apply bind_ok in H as (p & b2 & _ & H).
    apply bind_ok in H as (l & b3 & _ & H).
    apply IH in H as [rest ->]. rewrite <- app_assoc. eauto.
  - intros [= <- <-]. exists []. symmetry. apply app_nil_r.
Qed.

Lemma l2_walk_head (fuel : nat) (i : Z) (r : list PriceLevel) (b b' : OrderBook) :
  l2_walk fuel i [] b = Ok (r, b') →
  (if 0 <=? i then
     inc ← gets incr;
     p ← int_mul i inc;
     l ← level_at i;
     mret (mkPriceLevel p (totalSize l))
   else mret noPriceLevel) b = Ok (default noPriceLevel (head r), b).
Proof.
  destruct fuel as [|fuel]; simpl; [discriminate|].
  destruct (0 <=? i); [|intros [= <- <-]; reflexivity].
  intros H.
  apply bind_ok in H as (inc & b1 & H1 & H). inversion H1; subst inc b1.
  apply bind_ok in H as (p & b2 & H2 & H).
  pose proof (int_chk_ok _ _ _ _ H2) as (_ & _ & ->).
  apply bind_ok in H as (l & b3 & H3 & H).
  pose proof (level_at_ok _ _ _ _ H3) as (_ & _ & ->).
  apply l2_walk_acc in H as [rest ->].
  rewrite bind_run. unfold gets at 1. cbv beta iota.
  rewrite bind_run, H2. cbv beta iota. rewrite bind_run, H3. reflexivity.
Qed.

(** X10: the L1 view is the head of the L2 view. Whenever [getL2OrderData]
    returns, [getL1OrderData] returns the first bid level and the first offer
    level of its lists, and the no-level value {-1, -1} for an empty list;
    neither call changes the book. *)
Theorem l1_is_head_of_l2 (fuel : nat) (b b' : OrderBook)
    (bids offers : list PriceLevel) :
  getL2OrderData fuel b = Ok ((bids, offers), b') →
  b' = b
  ∧ getL1OrderData b
    = Ok ((default noPriceLevel (head bids), default noPriceLevel (head offers)), b).
Proof.
  intros H. pose proof (reads_views_pure _ _ _ _ (reads_getL2OrderData fuel) H) as ->.
  split; [reflexivity|].
  unfold getL2OrderData in H.
  apply bind_ok in H as (lastBid & b1 & H1 & H). inversion H1; subst lastBid b1.
  apply bind_ok in H as (bids' & b1 & Hbids & H).
  pose proof (reads_views_pure _ _ _ _ (reads_l2_walk _ _ _) Hbids) as ->.
  apply bind_ok in H as (lastOffer & b1 & H2 & H). inversion H2; subst lastOffer b1.
  apply bind_ok in H as (offers' & b1 & Hoffers & H).
  pose proof (reads_views_pure _ _ _ _ (reads_l2_walk _ _ _) Hoffers) as ->.
  inversion H; subst bids' offers'.
  unfold getL1OrderData.
  rewrite bind_run. unfold gets at 1. cbv beta iota.
  rewrite bind_run, (l2_walk_head _ _ _ _ _ Hbids). cbv beta iota.
  rewrite bind_run. unfold gets at 1. cbv beta iota.
  rewrite bind_run, (l2_walk_head _ _ _ _ _ Hoffers). reflexivity.
Qed.

Lemma l1_is_head_of_l2_witness :
  book_scenario_5 = book_scenario_5
  ∧ getL1OrderData book_scenario_5
    = Ok ((default noPriceLevel (head []),
           default noPriceLevel (head [mkPriceLevel 100 6])), book_scenario_5).
Proof.
  apply (l1_is_head_of_l2 ample book_scenario_5 book_scenario_5 []
           [mkPriceLevel 100 6]).
  vm_compute. reflexivity.
Defined.

(** *** Amending the size of an order at its price *)

Lemma updateOrder_same_price_run (fuel : nat) (orderId newSize : Z) (b : OrderBook)
    (it : positive) (o : LimitOrder) :
  activeOrderMap b !! orderId = Some it →
  nodes b !! it = Some o →
  in_int (originalSize o - remainingSize o) = true →
  incr b ≠ 0 →
  valid_order b (price o) newSize = true →
  originalSize o - remainingSize o < newSize →
  in_int (newSize - (originalSize o - remainingSize o)) = true →
  updateOrder fuel orderId (price o) newSize b
  = Ok ((true,
         mkOrderState (originalSize o - remainingSize o)
           (of_int (filledValue o) / of_int (originalSize o - remainingSize o))%float),
        set_nodes
          (<[it := mkLimitOrder (price o) newSize
                     (newSize - (originalSize o - remainingSize o)) (filledValue o)]>
             (nodes b)) b).
Proof.
  intros Ha Hn Hfilled Hincr Hvalid Hgt Hrem. unfold updateOrder.
  rewrite bind_run, (getOrderStatus_active _ _ _ _ Ha Hn Hfilled). cbn [negb].
  cbv beta iota.
  rewrite bind_run, getIsOrderValid_run, Hvalid by done. cbv beta iota.
  cbn [negb orb filledSize].
  replace (newSize <=? originalSize o - remainingSize o) with false
    by (symmetry; apply Z.leb_gt; done).
  rewrite bind_run. unfold active_at at 1. rewrite Ha. cbv beta iota.
  rewrite bind_run. unfold deref at 1. rewrite Hn. cbv beta iota.
  rewrite Z.eqb_refl.
  rewrite bind_run. unfold int_sub. rewrite int_chk_run by done. cbv beta iota.
  rewrite bind_run. unfold store. rewrite bind_run. unfold deref. rewrite Hn.
  reflexivity.
Qed.

(** X11: an amendment of the size at the same price keeps the order's place.
    For a live active order, [updateOrder] with the order's own price and a
    valid size above the filled size returns true with the order's state and
    changes the order's node only: the original size becomes the new size and
    the remaining size the new size less the filled size. The level's queue and
    total size, both maps, the best indices and the next order id are as
    before, and [getOrderStatus] returns the same state afterwards. *)
Theorem updateOrder_same_price_in_place (fuel : nat) (orderId newSize : Z)
    (b : OrderBook) (it : positive) (o : LimitOrder) :
  activeOrderMap b !! orderId = Some it →
  nodes b !! it = Some o →
  in_int (originalSize o - remainingSize o) = true →
  incr b ≠ 0 →
  valid_order b (price o) newSize = true →
  originalSize o - remainingSize o < newSize →
  in_int (newSize - (originalSize o - remainingSize o)) = true →
  ∃ os b',
    updateOrder fuel orderId (price o) newSize b = Ok ((true, os), b')
    ∧ getOrderStatus orderId b = Ok ((true, os), b)
    ∧ getOrderStatus orderId b' = Ok ((true, os), b')
    ∧ nodes b'
      = <[it := mkLimitOrder (price o) newSize
                  (newSize - (originalSize o - remainingSize o)) (filledValue o)]>
          (nodes b)
    ∧ orderLevels b' = orderLevels b
    ∧ activeOrderMap b' = activeOrderMap b
    ∧ doneOrderMap b' = doneOrderMap b
    ∧ endpoints b' = endpoints b
    ∧ nextOrderId b' = nextOrderId b.
Proof.
  intros Ha Hn Hfilled Hincr Hvalid Hgt Hrem.
  eexists _, _.
  split; [apply updateOrder_same_price_run; eassumption|].
  split; [apply (getOrderStatus_active _ _ it); assumption|].
  split; [|simpl; auto 10].
  rewrite (getOrderStatus_active _ orderId it
             (mkLimitOrder (price o) newSize
                (newSize - (originalSize o - remainingSize o)) (filledValue o)));
    simpl.
  - replace (newSize - (newSize - (originalSize o - remainingSize o)))
      with (originalSize o - remainingSize o) by lia.
    reflexivity.
  - exact Ha.
  - apply lookup_insert_eq.
  - replace (newSize - (newSize - (originalSize o - remainingSize o)))
      with (originalSize o - remainingSize o) by lia.
    exact Hfilled.
Qed.

Lemma updateOrder_same_price_in_place_witness :
  ∃ os b',
    updateOrder ample 1 100 8 book_scenario_5 = Ok ((true, os), b')
    ∧ getOrderStatus 1 book_scenario_5 = Ok ((true, os), book_scenario_5)
    ∧ getOrderStatus 1 b' = Ok ((true, os), b')
    ∧ nodes b' = <[1%positive := mkLimitOrder 100 8 4 400]> (nodes book_scenario_5)
    ∧ orderLevels b' = orderLevels book_scenario_5
    ∧ activeOrderMap b' = activeOrderMap book_scenario_5
    ∧ doneOrderMap b' = doneOrderMap book_scenario_5
    ∧ endpoints b' = endpoints book_scenario_5
    ∧ nextOrderId b' = nextOrderId book_scenario_5.
Proof.
  apply (updateOrder_same_price_in_place ample 1 8 book_scenario_5 1%positive
           (mkLimitOrder 100 10 6 400)).
  - reflexivity.
  - reflexivity.
  - reflexivity.
  - discriminate.
  - vm_compute. reflexivity.
  - reflexivity.
  - reflexivity.
Defined.

(** *** A new book and its first order *)

Lemma OrderBook_new_ok (maxPrice increment : Z) (b : OrderBook) :
  OrderBook_new maxPrice increment = Ok b →
  0 <= Z.quot maxPrice increment + 1
  ∧ b = mkOrderBook maxPrice increment 1
          (replicate (Z.to_nat (Z.quot maxPrice increment + 1)) emptyLevel)
          (-1) (-1) (-1) (-1) ∅ ∅ ∅ 1%positive.
Proof.
  unfold OrderBook_new.
  destruct (increment =? 0); [discriminate|].
  destruct ((maxPrice =? INT_MIN) && (increment =? -1)); [discriminate|].
  destruct (negb (Z.rem maxPrice increment =? 0)); [discriminate|].
  destruct (negb (in_int (Z.quot maxPrice increment + 1))); [discriminate|].
  destruct (Z.quot maxPrice increment + 1 <? 0) eqn:Hneg; [discriminate|].
  intros [= <-]. apply Z.ltb_ge in Hneg. auto.
Qed.

Lemma best_level_run (b : OrderBook) (i : Z) (l : OrderLevel) :
  0 <= i → in_int (i * incr b) = true → orderLevels b !! Z.to_nat i = Some l →
  (if 0 <=? i then
     inc ← gets incr;
     p ← int_mul i inc;
     l ← level_at i;
     mret (mkPriceLevel p (totalSize l))
   else mret noPriceLevel) b = Ok (mkPriceLevel (i * incr b) (totalSize l), b).
Proof.
  intros Hi Hint Hl. rewrite (proj2 (Z.leb_le _ _) Hi).
  rewrite bind_run. unfold gets at 1. cbv beta iota.
  rewrite bind_run. unfold int_mul. rewrite int_chk_run by done. cbv beta iota.
  rewrite bind_run, (level_at_run _ _ l) by done. reflexivity.
Qed.

(** X12: a new book is empty and its first order rests. In a book that the
    constructor returns for a positive increment, both best levels are the
    no-level value and every order id is unknown; the first accepted order gets
    order id 1, trades with nothing, and is then the best level of its side
    with its whole size, with nothing filled. *)
Theorem first_order_rests (fuel : nat) (maxPrice increment price orderSize : Z)
    (isBid : bool) (b : OrderBook) :
  OrderBook_new maxPrice increment = Ok b →
  0 < increment →
  valid_order b price orderSize = true →
  in_int price = true →
  in_int orderSize = true →
  fuel ≠ O →
  getL1OrderData b = Ok ((noPriceLevel, noPriceLevel), b)
  ∧ (∀ orderId, getOrderStatus orderId b = Ok ((false, unknownState), b))
  ∧ ∃ b',
      addOrder fuel price orderSize isBid b = Ok ((true, 1), b')
      ∧ getL1OrderData b'
        = Ok ((if isBid then (mkPriceLevel price orderSize, noPriceLevel)
               else (noPriceLevel, mkPriceLevel price orderSize)), b')
      ∧ getOrderStatus 1 b'
        = Ok ((true, mkOrderState 0 (of_int 0 / of_int 0)%float), b').
Proof.
  intros Hnew Hinc Hvalid Hint Hsize Hfuel.
  apply OrderBook_new_ok in Hnew as [Hn ->].
  split; [reflexivity|]. split; [intros orderId; reflexivity|].
  set (b := mkOrderBook _ _ _ _ _ _ _ _ _ _ _ _) in *.
  destruct (valid_order_index b _ _ Hinc Hvalid Hint) as (Hsz & Hpos & Hidx).
  simpl in Hpos, Hidx.
  set (newIdx := Z.quot price increment) in *.
  assert (Hlt : (Z.to_nat newIdx < Z.to_nat (Z.quot maxPrice increment + 1))%nat).
  { unfold valid_order in Hvalid. simpl in Hvalid.
    apply andb_prop in Hvalid as [H _]. apply andb_prop in H as [H _].
    apply andb_prop in H as [H0 H1]. apply Z.leb_le in H0, H1.
    assert (newIdx <= Z.quot maxPrice increment)
      by (apply Z.quot_le_mono; lia). lia. }
  assert (Hprice : newIdx * increment = price).
  { unfold valid_order in Hvalid. simpl in Hvalid.
    apply andb_prop in Hvalid as [H _]. apply andb_prop in H as [_ H].
    apply Z.eqb_eq in H. pose proof (Z.quot_rem' price increment).
    unfold newIdx. lia. }
  assert (Hl : orderLevels b !! Z.to_nat newIdx = Some emptyLevel)
    by (apply lookup_replicate_2, Hlt).
  assert (Hrun : ∃ b',
    addOrder fuel price orderSize isBid b = Ok ((true, 1), b')
    ∧ orderLevels b'
      = <[Z.to_nat newIdx := mkOrderLevel [1%positive] orderSize (-1) (-1)]>
          (orderLevels b)
    ∧ incr b' = increment
    ∧ lastBidIdx b' = (if isBid then newIdx else -1)
    ∧ lastOfferIdx b' = (if isBid then -1 else newIdx)
    ∧ activeOrderMap b' !! 1 = Some 1%positive
    ∧ nodes b' !! 1%positive = Some (mkLimitOrder price orderSize orderSize 0)).
  { unfold addOrder.
    rewrite bind_run, getIsOrderValid_run, Hvalid by (simpl; lia).
    cbn [negb]. cbv beta iota.
    rewrite bind_run. unfold gets at 1. cbv beta iota.
    rewrite bind_run, int_div_run by (simpl; (lia || done)). cbv beta iota.
    rewrite bind_run, matching_no_cross;
      [|done|destruct isBid; left; simpl; lia|done].
    cbv beta iota.
    replace (orderSize =? 0) with false by (symmetry; apply Z.eqb_neq; lia).
    replace (after_no_match isBid b) with b by (destruct isBid; reflexivity).
    rewrite bind_run, (level_at_run _ _ emptyLevel) by done. cbv beta iota.
    cbn [totalSize emptyLevel Z.eqb]. unfold when at 1.
    destruct isBid.
    - eexists. split.
      + unfold addNewOrderLevel. rewrite !bind_run. unfold gets at 1 2.
        cbv beta iota. cbn [lastBidIdx b Z.ltb Z.compare].
        rewrite !bind_run. unfold modify at 1 2. cbv beta iota.
        rewrite bind_run, (list_push_back_run _ _ _ emptyLevel) by done.
        cbv beta iota.
        rewrite bind_run, (level_at_run _ _ (set_orders [1%positive] emptyLevel));
          [|done|simpl; apply list_lookup_insert_eq; rewrite length_replicate; done].
        cbv beta iota. rewrite bind_run. unfold int_add.
        rewrite int_chk_run by done. cbv beta iota.
        rewrite bind_run,
          (modify_level_run _ _ _ (set_orders [1%positive] emptyLevel));
          [|done|simpl; apply list_lookup_insert_eq; rewrite length_replicate; done].
        cbv beta iota. rewrite bind_run. unfold gets at 1. cbv beta iota.
        rewrite bind_run. unfold active_insert_or_assign, modify at 1.
        cbv beta iota. unfold take_nextOrderId. rewrite !bind_run.
        unfold gets at 1. cbv beta iota. reflexivity.
      + simpl. rewrite list_insert_insert_eq. repeat split; reflexivity.
    - eexists. split.
      + unfold addNewOrderLevel. rewrite !bind_run. unfold gets at 1 2.
        cbv beta iota. cbn [lastOfferIdx b Z.ltb Z.compare].
        rewrite !bind_run. unfold modify at 1 2. cbv beta iota.
        rewrite bind_run, (list_push_back_run _ _ _ emptyLevel) by done.
        cbv beta iota.
        rewrite bind_run, (level_at_run _ _ (set_orders [1%positive] emptyLevel));
          [|done|simpl; apply list_lookup_insert_eq; rewrite length_replicate; done].
        cbv beta iota. rewrite bind_run. unfold int_add.
        rewrite int_chk_run by done. cbv beta iota.
        rewrite bind_run,
          (modify_level_run _ _ _ (set_orders [1%positive] emptyLevel));
          [|done|simpl; apply list_lookup_insert_eq; rewrite length_replicate; done].
        cbv beta iota. rewrite bind_run. unfold gets at 1. cbv beta iota.
        rewrite bind_run. unfold active_insert_or_assign, modify at 1.
        cbv beta iota. unfold take_nextOrderId. rewrite !bind_run.
        unfold gets at 1. cbv beta iota. reflexivity.
      + simpl. rewrite list_insert_insert_eq. repeat split; reflexivity. }
  destruct Hrun as (b' & Hadd & Hlev & Hi & Hlb & Hlo & Hact & Hnode).
  exists b'. split; [exact Hadd|]. split.
  - assert (Hl' : orderLevels b' !! Z.to_nat newIdx
                  = Some (mkOrderLevel [1%positive] orderSize (-1) (-1))).
    { rewrite Hlev. apply list_lookup_insert_eq. simpl.
      rewrite length_replicate. exact Hlt. }
    unfold getL1OrderData.
    rewrite bind_run. unfold gets at 1. cbv beta iota. rewrite Hlb.
    destruct isBid.
    + rewrite bind_run, (best_level_run _ _ _ Hpos) by (rewrite ?Hi, ?Hprice; done).
      cbv beta iota. rewrite bind_run. unfold gets at 1. cbv beta iota. rewrite Hlo.
      rewrite Hi, Hprice. reflexivity.
    + rewrite bind_run. cbn [Z.leb Z.compare]. cbv beta iota.
      unfold mret at 1, M_ret at 1. cbv beta iota.
      rewrite bind_run. unfold gets at 1. cbv beta iota. rewrite Hlo.
      rewrite bind_run, (best_level_run _ _ _ Hpos) by (rewrite ?Hi, ?Hprice; done).
      rewrite Hi, Hprice. reflexivity.
  - rewrite (getOrderStatus_active _ _ _ _ Hact Hnode); simpl;
      rewrite Z.sub_diag; reflexivity.
Qed.

Lemma first_order_rests_witness :
  getL1OrderData book_10 = Ok ((noPriceLevel, noPriceLevel), book_10)
  ∧ (∀ orderId, getOrderStatus orderId book_10 = Ok ((false, unknownState), book_10))
  ∧ ∃ b',
      addOrder ample 5 1 false book_10 = Ok ((true, 1), b')
      ∧ getL1OrderData b' = Ok ((noPriceLevel, mkPriceLevel 5 1), b')
      ∧ getOrderStatus 1 b'
        = Ok ((true, mkOrderState 0 (of_int 0 / of_int 0)%float), b').
Proof.
  apply (first_order_rests ample 10 1 5 1 false book_10).
  - reflexivity.
  - reflexivity.
  - reflexivity.
  - reflexivity.
  - reflexivity.
  - discriminate.
Defined.

(** *** Matching neither makes nor loses quantity *)

Lemma total_insert (ls : list OrderLevel) (n : nat) (l l' : OrderLevel) :
  ls !! n = Some l →
  foldr (λ l acc, totalSize l + acc) 0 (<[n := l']> ls)
  = foldr (λ l acc, totalSize l + acc) 0 ls - totalSize l + totalSize l'.
Proof.
  revert n. induction ls as [|h ls IH]; intros n Hn; [discriminate|].
  destruct n as [|n]; simpl in *.
  - inversion Hn; subst. lia.
  - rewrite (IH n Hn). lia.
Qed.

Lemma book_total_insert (b : OrderBook) (n : nat) (l l' : OrderLevel) :
  orderLevels b !! n = Some l →
  book_total (set_orderLevels (<[n := l']> (orderLevels b)) b)
  = book_total b - totalSize l + totalSize l'.
Proof. intros Hn. unfold book_total. simpl. apply total_insert, Hn. Qed.

Ltac same_total_frame :=
  try (unfold same_total; intros; congruence);
  try (unfold same_total; intros; reflexivity);
  try (unfold same_total; intros;
       erewrite book_total_insert by eassumption; simpl; lia).

Lemma same_total_addNewOrderLevel (fuel : nat) (newIdx : Z) (isBid : bool) :
  keeps same_total (addNewOrderLevel fuel newIdx isBid).
Proof. apply keeps_addNewOrderLevel; same_total_frame. Qed.

Lemma fill_total (fuel : nat) (currIdx orderSize : Z) (b b' : OrderBook)
    (newIdx orderSize' : Z) :
  fillOrdersAtCurrIdx fuel currIdx orderSize b = Ok ((newIdx, orderSize'), b') →
  book_total b' = book_total b - (orderSize - orderSize').
Proof.
  intros Hrun.
  destruct (fillOrdersAtCurrIdx_levels _ _ _ _ _ _ _ Hrun)
    as (l & rest & Hl & Hlev & _).
  unfold book_total. rewrite Hlev, (total_insert _ _ l) by exact Hl. simpl. lia.
Qed.

Lemma match_loop_total (fuel : nat) (isBid : bool)
    (newIdx currIdx orderSize filledValue : Z) (b b' : OrderBook)
    (currIdx' orderSize' filledValue' : Z) :
  match_loop fuel isBid newIdx currIdx orderSize filledValue b
  = Ok ((currIdx', orderSize', filledValue'), b') →
  book_total b' = book_total b - (orderSize - orderSize').
Proof.
  revert currIdx orderSize filledValue b.
  induction fuel as [|fuel IH]; intros currIdx orderSize filledValue b H;
    simpl in H; [discriminate|].
  destruct ((0 <=? currIdx)
            && (if isBid then currIdx <=? newIdx else newIdx <=? currIdx)
            && (0 <? orderSize)).
  2:{ inversion H; subst. lia. }
  apply bind_ok in H as ([newCurr newSize] & b1 & H1 & H).
  apply fill_total in H1.
  apply bind_ok in H as (d & b2 & H2 & H). apply int_chk_ok in H2 as (_ & _ & ->).
  apply bind_ok in H as (v & b2 & H2 & H). apply int_chk_ok in H2 as (_ & _ & ->).
  apply bind_ok in H as (inc & b2 & H2 & H). inversion H2; subst inc b2. clear H2.
  apply bind_ok in H as (v' & b2 & H2 & H). apply int_chk_ok in H2 as (_ & _ & ->).
  apply bind_ok in H as (fv & b2 & H2 & H). apply int_chk_ok in H2 as (_ & _ & ->).
  apply IH in H. lia.
Qed.

Lemma matching_total (fuel : nat) (isBid : bool) (newIdx orderSize : Z)
    (b b' : OrderBook) (orderSize' filledValue' : Z) :
  (if isBid then
     currOfferIdx ← gets lastOfferIdx;
     '(currOfferIdx, orderSize, filledValue) ←
       match_loop fuel true newIdx currOfferIdx orderSize 0;
     modify (set_lastOfferIdx currOfferIdx);;
     when (currOfferIdx <? 0) (modify (set_firstOfferIdx currOfferIdx));;
     mret (orderSize, filledValue)
   else
     currBidIdx ← gets lastBidIdx;
     '(currBidIdx, orderSize, filledValue) ←
       match_loop fuel false newIdx currBidIdx orderSize 0;
     modify (set_lastBidIdx currBidIdx);;
     when (currBidIdx <? 0) (modify (set_firstBidIdx currBidIdx));;
     mret (orderSize, filledValue)) b = Ok ((orderSize', filledValue'), b') →
  book_total b' = book_total b - (orderSize - orderSize').
Proof.
  intros H. destruct isBid.
  - apply bind_ok in H as (curr & b1 & H1 & H). inversion H1; subst curr b1. clear H1.
    apply bind_ok in H as ([[c sz] fv] & b1 & H1 & H).
    apply match_loop_total in H1.
    apply bind_ok in H as (u & b2 & H2 & H). inversion H2; subst b2. clear H2.
    apply bind_ok in H as (u' & b2 & H2 & H).
    assert (book_total b2 = book_total b1) as Hb.
    { revert H2. unfold when. destruct (c <? 0); intros H2; inversion H2; reflexivity. }
    inversion H; subst. rewrite Hb. exact H1.
  - apply bind_ok in H as (curr & b1 & H1 & H). inversion H1; subst curr b1. clear H1.
    apply bind_ok in H as ([[c sz] fv] & b1 & H1 & H).
    apply match_loop_total in H1.
    apply bind_ok in H as (u & b2 & H2 & H). inversion H2; subst b2. clear H2.
    apply bind_ok in H as (u' & b2 & H2 & H).
    assert (book_total b2 = book_total b1) as Hb.
    { revert H2. unfold when. destruct (c <? 0); intros H2; inversion H2; reflexivity. }
    inversion H; subst. rewrite Hb. exact H1.
Qed.

Lemma list_push_back_ok (i : Z) (o : LimitOrder) (b b' : OrderBook) (it : positive) :
  list_push_back i o b = Ok (it, b') →
  book_total b' = book_total b
  ∧ nodes b' !! it = Some o
  ∧ nextOrderId b' = nextOrderId b
  ∧ activeOrderMap b' = activeOrderMap b.
Proof.
  unfold list_push_back. intros H.
  apply bind_ok in H as (it' & b1 & H1 & H). inversion H1; subst it' b1. clear H1.
  apply bind_ok in H as (u & b1 & H1 & H). inversion H1; subst b1. clear H1.
  apply bind_ok in H as (u' & b1 & H1 & H).
  apply modify_level_ok in H1 as (l & _ & Hl & ->).
  inversion H; subst. simpl in Hl. split_and!.
  - unfold book_total. simpl. rewrite (total_insert _ _ l) by exact Hl.
    simpl. lia.
  - simpl. apply lookup_insert_eq.
  - reflexivity.
  - reflexivity.
Qed.

(** X19: matching neither makes nor loses quantity. When [addOrder] accepts an
    order, the sum of the levels' total sizes goes down by what was matched and
    up by what is left of the order: with [rest] left, it changes by
    [rest - (orderSize - rest)]. An order with something left is then active
    under the returned id with that remaining size and its original size; an
    order with nothing left has a done entry under the returned id. *)
Theorem addOrder_conserves_quantity (fuel : nat) (price orderSize : Z)
    (isBid : bool) (b b' : OrderBook) (id : Z) :
  addOrder fuel price orderSize isBid b = Ok ((true, id), b') →
  ∃ rest,
    book_total b' = book_total b - (orderSize - rest) + rest
    ∧ (rest = 0 → is_Some (doneOrderMap b' !! id))
    ∧ (rest ≠ 0 →
       ∃ it filledValue,
         activeOrderMap b' !! id = Some it
         ∧ nodes b' !! it = Some (mkLimitOrder price orderSize rest filledValue)).
Proof.
  unfold addOrder. intros H.
  apply bind_ok in H as (valid & b1 & Hv & H).
  apply getIsOrderValid_pure in Hv as ->.
  destruct valid; simpl in H; [|inversion H].
  apply bind_ok in H as (inc & b1 & H1 & H). inversion H1; subst b1 inc. clear H1.
  apply bind_ok in H as (newIdx & b1 & H1 & H).
  assert (b1 = b) as ->.
  { symmetry. revert H1. apply (keeps_int_div eq); congruence. }
  clear H1.
  apply bind_ok in H as ([rest fv] & b2 & H2 & H).
  apply matching_total in H2.
  exists rest. destruct (rest =? 0) eqn:Hrest.
  - apply Z.eqb_eq in Hrest. subst rest.
    apply bind_ok in H as (id0 & b3 & H3 & H). inversion H3; subst id0 b3. clear H3.
    apply bind_ok in H as (u & b3 & H3 & H).
    apply bind_ok in H as (id' & b4 & H4 & H). inversion H; subst; clear H.
    assert (Hd : is_Some (doneOrderMap b3 !! nextOrderId b2)
                 ∧ book_total b3 = book_total b2
                 ∧ nextOrderId b3 = nextOrderId b2).
    { unfold done_try_emplace, modify in H3. inversion H3; subst b3.
      destruct (doneOrderMap b2 !! nextOrderId b2) eqn:E; simpl.
      - rewrite E. eauto.
      - rewrite lookup_insert_eq. eauto. }
    destruct Hd as (Hd & Ht & Hn).
    revert H4. unfold take_nextOrderId, int_add, int_chk.
    rewrite !bind_run. unfold gets at 1.
    destruct (in_int (nextOrderId b3 + 1)); [|discriminate].
    simpl. intros H4. inversion H4; subst; clear H4. simpl.
    split_and!.
    + unfold book_total in *. simpl. lia.
    + intros _. rewrite Hn. exact Hd.
    + intros Hne. congruence.
  - apply Z.eqb_neq in Hrest.
    apply bind_ok in H as (l & b3 & H3 & H). apply level_at_ok in H3 as (_ & _ & ->).
    apply bind_ok in H as (u & b3 & H3 & H).
    assert (Ht3 : book_total b3 = book_total b2
                  ∧ nextOrderId b3 = nextOrderId b2).
    { revert H3. unfold when. destruct (totalSize l =? 0).
      - intros H3. split.
        + eapply same_total_addNewOrderLevel, H3.
        + revert H3. apply (keeps_addNewOrderLevel same_nextOrderId);
            same_nextOrderId_frame.
      - intros H3. inversion H3; subst. auto. }
    destruct Ht3 as [Ht3 Hn3]. clear H3.
    apply bind_ok in H as (it & b4 & H4 & H).
    apply list_push_back_ok in H4 as (Ht4 & Hnode & Hn4 & _).
    apply bind_ok in H as (l' & b5 & H5 & H).
    apply level_at_ok in H5 as (_ & Hl' & ->).
    apply bind_ok in H as (total & b5 & H5 & H).
    apply int_chk_ok in H5 as (-> & _ & ->).
    apply bind_ok in H as (u' & b5 & H5 & H).
    apply modify_level_ok in H5 as (l'' & _ & Hl'' & ->).
    rewrite Hl' in Hl''. inversion Hl''; subst l''. clear Hl''.
    revert H. unfold take_nextOrderId, active_insert_or_assign, int_add, int_chk.
    rewrite !bind_run. unfold gets at 1. rewrite !bind_run. unfold modify at 1.
    rewrite !bind_run. unfold gets at 1. simpl.
    destruct (in_int (nextOrderId b4 + 1)); [|discriminate].
    simpl. intros H. inversion H; subst; clear H. simpl.
    split_and!.
    + change (book_total
                (set_orderLevels
                   (<[Z.to_nat newIdx := set_totalSize (totalSize l' + rest) l']>
                      (orderLevels b4)) b4)
              = book_total b - (orderSize - rest) + rest).
      rewrite (book_total_insert _ _ l') by exact Hl'. simpl. lia.
    + intros Heq. contradiction.
    + intros _. exists it, fv. rewrite lookup_insert_eq. auto.
Qed.

Lemma addOrder_conserves_quantity_witness :
  ∃ rest,
    book_total (default book_scenario_5
                  (after (addOrder ample 100 8 true) book_scenario_5))
    = book_total book_scenario_5 - (8 - rest) + rest
    ∧ (rest = 0 →
       is_Some (doneOrderMap
                  (default book_scenario_5
                     (after (addOrder ample 100 8 true) book_scenario_5)) !! 3))
    ∧ (rest ≠ 0 →
       ∃ it filledValue,
         activeOrderMap
           (default book_scenario_5
              (after (addOrder ample 100 8 true) book_scenario_5)) !! 3 = Some it
         ∧ nodes
             (default book_scenario_5
                (after (addOrder ample 100 8 true) book_scenario_5)) !! it
           = Some (mkLimitOrder 100 8 rest filledValue)).
Proof.
  apply (addOrder_conserves_quantity ample 100 8 true book_scenario_5).
  vm_compute. reflexivity.
Defined.

(** *** Amending the price of an order *)

(** X20: an amendment of the price keeps the order's id. For a live active
    order in a level that holds other orders, [updateOrder] to another price
    whose level is in use and where the order does not reach the other side's
    best price returns true with the order's state before the call. The order
    has left its level's queue and is at the back of the new level's queue with
    the new size less the filled size remaining; it is active under its own id,
    the id used for the re-add is not active, and the next order id has
    advanced by one. The order's fills are not carried over: [getOrderStatus]
    afterwards reports nothing filled. *)
Theorem updateOrder_moves_order (fuel : nat) (orderId newPrice newSize : Z)
    (b : OrderBook) (it : positive) (o : LimitOrder) (l1 l2 : OrderLevel) :
  let filled := originalSize o - remainingSize o in
  let oldIdx := Z.quot (price o) (incr b) in
  let newIdx := Z.quot newPrice (incr b) in
  let isBid := oldIdx <=? lastBidIdx b in
  activeOrderMap b !! orderId = Some it →
  nodes b !! it = Some o →
  activeOrderMap b !! nextOrderId b = None →
  0 < incr b →
  in_int filled = true →
  0 <= oldIdx → in_int oldIdx = true →
  orderLevels b !! Z.to_nat oldIdx = Some l1 →
  it ∈ orders l1 →
  in_int (totalSize l1 - remainingSize o) = true →
  totalSize l1 - remainingSize o ≠ 0 →
  valid_order b newPrice newSize = true →
  in_int newPrice = true →
  filled < newSize →
  in_int (newSize - filled) = true →
  fuel ≠ O →
  newIdx ≠ oldIdx →
  no_cross isBid newIdx b →
  orderLevels b !! Z.to_nat newIdx = Some l2 →
  totalSize l2 ≠ 0 →
  in_int (totalSize l2 + (newSize - filled)) = true →
  in_int (nextOrderId b + 1) = true →
  ∃ b',
    updateOrder fuel orderId newPrice newSize b
    = Ok ((true, mkOrderState filled (of_int (filledValue o) / of_int filled)%float),
          b')
    ∧ activeOrderMap b' !! orderId = Some (nextNode b)
    ∧ activeOrderMap b' !! nextOrderId b = None
    ∧ nodes b' !! nextNode b
      = Some (mkLimitOrder newPrice (newSize - filled) (newSize - filled) 0)
    ∧ orderLevels b' !! Z.to_nat oldIdx
      = Some (mkOrderLevel (filter (λ x, x ≠ it) (orders l1))
                (totalSize l1 - remainingSize o) (nextIdx l1) (prevIdx l1))
    ∧ orderLevels b' !! Z.to_nat newIdx
      = Some (mkOrderLevel (orders l2 ++ [nextNode b])
                (totalSize l2 + (newSize - filled)) (nextIdx l2) (prevIdx l2))
    ∧ nextOrderId b' = nextOrderId b + 1
    ∧ getOrderStatus orderId b'
      = Ok ((true, mkOrderState 0 (of_int 0 / of_int 0)%float), b').
Proof.
  intros filled oldIdx newIdx isBid Ha Hn Hnext Hincr Hfilled Hold Holdi Hl1 Hin
    Htot1 Hnz1 Hvalid Hintp Hgt Hsz Hfuel Hidx Hcross Hl2 Hnz2 Htot2 Hid.
  assert (Hne : orderId ≠ nextOrderId b) by congruence.
  assert (Hprice : (price o =? newPrice) = false).
  { apply Z.eqb_neq. intros Heq. apply Hidx. unfold newIdx, oldIdx.
    rewrite Heq. reflexivity. }
  assert (Hvalid' : valid_order b newPrice (newSize - filled) = true).
  { unfold valid_order in *. apply andb_prop in Hvalid as [Hv _].
    rewrite Hv. apply Z.ltb_lt. lia. }
  assert (Hn2 : Z.to_nat newIdx ≠ Z.to_nat oldIdx).
  { destruct (valid_order_index _ _ _ Hincr Hvalid Hintp) as (_ & Hpos & _).
    fold newIdx in Hpos. lia. }
  set (b1 := after_leave orderId it o oldIdx l1 b).
  set (b2 := after_join isBid newPrice (newSize - filled) l2 b1).
  assert (Hadd : addOrder fuel newPrice (newSize - filled) isBid b1
                 = Ok ((true, nextOrderId b1), b2)).
  { apply addOrder_joins_run; try done.
    simpl. rewrite list_lookup_insert_ne
      by (intros Heq; apply Hn2; symmetry; exact Heq).
    exact Hl2. }
  assert (Hrun : updateOrder fuel orderId newPrice newSize b
    = Ok ((true, mkOrderState filled (of_int (filledValue o) / of_int filled)%float),
          set_activeOrderMap
            (delete (nextOrderId b)
               (<[orderId := nextNode b]> (activeOrderMap b2))) b2)).
  { unfold updateOrder.
    rewrite bind_run, (getOrderStatus_active _ _ _ _ Ha Hn Hfilled). cbn [negb].
    cbv beta iota.
    rewrite bind_run, getIsOrderValid_run, Hvalid by lia. cbv beta iota.
    cbn [negb orb filledSize].
    replace (newSize <=? originalSize o - remainingSize o) with false
      by (symmetry; apply Z.leb_gt; exact Hgt).
    rewrite bind_run. unfold active_at at 1. rewrite Ha. cbv beta iota.
    rewrite bind_run. unfold deref at 1. rewrite Hn. cbv beta iota.
    rewrite Hprice.
    rewrite bind_run. unfold gets at 1. cbv beta iota.
    rewrite bind_run, int_div_run by (lia || done). cbv beta iota.
    rewrite bind_run. unfold int_sub. rewrite int_chk_run by done. cbv beta iota.
    rewrite bind_run. unfold getIsBid. rewrite bind_run. unfold gets at 1.
    cbv beta iota. unfold mret at 1, M_ret at 1. cbv beta iota.
    rewrite bind_run, (cancelOrder_leaves_run _ _ it o l1) by (lia || done).
    cbv beta iota. fold oldIdx b1 isBid filled.
    rewrite bind_run, Hadd. cbv beta iota.
    rewrite bind_run. unfold active_at at 1.
    replace (activeOrderMap b2 !! nextOrderId b1) with (Some (nextNode b))
      by (symmetry; apply lookup_insert_eq).
    cbv beta iota. reflexivity. }
  eexists. split; [exact Hrun|]. clear Hrun Hadd. subst b2 b1. simpl.
  assert (Hne' : nextOrderId b ≠ orderId) by congruence.
  assert (Hn2' : Z.to_nat oldIdx ≠ Z.to_nat newIdx) by congruence.
  split_and!.
  - rewrite lookup_delete_ne by exact Hne'. apply lookup_insert_eq.
  - apply lookup_delete_eq.
  - apply lookup_insert_eq.
  - rewrite list_lookup_insert_ne by exact Hn2.
    apply list_lookup_insert_eq. eapply lookup_lt_Some, Hl1.
  - apply list_lookup_insert_eq. rewrite length_insert. eapply lookup_lt_Some, Hl2.
  - reflexivity.
  - rewrite (getOrderStatus_active _ orderId (nextNode b)
               (mkLimitOrder newPrice (newSize - filled) (newSize - filled) 0));
      simpl; rewrite ?Z.sub_diag; try reflexivity.
    + rewrite lookup_delete_ne by exact Hne'. apply lookup_insert_eq.
    + apply lookup_insert_eq.
Qed.

Example book_three_offers_built :
  after (addOrder ample 7 1 false) book_two_in_queue = Some book_three_offers.
Proof. vm_compute. reflexivity. Qed.

Lemma updateOrder_moves_order_witness :
  ∃ b',
    updateOrder ample 1 7 2 book_three_offers
    = Ok ((true, mkOrderState 0 (of_int 0 / of_int 0)%float), b')
    ∧ activeOrderMap b' !! 1 = Some 4%positive
    ∧ activeOrderMap b' !! 4 = None
    ∧ nodes b' !! 4%positive = Some (mkLimitOrder 7 2 2 0)
    ∧ orderLevels b' !! 5%nat = Some (mkOrderLevel [2%positive] 3 (-1) 7)
    ∧ orderLevels b' !! 7%nat
      = Some (mkOrderLevel [3%positive; 4%positive] 3 5 (-1))
    ∧ nextOrderId b' = 5
    ∧ getOrderStatus 1 b'
      = Ok ((true, mkOrderState 0 (of_int 0 / of_int 0)%float), b').
Proof.
  apply (updateOrder_moves_order ample 1 7 2 book_three_offers 1%positive
           (mkLimitOrder 5 2 2 0)
           (mkOrderLevel [1%positive; 2%positive] 5 (-1) 7)
           (mkOrderLevel [3%positive] 1 5 (-1))).
  - reflexivity.
  - reflexivity.
  - reflexivity.
  - reflexivity.
  - reflexivity.
  - discriminate.
  - reflexivity.
  - reflexivity.
  - apply (bool_decide_unpack _). vm_compute. exact I.
  - reflexivity.
  - discriminate.
  - reflexivity.
  - reflexivity.
  - reflexivity.
  - reflexivity.
  - discriminate.
  - discriminate.
  - left. reflexivity.
  - reflexivity.
  - discriminate.
  - reflexivity.
  - reflexivity.
Defined.

(** *** What a cancel takes away *)

Lemma same_orders_removeOrderLevel (currIdx : Z) :
  keeps same_orders (removeOrderLevel currIdx).
Proof.
  apply keeps_removeOrderLevel;
    try (unfold same_orders; intros; split_and!; reflexivity).
  - unfold same_orders. intros b1 b2 b3 (T1 & N1 & A1 & D1) (T2 & N2 & A2 & D2).
    split_and!; congruence.
  - unfold same_orders. intros b i l v Hl. split_and!; try reflexivity.
    rewrite (book_total_insert _ _ l) by exact Hl. simpl. lia.
  - unfold same_orders. intros b i l v Hl. split_and!; try reflexivity.
    rewrite (book_total_insert _ _ l) by exact Hl. simpl. lia.
Qed.

(** X21: a successful cancel takes away the order and nothing else. Whenever
    [cancelOrder] returns true, the id was active for a live order; afterwards
    the id is not active, the order's node is gone, the sum of the levels'
    total sizes is lower by the order's remaining size, the other orders' nodes
    and active entries, the done map and the next order id are as before. *)
Theorem cancelOrder_removes_order (orderId : Z) (b b' : OrderBook)
    (os : OrderState) :
  cancelOrder orderId b = Ok ((true, os), b') →
  ∃ it o,
    activeOrderMap b !! orderId = Some it
    ∧ nodes b !! it = Some o
    ∧ activeOrderMap b' = delete orderId (activeOrderMap b)
    ∧ nodes b' = delete it (nodes b)
    ∧ book_total b' = book_total b - remainingSize o
    ∧ doneOrderMap b' = doneOrderMap b
    ∧ nextOrderId b' = nextOrderId b.
Proof.
  unfold cancelOrder. intros H.
  apply bind_ok in H as ([active os'] & b1 & H1 & H).
  pose proof (getOrderStatus_pure _ _ _ _ H1) as ->.
  destruct active; simpl in H; [|inversion H]. clear H1.
  apply bind_ok in H as (it & b1 & H1 & H).
  assert (Ha : activeOrderMap b !! orderId = Some it ∧ b1 = b).
  { unfold active_at in H1. destruct (activeOrderMap b !! orderId); [|discriminate].
    inversion H1; subst. auto. }
  destruct Ha as [Ha ->]. clear H1.
  apply bind_ok in H as (o & b1 & H1 & H). apply deref_ok in H1 as (Hn & ->).
  apply bind_ok in H as (inc & b1 & H1 & H). inversion H1; subst inc b1. clear H1.
  apply bind_ok in H as (currIdx & b1 & H1 & H).
  assert (b1 = b) as -> by (symmetry; revert H1; apply (keeps_int_div eq); congruence).
  clear H1.
  apply bind_ok in H as (l & b1 & H1 & H). apply level_at_ok in H1 as (Hi & Hl & ->).
  apply bind_ok in H as (total & b1 & H1 & H). apply int_chk_ok in H1 as (-> & _ & ->).
  apply bind_ok in H as (u & b1 & H1 & H).
  apply modify_level_ok in H1 as (l' & _ & Hl' & ->).
  rewrite Hl in Hl'. inversion Hl'; subst l'. clear Hl'.
  apply bind_ok in H as (u1 & b2 & H2 & H).
  unfold list_erase in H2.
  apply bind_ok in H2 as (l2 & b3 & H3 & H2).
  apply level_at_ok in H3 as (_ & Hl2 & ->). simpl in Hl2.
  rewrite list_lookup_insert_eq in Hl2 by (eapply lookup_lt_Some, Hl).
  inversion Hl2; subst l2. clear Hl2.
  destruct (bool_decide (it ∈ orders (set_totalSize (totalSize l - remainingSize o) l)));
    [|discriminate].
  apply bind_ok in H2 as (u2 & b3 & H3 & H2).
  apply modify_level_ok in H3 as (l3 & _ & Hl3 & ->). simpl in Hl3.
  rewrite list_lookup_insert_eq in Hl3 by (eapply lookup_lt_Some, Hl).
  inversion Hl3; subst l3. clear Hl3.
  inversion H2; subst b2. clear H2.
  apply bind_ok in H as (u3 & b2 & H2 & H). inversion H2; subst b2. clear H2.
  apply bind_ok in H as (l4 & b2 & H2 & H). apply level_at_ok in H2 as (_ & _ & ->).
  apply bind_ok in H as (u4 & b2 & H2 & H). inversion H; subst; clear H.
  set (b1 := set_activeOrderMap _ _) in H2.
  assert (Hsame : same_orders b1 b' ∧ nextOrderId b' = nextOrderId b1).
  { revert H2. unfold when. destruct (totalSize l4 =? 0); intros H2.
    - split; [eapply same_orders_removeOrderLevel, H2|].
      revert H2. apply (keeps_removeOrderLevel same_nextOrderId);
        same_nextOrderId_frame.
    - inversion H2; subst. split; [|reflexivity].
      unfold same_orders. split_and!; reflexivity. }
  destruct Hsame as [(Ht & Hnodes & Hact & Hdone) Hnext].
  exists it, o. rewrite Hact, Hnodes, Ht, Hdone, Hnext. subst b1. simpl.
  split_and!; try reflexivity; try assumption.
  unfold book_total. simpl. rewrite list_insert_insert_eq.
  rewrite (total_insert _ _ l) by exact Hl. simpl. lia.
Qed.

Lemma cancelOrder_removes_order_witness :
  ∃ it o,
    activeOrderMap book_one_offer !! 1 = Some it
    ∧ nodes book_one_offer !! it = Some o
    ∧ activeOrderMap (default book_10 (after (cancelOrder 1) book_one_offer))
      = delete 1 (activeOrderMap book_one_offer)
    ∧ nodes (default book_10 (after (cancelOrder 1) book_one_offer))
      = delete it (nodes book_one_offer)
    ∧ book_total (default book_10 (after (cancelOrder 1) book_one_offer))
      = book_total book_one_offer - remainingSize o
    ∧ doneOrderMap (default book_10 (after (cancelOrder 1) book_one_offer))
      = doneOrderMap book_one_offer
    ∧ nextOrderId (default book_10 (after (cancelOrder 1) book_one_offer))
      = nextOrderId book_one_offer.
Proof.
  apply (cancelOrder_removes_order 1 book_one_offer _
           (mkOrderState 0 (of_int 0 / of_int 0)%float)).
  vm_compute. reflexivity.
Defined.

End BookProps.

(** ** Task scheduler *)

Module SchedProps.
Import Sched.

(** The worked example: the cancel during the run succeeds, the run ends
    without another occurrence, and a second cancel is refused. *)
Example cancel_during_run :
  loop sched_executing = Executing (mkTask 1 450 10)
  ∧ fst (deleteScheduled 1 sched_executing) = true
  ∧ taskq sched_resumed = []
  ∧ loop sched_resumed = Waiting 4000
  ∧ fst (deleteScheduled 1 sched_resumed) = false.
Proof. vm_compute. repeat split; reflexivity. Qed.

Lemma pq_push_perm (t : Task) (q : list Task) : pq_push t q ≡ₚ t :: q.
Proof.
  induction q as [|h q IH]; simpl; [reflexivity|].
  destruct (start_time t <? start_time h); [reflexivity|].
  rewrite IH. apply Permutation_swap.
Qed.

Lemma fold_push_perm (tasks q : list Task) :
  fold_left (λ q t, pq_push t q) tasks q ≡ₚ tasks ++ q.
Proof.
  revert q. induction tasks as [|t tasks IH]; intros q; simpl; [reflexivity|].
  rewrite IH, pq_push_perm. symmetry. apply Permutation_middle.
Qed.

(** [pop_until] splits the queue at the first task with the wanted id. *)
Lemma pop_until_split (id : Z) (q acc : list Task) :
  ∃ pre rest,
    pop_until id q acc = (acc ++ pre, rest) ∧ q = pre ++ rest ∧
    Forall (λ t, task_id t ≠ id) pre ∧
    match rest with [] => True | t :: _ => task_id t = id end.
Proof.
  revert acc. induction q as [|t q IH]; intros acc; simpl.
  - exists [], []. rewrite app_nil_r. auto.
  - destruct (task_id t =? id) eqn:E.
    + exists [], (t :: q). rewrite app_nil_r. repeat split; auto. lia.
    + destruct (IH (acc ++ [t])) as (pre & rest & -> & -> & Hpre & Hrest).
      exists (t :: pre), rest. rewrite <- app_assoc. simpl.
      repeat split; auto. constructor; [lia | exact Hpre].
Qed.

(** What one call of [deleteScheduled] does to each member. *)
Lemma deleteScheduled_effect (id : Z) (s s' : TaskScheduler) (ok : bool) :
  deleteScheduled id s = (ok, s') →
  next_task_id s' = next_task_id s ∧ executed_tasks s' = executed_tasks s ∧
  loop s' = loop s ∧ event_loop_running s' = event_loop_running s ∧
  start s' = start s ∧
  (if event_loop_running s
   then repeated_tasks s' = delete id (repeated_tasks s)
   else repeated_tasks s' = repeated_tasks s) ∧
  ((taskq s ≡ₚ taskq s' ∧
    ok = event_loop_running s && bool_decide (is_Some (repeated_tasks s !! id)))
   ∨ (∃ t, task_id t = id ∧ taskq s ≡ₚ t :: taskq s' ∧ ok = true)) ∧
  (event_loop_running s = true → repeated_tasks s !! id = None →
   id ∈ executed_tasks s → s' = log (ErrorExecuted id) s).
Proof.
  unfold deleteScheduled, get_event_loop_running.
  destruct (event_loop_running s) eqn:Hrun; simpl.
  2:{ intros [= <- <-]. simpl. rewrite Hrun. split_and!; try done. by left. }
  destruct (pop_until_split id (taskq s) []) as (pre & rest & Hpop & Hq & Hpre & Hrest).
  simpl in Hpop.
  assert (fold_left (λ q t, pq_push t q) pre rest ≡ₚ pre ++ rest) as Hfold
    by apply fold_push_perm.
  destruct (repeated_tasks s !! id) as [iv|] eqn:Hrep; simpl.
  - rewrite Hpop. destruct rest as [|t rest]; simpl.
    + intros [= <- <-]. simpl. rewrite Hrun. split_and!; try done.
      left. split; [|done]. by rewrite Hfold, Hq.
    + rewrite Hrest, Z.eqb_refl. simpl.
      intros [= <- <-]. simpl. rewrite Hrun. split_and!; try done.
      right. exists t. split_and!; try done.
      rewrite fold_push_perm, Hq. symmetry. apply Permutation_middle.
  - destruct (bool_decide (id ∈ executed_tasks s)) eqn:Hex; simpl.
    + intros [= <- <-]. simpl. rewrite Hrun.
      rewrite delete_id by exact Hrep. split_and!; try done. by left.
    + apply bool_decide_eq_false_1 in Hex.
      rewrite Hpop. destruct rest as [|t rest]; simpl.
      * intros [= <- <-]. simpl. rewrite Hrun.
        rewrite delete_id by exact Hrep. split_and!; try done.
        left. split; [|done]. by rewrite Hfold, Hq.
      * rewrite Hrest, Z.eqb_refl. simpl.
        intros [= <- <-]. simpl. rewrite Hrun.
        rewrite delete_id by exact Hrep. split_and!; try done.
        right. exists t. split_and!; try done.
        rewrite fold_push_perm, Hq. symmetry. apply Permutation_middle.
Qed.

(** C4. [deleteScheduled] returns [true] exactly when it removed a pending
    occurrence of the task from the queue (the queue before is the queue after
    plus one task with that id) or removed the task's entry from the repeated
    mapping. For an id in the executed set and not in the repeated mapping it
    returns [false] and changes neither the queue nor the mapping; with the
    loop running it reports that the task has been executed. (Once the loop is
    not running, every call returns [false] behind the guard at its top, which
    reports that instead.) *)
Theorem deleteScheduled_true_iff (id : Z) (s s' : TaskScheduler) (ok : bool) :
  deleteScheduled id s = (ok, s') →
  (ok = true ↔
     (∃ t, task_id t = id ∧ taskq s ≡ₚ t :: taskq s')
     ∨ (is_Some (repeated_tasks s !! id) ∧ repeated_tasks s' !! id = None))
  ∧ (id ∈ executed_tasks s → repeated_tasks s !! id = None →
       ok = false ∧ taskq s' = taskq s ∧ repeated_tasks s' = repeated_tasks s ∧
       (event_loop_running s = true → s' = log (ErrorExecuted id) s))
  ∧ (event_loop_running s = false → ok = false ∧ s' = log ErrorNotRunning s).
Proof.
  intros Hdel.
  destruct (deleteScheduled_effect id s s' ok Hdel)
    as (_ & _ & _ & _ & _ & Hrep & Hq & Hexec).
  split_and!; [split| |].
  - intros ->. destruct Hq as [[_ Hok] | (t & Ht & Hperm & _)].
    + right. symmetry in Hok. apply andb_true_iff in Hok as [Hrun Hsome].
      rewrite Hrun in Hrep. apply bool_decide_eq_true_1 in Hsome.
      split; [exact Hsome|]. rewrite Hrep. apply lookup_delete_eq.
    + left. exists t. auto.
  - intros [(t & Ht & Hperm) | [Hsome Hnone]].
    + destruct Hq as [[Hsame _] | (_ & _ & _ & ->)]; [|reflexivity].
      rewrite Hsame in Hperm. apply Permutation_length in Hperm. simpl in Hperm. lia.
    + destruct Hq as [[_ ->] | (_ & _ & _ & ->)]; [|reflexivity].
      destruct (event_loop_running s); simpl.
      * apply bool_decide_eq_true_2. exact Hsome.
      * rewrite Hrep in Hnone. destruct Hsome as [? Hsome]. congruence.
  - intros Hin Hnone.
    unfold deleteScheduled, get_event_loop_running in Hdel.
    destruct (event_loop_running s) eqn:Hrun; simpl in Hdel.
    + specialize (Hexec eq_refl Hnone Hin). subst s'. simpl.
      rewrite Hnone in Hdel. simpl in Hdel.
      rewrite bool_decide_eq_true_2 in Hdel by exact Hin.
      inversion Hdel. auto.
    + inversion Hdel; subst. simpl. split_and!; try done.
  - intros Hrun. unfold deleteScheduled, get_event_loop_running in Hdel.
    rewrite Hrun in Hdel. simpl in Hdel. inversion Hdel. auto.
Qed.

Lemma deleteScheduled_true_iff_witness :
  ((true = true ↔
      (∃ t, task_id t = 1 ∧ taskq sched_executing ≡ₚ t :: taskq sched_cancelled)
      ∨ (is_Some (repeated_tasks sched_executing !! 1)
         ∧ repeated_tasks sched_cancelled !! 1 = None))
   ∧ (1 ∈ executed_tasks sched_executing →
      repeated_tasks sched_executing !! 1 = None →
      true = false ∧ taskq sched_cancelled = taskq sched_executing
      ∧ repeated_tasks sched_cancelled = repeated_tasks sched_executing
      ∧ (event_loop_running sched_executing = true →
         sched_cancelled = log (ErrorExecuted 1) sched_executing))
   ∧ (event_loop_running sched_executing = false →
      true = false ∧ sched_cancelled = log ErrorNotRunning sched_executing))
  ∧ deleteScheduled 1 sched_resumed = (false, log (ErrorExecuted 1) sched_resumed).
Proof.
  split.
  - apply (deleteScheduled_true_iff 1 sched_executing sched_cancelled true).
    vm_compute. reflexivity.
  - pose proof (deleteScheduled_true_iff 1 sched_resumed
                  (snd (deleteScheduled 1 sched_resumed))
                  (fst (deleteScheduled 1 sched_resumed))) as H.
    destruct H as (_ & H & _); [apply surjective_pairing|].
    destruct H as (Hok & _ & _ & Hlog).
    + apply (bool_decide_unpack _). vm_compute. exact I.
    + vm_compute. reflexivity.
    + rewrite (surjective_pairing (deleteScheduled 1 sched_resumed)).
      rewrite Hok, Hlog; reflexivity.
Defined.









(** *** Further properties of the scheduler *)

(** *** What every run keeps *)
















Lemma well_formed_log (s : TaskScheduler) (m : message) :
  well_formed s → well_formed (log m s).
Proof. intros W. exact W. Qed.










(** *** The running flag and the end of the loop *)





(** *** Cancelling a task that was just scheduled *)





End SchedProps.

(** ** Resource pool *)

Module PoolProps.
Import Pool.

(** The recycling test of the repository: two acquisitions in a row from one
    pool build one resource. *)
Example two_acquisitions_one_resource :
  ('(h1, w) ← request 1%positive shared_pool_world;
   w ← drop h1 w;
   '(h2, w) ← request 1%positive w;
   w ← drop h2 w;
   n ← get_num_unused 1%positive w;
   mret (r_ptr h1, r_ptr h2, n, allocated w))
  = Ok (3%positive, 3%positive, 1%nat, 1%nat).
Proof. vm_compute. reflexivity. Qed.

(** With two idle resources the queue is first in, first out: the released
    resource goes behind the other one. *)
Example two_idle_fifo :
  (w ← two_idle_world;
   '(h1, w) ← request 1%positive w;
   w ← drop h1 w;
   '(h2, w) ← request 1%positive w;
   n ← get_num_unused 1%positive w;
   mret (r_ptr h1, r_ptr h2, n))
  = Ok (3%positive, 4%positive, 1%nat).
Proof. vm_compute. reflexivity. Qed.


Lemma expired_set_pools (p_ptr : weak_ptr) (v : gmap positive ResourcePool) (w : world) :
  expired p_ptr (set_pools v w) = expired p_ptr w.
Proof. reflexivity. Qed.


(** Acquiring from a non-empty idle queue detaches its head; the factory is
    not called. *)
Lemma request_idle (w : world) (this : positive) (p : ResourcePool)
    (r : positive) (rest : list positive) :
  pools w !! this = Some p →
  pool p = r :: rest →
  expired (weak_this p) w = false →
  request this w =
    Ok (mkRPtr r (mkRDeleter (weak_this p)),
        set_pools (<[this := set_pool rest p]> (pools w)) w).
Proof.
  intros Hp Hq He. unfold request. rewrite Hp, Hq. unfold RDeleter_new.
  rewrite expired_set_pools, He. reflexivity.
Qed.

(** Acquiring from an empty idle queue calls the factory once. *)
Lemma request_empty (w : world) (this : positive) (p : ResourcePool) :
  pools w !! this = Some p →
  pool p = [] →
  allocate p = true →
  expired (weak_this p) w = false →
  request this w =
    Ok (mkRPtr (next_address w) (mkRDeleter (weak_this p)),
        mkWorld (pools w) (blocks w) ({[next_address w]} ∪ resources w)
          (S (allocated w)) (Pos.succ (next_address w)) (cout w)).
Proof.
  intros Hp Hq Ha He. unfold request. rewrite Hp, Hq. unfold call_allocate.
  rewrite Ha. simpl. unfold RDeleter_new.
  replace (expired (weak_this p) _) with (expired (weak_this p) w) by reflexivity.
  rewrite He. reflexivity.
Qed.




Lemma request_unowned (w : world) (this : positive) (p : ResourcePool) :
  pools w !! this = Some p →
  expired (weak_this p) w = true →
  pool p ≠ [] ∨ allocate p = true →
  request this w = Aborted.
Proof.
  intros Hp He Hsrc. unfold request. rewrite Hp.
  destruct (pool p) as [|r rest] eqn:Hq.
  - destruct Hsrc as [Hne | Ha]; [congruence|].
    unfold call_allocate. rewrite Ha. simpl. unfold RDeleter_new.
    replace (expired (weak_this p) _) with (expired (weak_this p) w) by reflexivity.
    rewrite He. reflexivity.
  - unfold RDeleter_new. rewrite expired_set_pools, He. reflexivity.
Qed.

Lemma request_owned (w : world) (this : positive) (p : ResourcePool) :
  pools w !! this = Some p →
  expired (weak_this p) w = false →
  request this w ≠ Aborted.
Proof.
  intros Hp He. unfold request. rewrite Hp.
  destruct (pool p) as [|r rest] eqn:Hq.
  - unfold call_allocate. destruct (allocate p); [|discriminate].
    simpl. unfold RDeleter_new.
    replace (expired (weak_this p) _) with (expired (weak_this p) w) by reflexivity.
    rewrite He. discriminate.
  - unfold RDeleter_new. rewrite expired_set_pools, He. discriminate.
Qed.

(** C10, as stated, fails: the source object of a move is still owned by its
    [shared_ptr], and acquiring from it does not fail the assertion. In
    [moved_from_world] the pool at address 1 was moved from while a client held
    its resource 3; the release recycled the resource into that pool, and the
    next acquire from it returns the resource. Right after the move, with
    nothing idle, the acquire exits by the exception of the emptied factory,
    not by the assertion. *)
Lemma moved_from_pool_passes_assertion :
  ((λ w, (weak_this <$> pools w !! 1%positive, lock (Some 2%positive) w))
     <$> moved_from_world)
    = Ok (Some (Some 2%positive), Some 1%positive)
  ∧ (moved_from_world ≫= λ w, fst <$> request 1%positive w)
    = Ok (mkRPtr 3%positive (mkRDeleter (Some 2%positive)))
  ∧ (request 1%positive shared_pool_world ≫= λ '(_, w),
     move_construct 1%positive w ≫= λ '(_, w),
     fst <$> request 1%positive w) = Throw bad_function_call
  ∧ (request 1%positive shared_pool_world ≫= λ '(_, w),
     move_construct 1%positive w ≫= λ '(q, w),
     fst <$> request q w) = Aborted.
Proof. vm_compute. repeat split; reflexivity. Qed.

(** C10, amended. [request] may only be called on a pool object that a
    [shared_ptr] owns: the deleter of the handle asserts that the weak
    reference taken from [weak_from_this] is not expired. When it is expired,
    the call fails this assertion as soon as it has a resource pointer (the
    idle queue is non-empty, or the factory can be called); when it is not,
    the assertion holds. A pool object that no [shared_ptr] owns, such as a
    local one, or the destination object of a move construction, fails the
    assertion; the source object of the move keeps its owner and does not. *)
Theorem request_needs_shared_owner (w : world) (this : positive) (p : ResourcePool) :
  pools w !! this = Some p →
  pools w !! next_address w = None →
  (expired (weak_this p) w = true → pool p ≠ [] ∨ allocate p = true →
     request this w = Aborted)
  ∧ (expired (weak_this p) w = false → request this w ≠ Aborted)
  ∧ (∀ q w', construct w = (q, w') → request q w' = Aborted)
  ∧ (∀ q w', move_construct this w = Ok (q, w') →
       (pool p ≠ [] ∨ allocate p = true → request q w' = Aborted)
       ∧ (expired (weak_this p) w = false → request this w' ≠ Aborted)).
Proof.
  intros Hp Hfresh.
  assert (next_address w ≠ this) as Hne by (intros Heq; rewrite Heq in Hfresh; congruence).
  split; [apply request_unowned; exact Hp|].
  split; [apply request_owned; exact Hp|].
  split.
  - intros q w' Hc. unfold construct in Hc. simpl in Hc. inversion Hc; subst; clear Hc.
    eapply request_unowned.
    + simpl. apply lookup_insert_eq.
    + reflexivity.
    + right. reflexivity.
  - intros q w' Hm. unfold move_construct in Hm. rewrite Hp in Hm. simpl in Hm.
    inversion Hm; subst; clear Hm. split.
    + intros Hsrc. eapply request_unowned.
      * simpl. apply lookup_insert_eq.
      * reflexivity.
      * exact Hsrc.
    + intros He. eapply request_owned.
      * simpl. rewrite lookup_insert_ne by exact Hne. apply lookup_insert_eq.
      * exact He.
Qed.

Lemma request_needs_shared_owner_witness :
  request 1%positive local_pool_world = Aborted
  ∧ request 1%positive shared_pool_world ≠ Aborted.
Proof.
  split.
  - apply (proj1 (request_needs_shared_owner local_pool_world 1%positive
                    (mkResourcePool true [] None) eq_refl eq_refl));
      [reflexivity | right; reflexivity].
  - apply (proj1 (proj2 (request_needs_shared_owner shared_pool_world 1%positive
                           (mkResourcePool true [] (Some 2%positive))
                           eq_refl eq_refl))).
    reflexivity.
Defined.

(** *** Further properties of the resource pool *)

Example one_idle_world_built :
  ('(h, w) ← request 1%positive shared_pool_world; drop h w) = Ok one_idle_world.
Proof. vm_compute. reflexivity. Qed.

(** *** A pool that is destroyed before its handles *)

Lemma release_last (w : world) (c this : positive) (p : ResourcePool) :
  blocks w !! c = Some (mkControlBlock 1 this) →
  pools w !! this = Some p →
  release_shared c w
  = Ok (mkWorld (delete this (pools w))
          (<[c := mkControlBlock 0 this]> (blocks w))
          (resources w ∖ list_to_set (pool p)) (allocated w) (next_address w)
          (cout w ++ [DestroyingPool])).
Proof.
  intros Hc Hp. unfold release_shared. rewrite Hc. simpl.
  unfold destroy, free_all_unused. simpl. rewrite Hp. simpl.
  unfold set_pools. simpl. rewrite delete_insert_eq. reflexivity.
Qed.

Lemma drop_dead (w : world) (h : RPtr) :
  lock (pool_ptr (deleter h)) w = None →
  drop h w
  = Ok (set_resources (resources w ∖ {[r_ptr h]}) (log DeletingResource w)).
Proof. intros Hl. unfold drop. rewrite Hl. reflexivity. Qed.

(** X17: a handle that outlives its pool deletes its resource. For a pool
    whose only owner is one [shared_ptr]: after a resource was acquired and the
    owner released, the pool object is gone and the resources that were idle
    are destroyed; the handle released afterwards destroys its resource, and
    no pool receives it. *)
Theorem handle_outlives_pool (w : world) (this c : positive) (p : ResourcePool) :
  pools w !! this = Some p →
  weak_this p = Some c →
  blocks w !! c = Some (mkControlBlock 1 this) →
  (pool p = [] → allocate p = true) →
  ∃ h w1 w2 w3,
    request this w = Ok (h, w1)
    ∧ release_shared c w1 = Ok w2
    ∧ drop h w2 = Ok w3
    ∧ pools w2 !! this = None
    ∧ resources w2 = resources w1 ∖ list_to_set (tail (pool p))
    ∧ resources w3 = resources w2 ∖ {[r_ptr h]}
    ∧ pools w3 = pools w2
    ∧ cout w3 = cout w ++ [DestroyingPool; DeletingResource].
Proof.
  intros Hp Hw Hc Hf.
  assert (He : expired (weak_this p) w = false)
    by (rewrite Hw; unfold expired; rewrite Hc; reflexivity).
  destruct (pool p) as [|r rest] eqn:Hq.
  - pose proof (request_empty w this p Hp Hq (Hf eq_refl) He) as Hr.
    set (w1 := mkWorld _ _ _ _ _ _) in Hr.
    pose proof (release_last w1 c this p Hc Hp) as Hrel.
    set (w2 := mkWorld _ _ _ _ _ _) in Hrel.
    eexists _, w1, w2, _. split; [exact Hr|]. split; [exact Hrel|].
    split.
    { apply drop_dead. simpl. rewrite Hw. simpl. rewrite lookup_insert_eq.
      reflexivity. }
    simpl. rewrite Hq, lookup_delete_eq, <- app_assoc. auto 10.
  - pose proof (request_idle w this p r rest Hp Hq He) as Hr.
    set (w1 := set_pools _ _) in Hr.
    assert (Hp1 : pools w1 !! this = Some (set_pool rest p))
      by apply lookup_insert_eq.
    pose proof (release_last w1 c this _ Hc Hp1) as Hrel.
    set (w2 := mkWorld _ _ _ _ _ _) in Hrel.
    eexists _, w1, w2, _. split; [exact Hr|]. split; [exact Hrel|].
    split.
    { apply drop_dead. simpl. rewrite Hw. simpl. rewrite lookup_insert_eq.
      reflexivity. }
    simpl. rewrite lookup_delete_eq, <- app_assoc. auto 10.
Qed.

Lemma handle_outlives_pool_witness :
  ∃ h w1 w2 w3,
    request 1%positive shared_pool_world = Ok (h, w1)
    ∧ release_shared 2%positive w1 = Ok w2
    ∧ drop h w2 = Ok w3
    ∧ pools w2 !! 1%positive = None
    ∧ resources w2 = resources w1 ∖ list_to_set (tail [])
    ∧ resources w3 = resources w2 ∖ {[r_ptr h]}
    ∧ pools w3 = pools w2
    ∧ cout w3 = cout shared_pool_world ++ [DestroyingPool; DeletingResource].
Proof.
  apply (handle_outlives_pool shared_pool_world 1%positive 2%positive
           (mkResourcePool true [] (Some 2%positive))); reflexivity.
Defined.

(** *** Moving a pool *)

(** X18: a move construction carries the idle resources away. After a pool
    whose only owner is one [shared_ptr] was moved from, the new pool object
    holds the idle queue of the source, in the same order; releasing the
    owner of the source then destroys the source object and no resource, and
    the new object still counts the resources as unused. *)
Theorem move_keeps_idle_resources (w : world) (other c : positive) (o : ResourcePool) :
  pools w !! other = Some o →
  blocks w !! c = Some (mkControlBlock 1 other) →
  pools w !! next_address w = None →
  ∃ this w1 w2,
    move_construct other w = Ok (this, w1)
    ∧ release_shared c w1 = Ok w2
    ∧ pool <$> pools w1 !! this = Some (pool o)
    ∧ get_num_unused other w1 = Ok 0%nat
    ∧ pools w2 !! other = None
    ∧ pool <$> pools w2 !! this = Some (pool o)
    ∧ get_num_unused this w2 = Ok (length (pool o))
    ∧ resources w2 = resources w.
Proof.
  intros Hp Hc Hfresh.
  assert (Hne : next_address w ≠ other)
    by (intros Heq; rewrite Heq in Hfresh; congruence).
  unfold move_construct. rewrite Hp. simpl.
  set (w1 := set_pools _ _).
  assert (Hp1 : pools w1 !! other = Some (mkResourcePool false [] (weak_this o))).
  { simpl. rewrite lookup_insert_ne by exact Hne. apply lookup_insert_eq. }
  pose proof (release_last w1 c other _ Hc Hp1) as Hrel.
  eexists _, w1, _. split; [reflexivity|]. split; [exact Hrel|].
  unfold get_num_unused. rewrite Hp1. simpl.
  rewrite lookup_insert_eq, lookup_delete_eq.
  rewrite lookup_delete_ne by congruence. rewrite lookup_insert_eq. simpl.
  split_and!; try reflexivity.
  apply leibniz_equiv. apply difference_empty.
Qed.

Lemma move_keeps_idle_resources_witness :
  ∃ this w1 w2,
    move_construct 1%positive one_idle_world = Ok (this, w1)
    ∧ release_shared 2%positive w1 = Ok w2
    ∧ pool <$> pools w1 !! this = Some [3%positive]
    ∧ get_num_unused 1%positive w1 = Ok 0%nat
    ∧ pools w2 !! 1%positive = None
    ∧ pool <$> pools w2 !! this = Some [3%positive]
    ∧ get_num_unused this w2 = Ok (length [3%positive])
    ∧ resources w2 = resources one_idle_world.
Proof.
  apply (move_keeps_idle_resources one_idle_world 1%positive 2%positive
           (mkResourcePool true [3%positive] (Some 2%positive))); reflexivity.
Defined.

End PoolProps.
